(** * JewOrNotJew harvesting client: extractor, list splitter and harvest
    coordinator of [pkg/client], embedded shallowly.

    Go strings are byte sequences: a [string] here is the sequence of bytes
    of the Go string, [len] is Go's [len] (a number of bytes), and a string
    literal below stands for its UTF-8 bytes, as in the Go source. *)

From Stdlib Require Import ZArith Ascii String List Floats Uint63.
From stdpp Require Import base option list strings gmap pretty.

Open Scope string_scope.
Open Scope Z_scope.

(** ** Go's [unicode/utf8] and [unicode.ToLower]

    A rune is its code point, a number. *)

Module GoUTF8.

Definition RuneError : N := 65533.

(** A continuation byte, [0x80] to [0xBF]. *)
Definition continues (b : N) : bool := ((128 <=? b) && (b <=? 191))%N.

(** [utf8.DecodeRuneInString]: the rune [s] starts with and its width in
    bytes.  A byte that starts no valid encoding (a stray continuation
    byte, an over-long form, a surrogate, a value past U+10FFFF, an
    encoding cut short) is [RuneError] of width 1. *)
Definition DecodeRuneInString (s : string) : N * nat :=
  match s with
  | EmptyString => (RuneError, 0%nat)
  | String c0 t0 =>
      let s0 := N_of_ascii c0 in
      if (s0 <? 128)%N then (s0, 1%nat)
      else if ((s0 <? 194) || (244 <? s0))%N then (RuneError, 1%nat)
      else
        match t0 with
        | EmptyString => (RuneError, 1%nat)
        | String c1 t1 =>
            let s1 := N_of_ascii c1 in
            let lo := (if s0 =? 224 then 160 else if s0 =? 240 then 144 else 128)%N in
            let hi := (if s0 =? 237 then 159 else if s0 =? 244 then 143 else 191)%N in
            if ((s1 <? lo) || (hi <? s1))%N then (RuneError, 1%nat)
            else if (s0 <? 224)%N
            then ((s0 mod 32) * 64 + s1 mod 64, 2%nat)%N
            else
              match t1 with
              | EmptyString => (RuneError, 1%nat)
              | String c2 t2 =>
                  let s2 := N_of_ascii c2 in
                  if negb (continues s2) then (RuneError, 1%nat)
                  else if (s0 <? 240)%N
                  then ((s0 mod 16) * 4096 + (s1 mod 64) * 64 + s2 mod 64,
                        3%nat)%N
                  else
                    match t2 with
                    | EmptyString => (RuneError, 1%nat)
                    | String c3 _ =>
                        let s3 := N_of_ascii c3 in
                        if negb (continues s3) then (RuneError, 1%nat)
                        else ((s0 mod 8) * 262144 + (s1 mod 64) * 4096
                              + (s2 mod 64) * 64 + s3 mod 64, 4%nat)%N
                    end
              end
        end
  end.

(** [for _, c := range s]: the runes of [s] in order; [skip] bytes of
    the rune decoded last are still to be passed over. *)
Fixpoint runesFrom (skip : nat) (s : string) : list N :=
  match s with
  | EmptyString => []
  | String _ t =>
      match skip with
      | S k => runesFrom k t
      | O =>
          let '(r, width) := DecodeRuneInString s in
          r :: runesFrom (width - 1) t
      end
  end.

Definition runes (s : string) : list N := runesFrom 0 s.

(** [utf8.RuneCountInString] *)
Definition RuneCountInString (s : string) : Z := Z.of_nat (length (runes s)).

Definition bytes (l : list N) : string :=
  fold_right (fun b s => String (ascii_of_N b) s) EmptyString l.

(** [utf8.AppendRune]: the encoding of [r]; a surrogate and a value past
    U+10FFFF are written as [RuneError]. *)
Definition EncodeRune (r : N) : string :=
  (if r <? 128 then bytes [r]
   else if r <? 2048 then bytes [192 + r / 64; 128 + r mod 64]
   else if (55296 <=? r) && (r <=? 57343) || (1114111 <? r)
   then bytes [239; 191; 189]
   else if r <? 65536
   then bytes [224 + r / 4096; 128 + (r / 64) mod 64; 128 + r mod 64]
   else bytes [240 + r / 262144; 128 + (r / 4096) mod 64;
               128 + (r / 64) mod 64; 128 + r mod 64])%N.

End GoUTF8.

Module GoUnicode.

(** The lower-case column of [unicode.CaseRanges] past ASCII, as of
    Unicode 15.0.0, the version of Go 1.21's [unicode] package (another
    toolchain differs from it only on the letters its Unicode version
    adds or lacks; 13.0.0, of Go 1.18 to 1.20, lacks the pairs from
    U+2C2F, U+A7C0, U+A7D0, U+A7D6, U+A7D8 and U+10570 to U+10595).  An
    entry [(lo, hi, stride, lower)] maps the rune [lo + k * stride], up
    to [hi], to [lower + k * stride]. *)
Definition lowerCase : list (N * N * N * N) :=
  [(192, 214, 1, 224); (216, 222, 1, 248); (256, 302, 2, 257);
   (304, 304, 1, 105); (306, 310, 2, 307); (313, 327, 2, 314);
   (330, 374, 2, 331); (376, 376, 1, 255); (377, 381, 2, 378);
   (385, 385, 1, 595); (386, 388, 2, 387); (390, 390, 1, 596);
   (391, 391, 1, 392); (393, 394, 1, 598); (395, 395, 1, 396);
   (398, 398, 1, 477); (399, 399, 1, 601); (400, 400, 1, 603);
   (401, 401, 1, 402); (403, 403, 1, 608); (404, 404, 1, 611);
   (406, 406, 1, 617); (407, 407, 1, 616); (408, 408, 1, 409);
   (412, 412, 1, 623); (413, 413, 1, 626); (415, 415, 1, 629);
   (416, 420, 2, 417); (422, 422, 1, 640); (423, 423, 1, 424);
   (425, 425, 1, 643); (428, 428, 1, 429); (430, 430, 1, 648);
   (431, 431, 1, 432); (433, 434, 1, 650); (435, 437, 2, 436);
   (439, 439, 1, 658); (440, 440, 1, 441); (444, 444, 1, 445);
   (452, 452, 1, 454); (453, 453, 1, 454); (455, 455, 1, 457);
   (456, 456, 1, 457); (458, 458, 1, 460); (459, 475, 2, 460);
   (478, 494, 2, 479); (497, 497, 1, 499); (498, 500, 2, 499);
   (502, 502, 1, 405); (503, 503, 1, 447); (504, 542, 2, 505);
   (544, 544, 1, 414); (546, 562, 2, 547); (570, 570, 1, 11365);
   (571, 571, 1, 572); (573, 573, 1, 410); (574, 574, 1, 11366);
   (577, 577, 1, 578); (579, 579, 1, 384); (580, 580, 1, 649);
   (581, 581, 1, 652); (582, 590, 2, 583); (880, 882, 2, 881);
   (886, 886, 1, 887); (895, 895, 1, 1011); (902, 902, 1, 940);
   (904, 906, 1, 941); (908, 908, 1, 972); (910, 911, 1, 973);
   (913, 929, 1, 945); (931, 939, 1, 963); (975, 975, 1, 983);
   (984, 1006, 2, 985); (1012, 1012, 1, 952); (1015, 1015, 1, 1016);
   (1017, 1017, 1, 1010); (1018, 1018, 1, 1019); (1021, 1023, 1, 891);
   (1024, 1039, 1, 1104); (1040, 1071, 1, 1072); (1120, 1152, 2, 1121);
   (1162, 1214, 2, 1163); (1216, 1216, 1, 1231); (1217, 1229, 2, 1218);
   (1232, 1326, 2, 1233); (1329, 1366, 1, 1377); (4256, 4293, 1, 11520);
   (4295, 4295, 1, 11559); (4301, 4301, 1, 11565); (5024, 5103, 1, 43888);
   (5104, 5109, 1, 5112); (7312, 7354, 1, 4304); (7357, 7359, 1, 4349);
   (7680, 7828, 2, 7681); (7838, 7838, 1, 223); (7840, 7934, 2, 7841);
   (7944, 7951, 1, 7936); (7960, 7965, 1, 7952); (7976, 7983, 1, 7968);
   (7992, 7999, 1, 7984); (8008, 8013, 1, 8000); (8025, 8031, 2, 8017);
   (8040, 8047, 1, 8032); (8072, 8079, 1, 8064); (8088, 8095, 1, 8080);
   (8104, 8111, 1, 8096); (8120, 8121, 1, 8112); (8122, 8123, 1, 8048);
   (8124, 8124, 1, 8115); (8136, 8139, 1, 8050); (8140, 8140, 1, 8131);
   (8152, 8153, 1, 8144); (8154, 8155, 1, 8054); (8168, 8169, 1, 8160);
   (8170, 8171, 1, 8058); (8172, 8172, 1, 8165); (8184, 8185, 1, 8056);
   (8186, 8187, 1, 8060); (8188, 8188, 1, 8179); (8486, 8486, 1, 969);
   (8490, 8490, 1, 107); (8491, 8491, 1, 229); (8498, 8498, 1, 8526);
   (8544, 8559, 1, 8560); (8579, 8579, 1, 8580); (9398, 9423, 1, 9424);
   (11264, 11311, 1, 11312); (11360, 11360, 1, 11361);
   (11362, 11362, 1, 619); (11363, 11363, 1, 7549); (11364, 11364, 1, 637);
   (11367, 11371, 2, 11368); (11373, 11373, 1, 593); (11374, 11374, 1, 625);
   (11375, 11375, 1, 592); (11376, 11376, 1, 594); (11378, 11378, 1, 11379);
   (11381, 11381, 1, 11382); (11390, 11391, 1, 575);
   (11392, 11490, 2, 11393); (11499, 11501, 2, 11500);
   (11506, 11506, 1, 11507); (42560, 42604, 2, 42561);
   (42624, 42650, 2, 42625); (42786, 42798, 2, 42787);
   (42802, 42862, 2, 42803); (42873, 42875, 2, 42874);
   (42877, 42877, 1, 7545); (42878, 42886, 2, 42879);
   (42891, 42891, 1, 42892); (42893, 42893, 1, 613);
   (42896, 42898, 2, 42897); (42902, 42920, 2, 42903);
   (42922, 42922, 1, 614); (42923, 42923, 1, 604); (42924, 42924, 1, 609);
   (42925, 42925, 1, 620); (42926, 42926, 1, 618); (42928, 42928, 1, 670);
   (42929, 42929, 1, 647); (42930, 42930, 1, 669); (42931, 42931, 1, 43859);
   (42932, 42946, 2, 42933); (42948, 42948, 1, 42900);
   (42949, 42949, 1, 642); (42950, 42950, 1, 7566); (42951, 42953, 2, 42952);
   (42960, 42960, 1, 42961); (42966, 42968, 2, 42967);
   (42997, 42997, 1, 42998); (65313, 65338, 1, 65345);
   (66560, 66599, 1, 66600); (66736, 66771, 1, 66776);
   (66928, 66938, 1, 66967); (66940, 66954, 1, 66979);
   (66956, 66962, 1, 66995); (66964, 66965, 1, 67003);
   (68736, 68786, 1, 68800); (71840, 71871, 1, 71872);
   (93760, 93791, 1, 93792); (125184, 125217, 1, 125218)]%N.

Fixpoint lowerIn (table : list (N * N * N * N)) (r : N) : N :=
  match table with
  | [] => r
  | (lo, hi, stride, lower) :: rest =>
      if ((lo <=? r) && (r <=? hi) && ((r - lo) mod stride =? 0))%N
      then (lower + (r - lo))%N
      else lowerIn rest r
  end.

(** [unicode.ToLower] *)
Definition ToLower (r : N) : N :=
  if (r <=? 127)%N
  then (if (65 <=? r) && (r <=? 90) then r + 32 else r)%N
  else lowerIn lowerCase r.

End GoUnicode.

(** ** Go's [strings] package, as far as the client uses it *)

Module GoStrings.

Definition len (s : string) : Z := Z.of_nat (String.length s).

Definition byte (c : ascii) : N := N_of_ascii c.

Fixpoint rev (s : string) : string :=
  match s with
  | EmptyString => EmptyString
  | String c t => rev t +:+ String c EmptyString
  end.

Fixpoint take (n : nat) (s : string) : string :=
  match n, s with
  | S k, String c t => String c (take k t)
  | _, _ => EmptyString
  end.

Fixpoint drop (n : nat) (s : string) : string :=
  match n, s with
  | S k, String _ t => drop k t
  | _, _ => s
  end.

(** [s[:n]] and [s[n:]] panic in Go when [n] is outside [0 .. len s]. *)
Definition sliceTo (s : string) (n : Z) : option string :=
  if (0 <=? n) && (n <=? len s) then Some (take (Z.to_nat n) s) else None.

Definition sliceFrom (s : string) (n : Z) : option string :=
  if (0 <=? n) && (n <=? len s) then Some (drop (Z.to_nat n) s) else None.

(** [l[i]] on a slice and [s[i]] on a string panic unless
    [0 <= i < len]. *)
Definition index {A} (l : list A) (i : Z) : option A :=
  if (0 <=? i) then l !! Z.to_nat i else None.

Definition byteAt (s : string) (i : Z) : option ascii :=
  if (0 <=? i) then String.get (Z.to_nat i) s else None.

(** A loop over a slice that threads the variables it assigns; [None]
    is a run-time panic in the body. *)
Fixpoint forEach {A St} (body : St -> A -> option St) (l : list A) (st : St)
  : option St :=
  match l with
  | [] => Some st
  | x :: rest =>
      match body st x with
      | Some st' => forEach body rest st'
      | None => None
      end
  end.

Fixpoint HasPrefix (s prefix : string) : bool :=
  match prefix, s with
  | EmptyString, _ => true
  | String p ps, String c cs => Ascii.eqb c p && HasPrefix cs ps
  | String _ _, EmptyString => false
  end.

Definition HasSuffix (s suffix : string) : bool :=
  HasPrefix (rev s) (rev suffix).

Definition TrimPrefix (s prefix : string) : string :=
  if HasPrefix s prefix then drop (String.length prefix) s else s.

Definition TrimSuffix (s suffix : string) : string :=
  if HasSuffix s suffix
  then take (String.length s - String.length suffix) s else s.

Fixpoint Contains (s substr : string) : bool :=
  HasPrefix s substr ||
  match s with
  | EmptyString => false
  | String _ t => Contains t substr
  end.

(** First occurrence of [substr] at or after offset [i] of the string
    whose remainder is [s]; [-1] when there is none. *)
Fixpoint indexFrom (substr s : string) (i : Z) : Z :=
  if HasPrefix s substr then i
  else match s with
       | EmptyString => -1
       | String _ t => indexFrom substr t (i + 1)
       end.

Definition Index (s substr : string) : Z := indexFrom substr s 0.

(** Last occurrence: the scan keeps the latest offset seen so far. *)
Fixpoint lastIndexFrom (substr s : string) (i last : Z) : Z :=
  let last' := if HasPrefix s substr then i else last in
  match s with
  | EmptyString => last'
  | String _ t => lastIndexFrom substr t (i + 1) last'
  end.

Definition LastIndex (s substr : string) : Z := lastIndexFrom substr s 0 (-1).

(** Cutting a string at the successive, non-overlapping separators that
    [sep] recognises at the head of the remaining input ([sep s] is the
    byte length of the separator [s] starts with).  [skip] bytes of a
    recognised separator are still to be passed over.  The head of the
    result is the piece under construction. *)
Fixpoint splitWith (sep : string -> option nat) (skip : nat) (s : string)
  : list string :=
  match s with
  | EmptyString => [EmptyString]
  | String c t =>
      match skip with
      | S k => splitWith sep k t
      | O =>
          match sep s with
          | Some (S k) => EmptyString :: splitWith sep k t
          | _ =>
              match splitWith sep O t with
              | p :: ps => String c p :: ps
              | [] => [String c EmptyString]
              end
          end
      end
  end.

Definition literal (sep : string) (s : string) : option nat :=
  if HasPrefix s sep then Some (String.length sep) else None.

(** [strings.Split(s, sep)] for a non-empty [sep], the only use the
    client makes of it. *)
Definition Split (s sep : string) : list string :=
  splitWith (literal sep) O s.

(** [strings.SplitN(s, sep, 2)] for a non-empty [sep]. *)
Definition SplitN2 (s sep : string) : list string :=
  let i := Index s sep in
  if i <? 0 then [s]
  else [take (Z.to_nat i) s; drop (Z.to_nat i + String.length sep) s].

Fixpoint Join (elems : list string) (sep : string) : string :=
  match elems with
  | [] => EmptyString
  | [e] => e
  | e :: rest => e +:+ sep +:+ Join rest sep
  end.

(** [strings.ReplaceAll(s, old, new)] for a non-empty [old]. *)
Definition ReplaceAll (s old new : string) : string :=
  Join (Split s old) new.

(** [strings.Replace(s, old, new, 1)] for a non-empty [old]. *)
Definition ReplaceFirst (s old new : string) : string :=
  let i := Index s old in
  if i <? 0 then s
  else take (Z.to_nat i) s +:+ new +:+ drop (Z.to_nat i + String.length old) s.

(** White space in the sense of [unicode.IsSpace], on the UTF-8 bytes:
    the six ASCII spaces, U+0085, U+00A0, U+1680, U+2000..U+200A, U+2028,
    U+2029, U+202F, U+205F and U+3000. *)
Definition asciiSpace (a : N) : bool :=
  ((9 <=? a) && (a <=? 13) || (a =? 32))%N.

Definition space2 (a b : N) : bool :=
  ((a =? 194) && ((b =? 133) || (b =? 160)))%N.

Definition space3 (a b c : N) : bool :=
  ((a =? 225) && (b =? 154) && (c =? 128)
   || (a =? 226) && (b =? 128)
      && ((128 <=? c) && (c <=? 138) || (c =? 168) || (c =? 169) || (c =? 175))
   || (a =? 226) && (b =? 129) && (c =? 159)
   || (a =? 227) && (b =? 128) && (c =? 128))%N.

(** Byte length of the white-space rune [s] starts with, [0] if none. *)
Definition spaceAtHead (s : string) : nat :=
  match s with
  | String a t =>
      if asciiSpace (byte a) then 1%nat
      else match t with
           | String b t' =>
               if space2 (byte a) (byte b) then 2%nat
               else match t' with
                    | String c _ =>
                        if space3 (byte a) (byte b) (byte c) then 3%nat else 0%nat
                    | EmptyString => 0%nat
                    end
           | EmptyString => 0%nat
           end
  | EmptyString => 0%nat
  end.

(** The same for the rune a string ends with, read on the reversed
    string. *)
Definition spaceAtEnd (r : string) : nat :=
  match r with
  | String a t =>
      if asciiSpace (byte a) then 1%nat
      else match t with
           | String b t' =>
               if space2 (byte b) (byte a) then 2%nat
               else match t' with
                    | String c _ =>
                        if space3 (byte c) (byte b) (byte a) then 3%nat else 0%nat
                    | EmptyString => 0%nat
                    end
           | EmptyString => 0%nat
           end
  | EmptyString => 0%nat
  end.

Fixpoint trimWhile (rune : string -> nat) (skip : nat) (s : string) : string :=
  match s with
  | EmptyString => EmptyString
  | String _ t =>
      match skip with
      | S k => trimWhile rune k t
      | O => match rune s with
             | S k => trimWhile rune k t
             | O => s
             end
      end
  end.

Definition TrimSpace (s : string) : string :=
  rev (trimWhile spaceAtEnd O (rev (trimWhile spaceAtHead O s))).

(** [strings.Trim(s, cutset)] for a cutset of ASCII bytes. *)
Fixpoint trimLeftBytes (cutset : string) (s : string) : string :=
  match s with
  | EmptyString => EmptyString
  | String c t =>
      if Contains cutset (String c EmptyString) then trimLeftBytes cutset t else s
  end.

Definition Trim (s cutset : string) : string :=
  rev (trimLeftBytes cutset (rev (trimLeftBytes cutset s))).

(** [c += 'a' - 'A'] for the letters [A]..[Z]; every other byte is
    kept. *)
Definition lowerByte (c : ascii) : ascii :=
  let n := byte c in
  if ((65 <=? n) && (n <=? 90))%N then ascii_of_N (n + 32) else c.

(** Every byte is below [utf8.RuneSelf]. *)
Fixpoint isASCII (s : string) : bool :=
  match s with
  | EmptyString => true
  | String c t => (byte c <? 128)%N && isASCII t
  end.

Fixpoint lowerASCII (s : string) : string :=
  match s with
  | EmptyString => EmptyString
  | String c t => String (lowerByte c) (lowerASCII t)
  end.

(** [strings.Map(mapping, s)] for a [mapping] that drops no rune: the
    runes of [s], mapped and encoded again.  A byte that is no valid
    encoding is read as [RuneError] and so written as the three bytes of
    U+FFFD.  (Go returns [s] itself when no rune changes and all are
    valid; their encodings are then the bytes of [s].) *)
Definition Map (mapping : N -> N) (s : string) : string :=
  fold_right (fun r out => GoUTF8.EncodeRune (mapping r) +:+ out) EmptyString
    (GoUTF8.runes s).

(** [strings.ToLower]: byte by byte on an ASCII string, rune by rune
    through [unicode.ToLower] otherwise; the result of the second can be
    shorter or longer than [s] in bytes. *)
Definition ToLower (s : string) : string :=
  if isASCII s then lowerASCII s else Map GoUnicode.ToLower s.

End GoStrings.

(** ** Go's [regexp], for the patterns of the client

    A backtracking matcher with ordered choice: the match Go reports is the
    leftmost one, and among those the one backtracking finds first.  Every
    repetition in the client's patterns is over a one-byte class. *)

Module GoRegexp.
Import GoStrings.

Inductive regex : Type :=
| Class (p : ascii -> bool)
| Bytes (b : string)
| Cat (r1 r2 : regex)
| Alt (r1 r2 : regex)
| Star (greedy : bool) (p : ascii -> bool)
| Group (r : regex)
| EndText.

(** What is left of the input, to the first capture group and the input
    left after the whole match. *)
Definition cont : Type := string -> option (string * string).

Fixpoint starGreedy (p : ascii -> bool) (s : string) (k : cont)
  : option (string * string) :=
  match s with
  | String c t =>
      if p c
      then match starGreedy p t k with
           | Some m => Some m
           | None => k s
           end
      else k s
  | EmptyString => k s
  end.

Fixpoint starLazy (p : ascii -> bool) (s : string) (k : cont)
  : option (string * string) :=
  match k s with
  | Some m => Some m
  | None =>
      match s with
      | String c t => if p c then starLazy p t k else None
      | EmptyString => None
      end
  end.

Fixpoint matchAt (r : regex) (s : string) (k : cont) : option (string * string) :=
  match r with
  | Class p =>
      match s with
      | String c t => if p c then k t else None
      | EmptyString => None
      end
  | Bytes b => if HasPrefix s b then k (drop (String.length b) s) else None
  | Cat r1 r2 => matchAt r1 s (fun s' => matchAt r2 s' k)
  | Alt r1 r2 =>
      match matchAt r1 s k with
      | Some m => Some m
      | None => matchAt r2 s k
      end
  | Star greedy p => if greedy then starGreedy p s k else starLazy p s k
  | Group r1 =>
      matchAt r1 s (fun s' =>
        match k s' with
        | Some (_, rest) => Some (take (String.length s - String.length s') s, rest)
        | None => None
        end)
  | EndText =>
      match s with
      | EmptyString => k s
      | String _ _ => None
      end
  end.

Definition matchHead (r : regex) (s : string) : option (string * string) :=
  matchAt r s (fun rest => Some (EmptyString, rest)).

(** Byte length of the match of [r] at the head of [s]. *)
Definition matchLength (r : regex) (s : string) : option nat :=
  match matchHead r s with
  | Some (_, rest) => Some (String.length s - String.length rest)%nat
  | None => None
  end.

(** [re.FindStringSubmatch(s)] for a pattern with one capture group:
    the leftmost match and its group, the empty slice for Go's [nil]. *)
Fixpoint FindStringSubmatch (r : regex) (s : string) : list string :=
  match matchHead r s with
  | Some (g, rest) => [take (String.length s - String.length rest) s; g]
  | None =>
      match s with
      | String _ t => FindStringSubmatch r t
      | EmptyString => []
      end
  end.

Fixpoint MatchString (r : regex) (s : string) : bool :=
  match matchHead r s with
  | Some _ => true
  | None =>
      match s with
      | String _ t => MatchString r t
      | EmptyString => false
      end
  end.

(** [re.Split(s, -1)] for a pattern that matches no empty string. *)
Definition Split (r : regex) (s : string) : list string :=
  splitWith (matchLength r) O s.

(** [re.ReplaceAllString(s, repl)] for such a pattern and a replacement
    without [$]. *)
Definition ReplaceAllString (r : regex) (s repl : string) : string :=
  Join (Split r s) repl.

(** Character classes of RE2: [\s] and [\d] are ASCII only. *)
Definition space (c : ascii) : bool :=
  let n := byte c in
  ((n =? 9) || (n =? 10) || (n =? 12) || (n =? 13) || (n =? 32))%N.

Definition digit (c : ascii) : bool :=
  let n := byte c in ((48 <=? n) && (n <=? 57))%N.

Definition anyButNewline (c : ascii) : bool := negb (byte c =? 10)%N.

Definition isNot (x : ascii) (c : ascii) : bool := negb (Ascii.eqb c x).

Definition plus (p : ascii -> bool) : regex := Cat (Class p) (Star true p).

(** A literal under [(?i)]: a letter matches both of its cases, and
    [s] and [k] also match the two runes that fold to them, U+017F
    (bytes C5 BF) and U+212A (bytes E2 84 AA). *)
Definition longS : string :=
  String (ascii_of_N 197) (String (ascii_of_N 191) EmptyString).

Definition kelvin : string :=
  String (ascii_of_N 226) (String (ascii_of_N 132) (String (ascii_of_N 170) EmptyString)).

Definition foldByte (c : ascii) : regex :=
  let l := lowerByte c in
  let n := byte l in
  if ((97 <=? n) && (n <=? 122))%N then
    let both := Class (fun x => Ascii.eqb (lowerByte x) l) in
    if (n =? 115)%N then Alt both (Bytes longS)
    else if (n =? 107)%N then Alt both (Bytes kelvin)
    else both
  else Class (Ascii.eqb c).

Fixpoint foldLit (s : string) : regex :=
  match s with
  | EmptyString => Bytes EmptyString
  | String c EmptyString => foldByte c
  | String c t => Cat (foldByte c) (foldLit t)
  end.

(** [re.FindAllSubmatch(b, -1)] for a pattern with one capture group
    that matches no empty string: the successive non-overlapping matches
    from left to right, each with its group.  [skip] bytes of the match
    found last are still to be passed over. *)
Fixpoint FindAllSubmatch (r : regex) (skip : nat) (s : string)
  : list (list string) :=
  match s with
  | EmptyString => []
  | String _ t =>
      match skip with
      | S k => FindAllSubmatch r k t
      | O =>
          match matchHead r s with
          | Some (g, rest) =>
              [take (String.length s - String.length rest) s; g]
              :: FindAllSubmatch r (String.length s - String.length rest - 1) t
          | None => FindAllSubmatch r O t
          end
      end
  end.

End GoRegexp.

(** ** Go's [strconv.Atoi], on a 64-bit platform *)

Module GoStrconv.
Import GoStrings.

Fixpoint digits (s : string) (acc : Z) : option Z :=
  match s with
  | EmptyString => Some acc
  | String c t =>
      if GoRegexp.digit c
      then digits t (10 * acc + (Z.of_N (byte c) - 48))
      else None
  end.

(** An optional sign, then one decimal digit or more; [None] is the
    error, for a syntax error and for a value outside [int]. *)
Definition Atoi (s : string) : option Z :=
  let '(negative, body) :=
    match s with
    | String "+" t => (false, t)
    | String "-" t => (true, t)
    | _ => (false, s)
    end in
  if String.eqb body EmptyString then None
  else
    n ← digits body 0;
    let n := if negative then - n else n in
    if (- 2 ^ 63 <=? n) && (n <=? 2 ^ 63 - 1) then Some n else None.

End GoStrconv.

(** ** Go's [url.PathEscape] *)

Module GoURL.
Import GoStrings.

Definition upperhex : string := "0123456789ABCDEF".

(** [upperhex[n]], for [n] below 16. *)
Definition hexDigit (n : N) : ascii :=
  match String.get (N.to_nat n) upperhex with
  | Some c => c
  | None => "0"%char
  end.

Definition oneOf (set : string) (c : ascii) : bool :=
  Contains set (String c EmptyString).

(** [shouldEscape(c, encodePathSegment)]: letters, digits and the marks
    [-_.~] stay; of the reserved bytes [/ ; , ?] are escaped; every
    other byte is. *)
Definition shouldEscape (c : ascii) : bool :=
  let n := byte c in
  if ((97 <=? n) && (n <=? 122) || (65 <=? n) && (n <=? 90)
      || (48 <=? n) && (n <=? 57))%N then false
  else if oneOf "-_.~" c then false
  else if oneOf "$&+,/:;=?@" c then oneOf "/;,?" c
  else true.

Fixpoint PathEscape (s : string) : string :=
  match s with
  | EmptyString => EmptyString
  | String c t =>
      if shouldEscape c
      then String "%" (String (hexDigit (byte c / 16))
                         (String (hexDigit (byte c mod 16)) (PathEscape t)))
      else String c (PathEscape t)
  end.

End GoURL.

(** ** [pkg/models]: the record *)

(** [float64(id)] for a Go [int] of magnitude below 2^63: the nearest
    binary64 number. *)
Definition float64_of_int (z : Z) : float :=
  if 0 <=? z then PrimFloat.of_uint63 (Uint63.of_Z z)
  else PrimFloat.opp (PrimFloat.of_uint63 (Uint63.of_Z (- z))).

Record Profile : Type := mkProfile {
  Name : string;
  URL : string;
  Verdict : string;
  Description : string;
  Pros : list string;
  Cons : list string;
  Score : float;
  Category : string;
  ImageURL : string;
  CreatedAt : string;
  UpdatedAt : string
}.

Definition setName (v : string) (p : Profile) : Profile :=
  mkProfile v (URL p) (Verdict p) (Description p) (Pros p) (Cons p) (Score p)
    (Category p) (ImageURL p) (CreatedAt p) (UpdatedAt p).

Definition setVerdict (v : string) (p : Profile) : Profile :=
  mkProfile (Name p) (URL p) v (Description p) (Pros p) (Cons p) (Score p)
    (Category p) (ImageURL p) (CreatedAt p) (UpdatedAt p).

Definition setDescription (v : string) (p : Profile) : Profile :=
  mkProfile (Name p) (URL p) (Verdict p) v (Pros p) (Cons p) (Score p)
    (Category p) (ImageURL p) (CreatedAt p) (UpdatedAt p).

Definition setPros (v : list string) (p : Profile) : Profile :=
  mkProfile (Name p) (URL p) (Verdict p) (Description p) v (Cons p) (Score p)
    (Category p) (ImageURL p) (CreatedAt p) (UpdatedAt p).

Definition setCons (v : list string) (p : Profile) : Profile :=
  mkProfile (Name p) (URL p) (Verdict p) (Description p) (Pros p) v (Score p)
    (Category p) (ImageURL p) (CreatedAt p) (UpdatedAt p).

Definition setCategory (v : string) (p : Profile) : Profile :=
  mkProfile (Name p) (URL p) (Verdict p) (Description p) (Pros p) (Cons p) (Score p)
    v (ImageURL p) (CreatedAt p) (UpdatedAt p).

Definition setImageURL (v : string) (p : Profile) : Profile :=
  mkProfile (Name p) (URL p) (Verdict p) (Description p) (Pros p) (Cons p) (Score p)
    (Category p) v (CreatedAt p) (UpdatedAt p).

Definition setCreatedAt (v : string) (p : Profile) : Profile :=
  mkProfile (Name p) (URL p) (Verdict p) (Description p) (Pros p) (Cons p) (Score p)
    (Category p) (ImageURL p) v (UpdatedAt p).

Definition setUpdatedAt (v : string) (p : Profile) : Profile :=
  mkProfile (Name p) (URL p) (Verdict p) (Description p) (Pros p) (Cons p) (Score p)
    (Category p) (ImageURL p) (CreatedAt p) v.

(** ** [pkg/client]: helpers and the list splitter *)

Module Client.
Import GoStrings.

Definition nonEmpty (s : string) : bool := negb (String.eqb s EmptyString).

(** [contains(slice, str)] *)
Fixpoint contains (slice : list string) (str : string) : bool :=
  match slice with
  | [] => false
  | item :: rest => String.eqb item str || contains rest str
  end.

(** [for _, x := range xs { x = TrimSpace(x); if keep(x) { items = append(items, x) } }] *)
Definition appendTrimmed (keep : string -> bool) (xs items : list string)
  : list string :=
  fold_left (fun items x =>
               let x := TrimSpace x in
               if keep x then (items ++ [x])%list else items) xs items.

Definition bullets : list string :=
  ["•"; "-"; "★"; "✓"; "✔"; "*"; "→"; "⇒"; "⟹"; "⇾"; "⟶"].

(** [(\d+\.\s+)] *)
Definition numberRegex : GoRegexp.regex :=
  GoRegexp.Group
    (GoRegexp.Cat (GoRegexp.plus GoRegexp.digit)
       (GoRegexp.Cat (GoRegexp.Bytes ".") (GoRegexp.plus GoRegexp.space))).

(** The first loop of [splitByBullets]: the first bullet of the list that
    occurs in the text splits it; [None] when [hasBullets] stays false. *)
Definition splitOnBullet (text : string) : option (list string) :=
  match List.find (Contains text) bullets with
  | Some bullet => Some (appendTrimmed nonEmpty (Split text bullet) [])
  | None => None
  end.

(** The inner loop of the newline branch: a leading bullet is cut off. *)
Definition stripBullet (line : string) : string :=
  match List.find (HasPrefix line) bullets with
  | Some bullet => TrimSpace (TrimPrefix line bullet)
  | None => line
  end.

Definition splitOnNewlines (text : string) (items : list string) : list string :=
  fold_left (fun items line =>
               let line := stripBullet (TrimSpace line) in
               if nonEmpty line && (2 <? len line) then (items ++ [line])%list else items)
    (Split text (String (ascii_of_N 10) EmptyString)) items.

Definition splitOnNumbers (text : string) (items : list string) : list string :=
  if GoRegexp.MatchString numberRegex text
  then appendTrimmed (fun part => nonEmpty part && (2 <? len part))
         (GoRegexp.Split numberRegex text) items
  else items.

Definition isUpper (c : ascii) : bool :=
  ((65 <=? byte c) && (byte c <=? 90))%N.

(** The sentence branch reads [part[0]], which panics on an empty
    string. *)
Definition splitOnSentences (text : string) (items : list string)
  : option (list string) :=
  let parts := Split text ". " in
  if 1 <? Z.of_nat (length parts) then
    forEach (fun items part =>
               let part := TrimSpace part in
               if nonEmpty part && (10 <? len part) then
                 if 20 <? len part then
                   match byteAt part 0 with
                   | Some c =>
                       Some (items ++ [if isUpper c then part +:+ "." else part])%list
                   | None => None
                   end
                 else Some (items ++ [part])%list
               else Some items) parts items
  else
    Some (appendTrimmed (fun part => nonEmpty part && (5 <? len part))
            (Split text "; ") items).

(** The pieces of the text, before the final pass. *)
Definition splitPieces (text : string) : option (list string) :=
  let items : list string := [] in
  let hasBullets := splitOnBullet text in
  let items := match hasBullets with Some parts => parts | None => items end in
  let items :=
    if negb (bool_decide (is_Some hasBullets))
       && Contains text (String (ascii_of_N 10) EmptyString)
    then splitOnNewlines text items else items in
  let items :=
    if bool_decide (items = []) then splitOnNumbers text items else items in
  match
    (if bool_decide (items = []) && (15 <? len text)
        && (Contains text ". " || Contains text "; ")
     then splitOnSentences text items else Some items)
  with
  | Some items => Some (if bool_decide (items = []) then (items ++ [text])%list else items)
  | None => None
  end.

(** The final pass: short items and items already seen are skipped. *)
Definition cleanStep (st : list string * gset string) (item : string)
  : list string * gset string :=
  let '(cleanItems, seen) := st in
  let item := TrimSpace item in
  if String.eqb item EmptyString || (len item <? 3) then st
  else if bool_decide (item ∈ seen) then st
  else ((cleanItems ++ [item])%list, {[item]} ∪ seen).

Definition cleanUp (items : list string) : list string :=
  fst (fold_left cleanStep items ([], ∅)).

Definition splitByBullets (text : string) : option (list string) :=
  let text := TrimSpace text in
  match splitPieces text with
  | Some items => Some (cleanUp items)
  | None => None
  end.


(** ** The document, as the extractor reads it

    The extractor reaches the parsed page only through the goquery
    selections below; a document is given by what they return.  [Text()]
    of a selection is the concatenated text of its nodes, [Attr] is read
    on the first node and is [None] when the attribute (or the node) is
    missing. *)
Record Document : Type := mkDocument {
  (** [doc.Find("title").Text()] *)
  title : string;
  (** [Text()] of each [h1] *)
  h1 : list string;
  (** [doc.Find("meta[name=description]").Attr("content")] *)
  metaDescription : option string;
  (** each of ["font, div, b, p"]: [Text()], and [Parent().Text()] when
      the parent selection is not empty *)
  verdictNodes : list (string * option string);
  (** [doc.Find("img[src*='img/']").Attr("src")] *)
  imgDirSrc : option string;
  (** [Text()] of [doc.Find("div#profileBody, #profileBody").First()],
      [None] when its [Length()] is 0 *)
  profileBody : option string;
  (** [Text()] of each of
      ["td[valign=top] font, div.profile-description, p.description, td font"] *)
  descriptionNodes : list string;
  (** [Text()] of each of ["table td"] *)
  tableCells : list string;
  (** [doc.Html()], [None] for an error *)
  Html : option string;
  (** [Text()] of each of ["div, td, span, p, font"] *)
  sectionNodes : list string;
  (** each of ["li, ul li"]: [Text()], and [Text()] of
      [ParentsFiltered("div, td, ul").First()] *)
  listItems : list (string * string);
  (** [Text()] of each of ["td font, span, div, p, strong, b, h3"] *)
  categoryNodes : list string;
  (** [doc.Find("meta[name=keywords]").Attr("content")] *)
  metaKeywords : option string;
  (** [doc.Find("meta[property='og:image']").Attr("content")] *)
  ogImage : option string;
  (** [doc.Find("link[rel='image_src']").Attr("href")] *)
  imageSrc : option string;
  (** [Attr("src")] of each [img] *)
  imgSrcs : list (option string)
}.

Definition LF : string := String (ascii_of_N 10) EmptyString.
Definition CR : string := String (ascii_of_N 13) EmptyString.

(** *** Name *)

Definition nameFromTitle (doc : Document) (profile : Profile) : option Profile :=
  if nonEmpty (title doc) then
    let parts := Split (title doc) " - " in
    if 0 <? Z.of_nat (length parts) then
      part0 ← index parts 0;
      let name := TrimSpace part0 in
      let name := TrimPrefix name "Jew or Not Jew: " in
      Some (setName name profile)
    else Some profile
  else Some profile.

Definition nameFromH1 (doc : Document) (profile : Profile) : Profile :=
  if String.eqb (Name profile) EmptyString then
    fold_left (fun profile text =>
                 let name := TrimSpace text in
                 if nonEmpty name then setName name profile else profile)
      (h1 doc) profile
  else profile.

(** *** Verdict *)

(** The meta description rule: the last word without its period. *)
Definition verdictFromMeta (doc : Document) : option string :=
  match metaDescription doc with
  | Some metaDesc =>
      if nonEmpty metaDesc then
        let metaDesc := TrimSpace metaDesc in
        if Contains metaDesc "is " && HasSuffix metaDesc "." then
          let words := Split metaDesc " " in
          if 2 <? Z.of_nat (length words) then
            lastWord ← index words (Z.of_nat (length words) - 1);
            let lastWord := TrimSuffix lastWord "." in
            if String.eqb lastWord "Jew" || String.eqb lastWord "Jewish"
            then Some "Jew"
            else if Contains lastWord "Not" then Some "Not a Jew"
            else Some EmptyString
          else Some EmptyString
        else Some EmptyString
      else Some EmptyString
  | None => Some EmptyString
  end.

(** The body of the [Each] over ["font, div, b, p"]. *)
Definition verdictFromNode (verdictText : string) (node : string * option string)
  : option string :=
  let text := TrimSpace (fst node) in
  let lcText := ToLower text in
  if Contains lcText "verdict:" then
    let parts := SplitN2 text ":" in
    if 1 <? Z.of_nat (length parts) then
      part1 ← index parts 1;
      let verdict := TrimSpace part1 in
      Some (if nonEmpty verdict then verdict else verdictText)
    else Some verdictText
  else if Contains lcText "verdict" && (len text <? 30) then
    match snd node with
    | Some parentText =>
        let siblingText := TrimSpace parentText in
        let siblingText := ReplaceFirst siblingText text EmptyString in
        let siblingText := TrimSpace siblingText in
        Some (if nonEmpty siblingText && (len siblingText <? 30)
              then siblingText else verdictText)
    | None => Some verdictText
    end
  else if (String.eqb lcText "jew" || String.eqb lcText "not a jew"
           || String.eqb lcText "barely a jew") && (len text <? 30)
  then Some text
  else Some verdictText.

Definition verdictFromImage (doc : Document) : string :=
  match imgDirSrc doc with
  | Some imageUrl =>
      if nonEmpty imageUrl then
        if Contains imageUrl "verified_jew" then "Jew"
        else if Contains imageUrl "not_a_jew" then "Not a Jew"
        else EmptyString
      else EmptyString
  | None => EmptyString
  end.

Definition extractVerdict (doc : Document) (profile : Profile) : option Profile :=
  verdictText ← verdictFromMeta doc;
  verdictText ← (if String.eqb verdictText EmptyString
                 then forEach verdictFromNode (verdictNodes doc) verdictText
                 else Some verdictText);
  let verdictText :=
    if String.eqb verdictText EmptyString then verdictFromImage doc
    else verdictText in
  Some (if nonEmpty verdictText then setVerdict verdictText profile else profile).

(** *** Description *)

(** The offset at which the text of the body container is cut: the
    offsets [strings.LastIndex] finds in the lower-case copy of the text
    are compared with the length of the text itself, and the least is
    used as an offset of the text. *)
Definition cutIndex (fullText : string) : Z :=
  let verdictIndex := LastIndex (ToLower fullText) "verdict:" in
  let prosIndex := LastIndex (ToLower fullText) "pros:" in
  let consIndex := LastIndex (ToLower fullText) "cons:" in
  let cutIndex := len fullText in
  let cutIndex :=
    if (0 <? verdictIndex) && (verdictIndex <? cutIndex) then verdictIndex
    else cutIndex in
  let cutIndex :=
    if (0 <? prosIndex) && (prosIndex <? cutIndex) then prosIndex else cutIndex in
  let cutIndex :=
    if (0 <? consIndex) && (consIndex <? cutIndex) then consIndex else cutIndex in
  cutIndex.

(** What the body container contributes: [None] inside is "no
    assignment", [None] outside a panic of [fullText[:cutIndex]]. *)
Definition bodyDescription (text : string) : option (option string) :=
  let fullText := TrimSpace text in
  if 50 <? len fullText then
    let fullText := ReplaceAll fullText (CR +:+ LF) LF in
    let fullText := ReplaceAll fullText CR LF in
    let cutIndex := cutIndex fullText in
    fullText ← (if cutIndex <? len fullText then sliceTo fullText cutIndex
                else Some fullText);
    Some (Some (TrimSpace fullText))
  else Some None.

Definition descriptionFromBody (doc : Document) (profile : Profile)
  : option Profile :=
  match profileBody doc with
  | Some text =>
      found ← bodyDescription text;
      Some (match found with
            | Some description => setDescription description profile
            | None => profile
            end)
  | None => Some profile
  end.

Definition hasSectionLabel (lowerText : string) : bool :=
  Contains lowerText "verdict:" || Contains lowerText "pros:"
  || Contains lowerText "cons:".

Definition descriptionFromNodes (doc : Document) (profile : Profile) : Profile :=
  if String.eqb (Description profile) EmptyString
     || (len (Description profile) <? 50)
  then
    fst (fold_left
           (fun (st : Profile * bool) s =>
              let '(profile, descFound) := st in
              if descFound then st
              else
                let text := TrimSpace s in
                let lowerText := ToLower text in
                if negb (Contains lowerText "verdict:")
                   && negb (Contains lowerText "pros:")
                   && negb (Contains lowerText "cons:")
                   && (100 <? len text)
                then (setDescription text profile, true)
                else st)
           (descriptionNodes doc) (profile, false))
  else profile.

Definition descriptionFromMeta (doc : Document) (profile : Profile) : Profile :=
  if String.eqb (Description profile) EmptyString
     || (len (Description profile) <? 30)
  then
    match metaDescription doc with
    | Some metaDesc =>
        if nonEmpty metaDesc && (10 <? len metaDesc) then
          let metaDesc :=
            if HasPrefix metaDesc "JewOrNotJew.com:"
            then TrimSpace (TrimPrefix metaDesc "JewOrNotJew.com:")
            else metaDesc in
          setDescription metaDesc profile
        else profile
    | None => profile
    end
  else profile.

Definition descriptionFromTable (doc : Document) (profile : Profile) : Profile :=
  if String.eqb (Description profile) EmptyString
     || (len (Description profile) <? 100)
  then
    let largestText :=
      fold_left
        (fun largestText s =>
           let text := TrimSpace s in
           let lcText := ToLower text in
           if negb (Contains lcText "verdict:")
              && negb (Contains lcText "pros:")
              && negb (Contains lcText "cons:")
              && (len largestText <? len text)
           then text else largestText)
        (tableCells doc) EmptyString in
    if 100 <? len largestText then setDescription largestText profile
    else profile
  else profile.


(** *** Pros and cons *)

(** [(?i)(?:Pros|PROS|Pros:)[\s\n]*(.*?)(?:Cons|CONS|Cons:|$)] *)
Definition prosRegex : GoRegexp.regex :=
  let r := GoRegexp.Cat in
  let or := GoRegexp.Alt in
  let i := GoRegexp.foldLit in
  r (or (i "Pros") (or (i "PROS") (i "Pros:")))
    (r (GoRegexp.Star true GoRegexp.space)
       (r (GoRegexp.Group (GoRegexp.Star false GoRegexp.anyButNewline))
          (or (i "Cons") (or (i "CONS") (or (i "Cons:") GoRegexp.EndText))))).

(** [(?i)(?:Cons|CONS|Cons:)[\s\n]*] , the group [[^:]*] , then
    [(?:\s*Verdict:|$)] *)
Definition consRegex : GoRegexp.regex :=
  let r := GoRegexp.Cat in
  let or := GoRegexp.Alt in
  let i := GoRegexp.foldLit in
  r (or (i "Cons") (or (i "CONS") (i "Cons:")))
    (r (GoRegexp.Star true GoRegexp.space)
       (r (GoRegexp.Group (GoRegexp.Star true (GoRegexp.isNot ":")))
          (or (r (GoRegexp.Star true GoRegexp.space) (i "Verdict:"))
              GoRegexp.EndText))).

Definition hasMarkup (s : string) : bool :=
  Contains s "&#" || Contains s "&lt;" || Contains s "&gt;" || Contains s "<span".

Definition appendPro (profile : Profile) (pro : string) : Profile :=
  setPros (Pros profile ++ [pro])%list profile.

Definition appendCon (profile : Profile) (con : string) : Profile :=
  setCons (Cons profile ++ [con])%list profile.

(** The variables of the pros and cons extraction. *)
Record Found : Type := mkFound {
  found : Profile;
  prosFound : bool;
  consFound : bool
}.

Definition prosFromRegex (htmlString : string) (st : Found) : option Found :=
  let prosMatches := GoRegexp.FindStringSubmatch prosRegex htmlString in
  if 1 <? Z.of_nat (length prosMatches) then
    prosContent ← index prosMatches 1;
    pros ← splitByBullets prosContent;
    Some (fold_left
            (fun st pro =>
               let pro := TrimSpace pro in
               if nonEmpty pro && (3 <? len pro)
                  && negb (Contains (ToLower pro) "cons:")
               then mkFound (appendPro (found st) pro) true (consFound st)
               else st) pros st)
  else Some st.

Definition consFromRegex (htmlString : string) (st : Found) : option Found :=
  let consMatches := GoRegexp.FindStringSubmatch consRegex htmlString in
  if 1 <? Z.of_nat (length consMatches) then
    consContent ← index consMatches 1;
    if (10 <? len consContent) && (len consContent <? 1000) then
      cons ← splitByBullets consContent;
      Some (fold_left
              (fun st con =>
                 let con := TrimSpace con in
                 if nonEmpty con && (10 <? len con) && negb (Contains con "idered")
                 then
                   if negb (hasMarkup con)
                   then mkFound (appendCon (found st) con) (prosFound st) true
                   else st
                 else st) cons st)
    else Some st
  else Some st.

Definition prosConsFromHtml (doc : Document) (st : Found) : option Found :=
  match Html doc with
  | Some htmlString =>
      st ← prosFromRegex htmlString st;
      consFromRegex htmlString st
  | None => Some st
  end.

(** The body of the [Each] over ["div, td, span, p, font"]. *)
Definition prosFromSection (text lowerText : string) (st : Found) : option Found :=
  if negb (prosFound st)
     && (Contains lowerText "pros:" || HasPrefix lowerText "pros")
  then
    let parts := SplitN2 text ":" in
    prosList ← (if 1 <? Z.of_nat (length parts) then index parts 1
                else Some (TrimPrefix text "Pros"));
    pros ← splitByBullets prosList;
    Some (fold_left
            (fun st pro =>
               let pro := TrimSpace pro in
               if nonEmpty pro && (3 <? len pro)
                  && negb (Contains (ToLower pro) "cons")
               then mkFound (appendPro (found st) pro) true (consFound st)
               else st) pros st)
  else Some st.

Definition consFromSection (text lowerText : string) (st : Found) : option Found :=
  if negb (consFound st)
     && (Contains lowerText "cons:" || HasPrefix lowerText "cons")
  then
    let parts := SplitN2 text ":" in
    consList ← (if 1 <? Z.of_nat (length parts) then index parts 1
                else Some (TrimPrefix text "Cons"));
    cons ← splitByBullets consList;
    Some (fold_left
            (fun st con =>
               let con := TrimSpace con in
               if nonEmpty con && (3 <? len con) then
                 if negb (hasMarkup con)
                 then mkFound (appendCon (found st) con) (prosFound st) true
                 else st
               else st) cons st)
  else Some st.

Definition prosConsFromSection (st : Found) (s : string) : option Found :=
  let text := TrimSpace s in
  let lowerText := ToLower text in
  st ← prosFromSection text lowerText st;
  consFromSection text lowerText st.

Definition extractProsCons (doc : Document) (profile : Profile) : option Profile :=
  st ← prosConsFromHtml doc (mkFound profile false false);
  st ← (if negb (prosFound st) || negb (consFound st)
        then forEach prosConsFromSection (sectionNodes doc) st
        else Some st);
  Some (found st).

(** The [Each] over ["li, ul li"]. *)
Definition prosConsFromList (doc : Document) (profile : Profile) : Profile :=
  fold_left
    (fun profile (item : string * string) =>
       let text := TrimSpace (fst item) in
       if nonEmpty text && (3 <? len text) then
         let parentText := ToLower (snd item) in
         if Contains parentText "pros" && negb (Contains (ToLower text) "cons:")
         then
           if negb (contains (Pros profile) text) then appendPro profile text
           else profile
         else if Contains parentText "cons" then
           if negb (contains (Cons profile) text) && negb (hasMarkup text)
           then appendCon profile text
           else profile
         else profile
       else profile)
    (listItems doc) profile.

(** *** Category *)

Definition QUOTE : string := String (ascii_of_N 34) EmptyString.

(** [<[^>]*>] and [\s+] *)
Definition tagRegex : GoRegexp.regex :=
  GoRegexp.Cat (GoRegexp.Bytes "<")
    (GoRegexp.Cat (GoRegexp.Star true (GoRegexp.isNot ">")) (GoRegexp.Bytes ">")).

Definition spaceRegex : GoRegexp.regex := GoRegexp.plus GoRegexp.space.

Definition cleanHTML (input : string) : string :=
  let withoutTags := GoRegexp.ReplaceAllString tagRegex input EmptyString in
  let withoutTags := ReplaceAll withoutTags "&nbsp;" " " in
  let withoutTags := ReplaceAll withoutTags (CR +:+ LF) " " in
  let withoutTags := ReplaceAll withoutTags LF " " in
  let withoutTags := ReplaceAll withoutTags "&amp;" "&" in
  let withoutTags := ReplaceAll withoutTags "&lt;" "<" in
  let withoutTags := ReplaceAll withoutTags "&gt;" ">" in
  let withoutTags := ReplaceAll withoutTags "&quot;" QUOTE in
  let withoutTags := ReplaceAll withoutTags "&#39;" "'" in
  let withoutTags := ReplaceAll withoutTags "&#34;" QUOTE in
  let withoutTags := GoRegexp.ReplaceAllString spaceRegex withoutTags " " in
  TrimSpace withoutTags.

Definition categoryFromParts (parts : list string) (profile : Profile)
  : option Profile :=
  if 1 <? Z.of_nat (length parts) then
    part1 ← index parts 1;
    let category := TrimSpace part1 in
    let category := cleanHTML category in
    let category := Trim category "." in
    Some (if nonEmpty category then setCategory category profile else profile)
  else Some profile.

(** The body of the [Each] over ["td font, span, div, p, strong, b, h3"]. *)
Definition categoryFromNode (profile : Profile) (s : string) : option Profile :=
  let text := TrimSpace s in
  if Contains text "Category:" then
    categoryFromParts (SplitN2 text "Category:") profile
  else if HasPrefix text "Category" then
    categoryFromParts (SplitN2 text " ") profile
  else Some profile.

Definition categories : list string :=
  ["Actor"; "Actress"; "Entertainment"; "Politics"; "Sports"; "Music";
   "Science"; "Business"; "Religion"; "History"; "Art"; "Literature";
   "Media"; "Academia"; "Military"; "Fashion"; "Technology"; "Comedy";
   "Royalty"; "Film"; "Television"].

Fixpoint categoryFromKeywords (keywordsList : list string) (profile : Profile)
  : Profile :=
  match keywordsList with
  | [] => profile
  | keyword :: rest =>
      let keyword := TrimSpace keyword in
      let profile :=
        match List.find (fun cat => Contains (ToLower keyword) (ToLower cat))
                categories with
        | Some cat => setCategory cat profile
        | None => profile
        end in
      if nonEmpty (Category profile) then profile
      else categoryFromKeywords rest profile
  end.

(** The table [categoryClues], in the order of the source.  Go ranges
    over a map in an order of the run time's choosing: the extractor
    takes that order as its argument [clueOrder]. *)
Definition categoryClues : list (string * string) :=
  [("actor", "Entertainment"); ("actress", "Entertainment");
   ("movie", "Entertainment"); ("film", "Entertainment");
   ("directed", "Entertainment"); ("singer", "Music"); ("musician", "Music");
   ("album", "Music"); ("song", "Music"); ("band", "Music");
   ("political", "Politics"); ("politician", "Politics");
   ("president", "Politics"); ("senator", "Politics");
   ("parliament", "Politics"); ("scientist", "Science");
   ("researcher", "Science"); ("professor", "Academia");
   ("author", "Literature"); ("writer", "Literature"); ("book", "Literature");
   ("athlete", "Sports"); ("player", "Sports"); ("baseball", "Sports");
   ("football", "Sports"); ("basketball", "Sports"); ("soccer", "Sports");
   ("tennis", "Sports"); ("religious", "Religion"); ("rabbi", "Religion");
   ("priest", "Religion"); ("businessman", "Business");
   ("entrepreneur", "Business"); ("company", "Business"); ("CEO", "Business");
   ("comedian", "Comedy"); ("comedy", "Comedy")].

Definition categoryFromDescription (clueOrder : list (string * string))
    (profile : Profile) : Profile :=
  if String.eqb (Category profile) EmptyString && nonEmpty (Description profile)
  then
    let lowerDesc := ToLower (Description profile) in
    match List.find (fun clue => Contains lowerDesc (fst clue)) clueOrder with
    | Some clue => setCategory (snd clue) profile
    | None => profile
    end
  else profile.

Definition inferCategory (clueOrder : list (string * string)) (doc : Document)
    (profile : Profile) : Profile :=
  if String.eqb (Category profile) EmptyString then
    let profile :=
      match metaKeywords doc with
      | Some keywords =>
          if nonEmpty keywords
          then categoryFromKeywords (Split keywords ",") profile
          else profile
      | None => profile
      end in
    categoryFromDescription clueOrder profile
  else profile.

(** *** Image reference *)

Definition absolute (baseURL ref : string) : string :=
  if negb (HasPrefix ref "http") then
    if negb (HasPrefix ref "/") then baseURL +:+ "/" +:+ ref
    else baseURL +:+ ref
  else ref.

Definition imageFromAttr (baseURL : string) (attr : option string)
    (profile : Profile) : Profile :=
  match attr with
  | Some ref =>
      if nonEmpty ref then setImageURL (absolute baseURL ref) profile
      else profile
  | None => profile
  end.

Definition isProfileImage (src : string) : bool :=
  Contains (ToLower src) "people" || Contains (ToLower src) "img"
  || Contains (ToLower src) "images".

Definition imageFromImgs (baseURL : string) (doc : Document) (profile : Profile)
  : Profile :=
  fold_left
    (fun profile (attr : option string) =>
       if nonEmpty (ImageURL profile) then profile
       else
         match attr with
         | Some src =>
             if nonEmpty src && isProfileImage src
             then setImageURL (absolute baseURL src) profile
             else profile
         | None => profile
         end)
    (imgSrcs doc) profile.

Definition extractImage (baseURL : string) (doc : Document) (profile : Profile)
  : Profile :=
  let profile := imageFromAttr baseURL (ogImage doc) profile in
  let profile :=
    if String.eqb (ImageURL profile) EmptyString
    then imageFromAttr baseURL (imageSrc doc) profile else profile in
  if String.eqb (ImageURL profile) EmptyString
  then imageFromImgs baseURL doc profile else profile.

(** *** [parseProfile] and [scrapeProfile]

    [None] is a run-time panic.  The [verbose] printing to standard
    output, which is all that reads [profile.Score], is left out. *)
Definition parseProfile (baseURL : string) (clueOrder : list (string * string))
    (doc : Document) (profile : Profile) : option Profile :=
  profile ← nameFromTitle doc profile;
  let profile := nameFromH1 doc profile in
  profile ← extractVerdict doc profile;
  profile ← descriptionFromBody doc profile;
  let profile := descriptionFromNodes doc profile in
  let profile := descriptionFromMeta doc profile in
  let profile := descriptionFromTable doc profile in
  profile ← extractProsCons doc profile;
  let profile := prosConsFromList doc profile in
  profile ← forEach categoryFromNode (categoryNodes doc) profile;
  let profile := inferCategory clueOrder doc profile in
  Some (extractImage baseURL doc profile).

(** What the HTTP request for a page comes back with. *)
Inductive Response : Type :=
| GetFailed
| NotOK (statusCode : Z)
| ReadFailed
| ParseFailed
| Page (doc : Document).

Inductive result : Type :=
| Ok (profile : Profile)
| Err (message : string).

Definition placeholder (id : Z) : string := "Profile " +:+ pretty id.

(** [now] is [time.Now().Format(time.RFC3339)] as read at the end of the
    call. *)
Definition scrapeProfile (baseURL : string) (clueOrder : list (string * string))
    (id : Z) (resp : Response) (now : string) : option result :=
  let profileURL := baseURL +:+ "/profile.jsp?ID=" +:+ pretty id in
  match resp with
  | GetFailed => Some (Err "failed to retrieve profile")
  | NotOK _ => Some (Err "received non-200 response")
  | ReadFailed => Some (Err "failed to read response body")
  | ParseFailed => Some (Err "failed to parse HTML")
  | Page doc =>
      let profile :=
        mkProfile EmptyString profileURL EmptyString EmptyString [] []
          (float64_of_int id) EmptyString EmptyString EmptyString EmptyString in
      profile ← parseProfile baseURL clueOrder doc profile;
      let profile :=
        if String.eqb (Name profile) EmptyString
        then setName (placeholder id) profile else profile in
      let profile := setCreatedAt now profile in
      let profile := setUpdatedAt now profile in
      Some (Ok profile)
  end.


(** The document goquery builds from a page without content: the
    [html], [head] and [body] elements the parser supplies, and nothing
    for any selector to find. *)
Definition emptyDocument : Document :=
  mkDocument EmptyString [] None [] None None [] []
    (Some "<html><head></head><body></body></html>") [] [] [] None None None [].

(** ** [ScrapeAll]: the merge step *)

Inductive Classification : Type := New | Updated | Unchanged.

(** "Check if profile needs update (compare basic fields)" *)
Definition needsUpdate (existingProfile profile : Profile) : bool :=
  negb (String.eqb (Verdict existingProfile) (Verdict profile))
  || negb (String.eqb (Description existingProfile) (Description profile))
  || negb (Nat.eqb (length (Pros existingProfile)) (length (Pros profile)))
  || negb (Nat.eqb (length (Cons existingProfile)) (length (Cons profile))).

(** The critical section between [c.mu.Lock()] and [c.mu.Unlock()];
    [now] is [time.Now().Format(time.RFC3339)], read in the update
    branch only. *)
Definition mergeProfile (now : string) (profile : Profile)
    (profiles : gmap string Profile) : gmap string Profile * Classification :=
  match profiles !! Name profile with
  | None => (<[Name profile := profile]> profiles, New)
  | Some existingProfile =>
      if needsUpdate existingProfile profile then
        let profile := setCreatedAt (CreatedAt existingProfile) profile in
        let profile := setUpdatedAt now profile in
        (<[Name profile := profile]> profiles, Updated)
      else (profiles, Unchanged)
  end.

(** ** [ScrapeAll]: the run, as interleaved atomic steps

    The main goroutine alternates the test at the top of the loop and the
    dispatch of a worker; each worker goes through the return of
    [scrapeProfile], its first counter, the critical section, its second
    counter and its deferred exit.  The log, the progress bar and the
    JSON files are outside the model. *)

Definition maxID : Z := 10000.
Definition totalProfiles : Z := 3622.
Definition concurrentRequests : nat := 10.

(** Where the main goroutine stands: before the test of iteration [id],
    past it (waiting for the throttle and a semaphore slot), or out of
    the loop. *)
Inductive Loop : Type :=
| AtCheck (id : Z)
| Passed (id : Z)
| Finished.

Inductive Worker : Type :=
| Fetching
| Failed
| Skipped
| Valid (profile : Profile)
| Counted (profile : Profile)
| Merged (outcome : Classification)
| Exiting.

Record State : Type := mkState {
  baseURL : string;
  profiles : gmap string Profile;
  successCounter : Z;
  failCounter : Z;
  skipCounter : Z;
  newCounter : Z;
  updatedCounter : Z;
  skippedCounter : Z;
  loop : Loop;
  workers : gmap Z Worker
}.

Definition setLoop (l : Loop) (s : State) : State :=
  mkState (baseURL s) (profiles s) (successCounter s) (failCounter s)
    (skipCounter s) (newCounter s) (updatedCounter s) (skippedCounter s)
    l (workers s).

Definition setWorker (id : Z) (w : Worker) (s : State) : State :=
  mkState (baseURL s) (profiles s) (successCounter s) (failCounter s)
    (skipCounter s) (newCounter s) (updatedCounter s) (skippedCounter s)
    (loop s) (<[id := w]> (workers s)).

Definition setProfiles (m : gmap string Profile) (s : State) : State :=
  mkState (baseURL s) m (successCounter s) (failCounter s)
    (skipCounter s) (newCounter s) (updatedCounter s) (skippedCounter s)
    (loop s) (workers s).

(** [atomic.AddInt64(&counter, 1)] for the six counters. *)
Definition addCounters (success fail skip new updated skipped : Z) (s : State)
  : State :=
  mkState (baseURL s) (profiles s) (successCounter s + success)
    (failCounter s + fail) (skipCounter s + skip) (newCounter s + new)
    (updatedCounter s + updated) (skippedCounter s + skipped)
    (loop s) (workers s).

Definition release (id : Z) (s : State) : State :=
  mkState (baseURL s) (profiles s) (successCounter s) (failCounter s)
    (skipCounter s) (newCounter s) (updatedCounter s) (skippedCounter s)
    (loop s) (delete id (workers s)).

Inductive Event : Type :=
(** [id <= maxID] and the load of [successCounter] at the top of the loop *)
| Check
(** the throttle tick, a free semaphore slot, [go func(id)] *)
| Dispatch
(** [c.scrapeProfile(id)] returns in the worker of [id] *)
| Return (id : Z) (resp : Response) (clueOrder : list (string * string))
    (now : string)
(** the worker's first [atomic.AddInt64] *)
| Count (id : Z)
(** the worker's critical section *)
| Merge (id : Z) (now : string)
(** the worker's second [atomic.AddInt64] *)
| Report (id : Z)
(** the deferred [<-semaphore] and [wg.Done()] *)
| Exit (id : Z).

(** What a worker does with the result of [scrapeProfile]. *)
Definition received (id : Z) (r : result) : Worker :=
  match r with
  | Err _ => Failed
  | Ok profile =>
      if String.eqb (Name profile) EmptyString
         || String.eqb (Name profile) (placeholder id)
      then Skipped
      else Valid profile
  end.

(** One atomic step; [None] when the event cannot happen in the state. *)
Definition step (s : State) (e : Event) : option State :=
  match e with
  | Check =>
      match loop s with
      | AtCheck id =>
          if id <=? maxID then
            if totalProfiles <=? successCounter s
            then Some (setLoop Finished s)
            else Some (setLoop (Passed id) s)
          else Some (setLoop Finished s)
      | _ => None
      end
  | Dispatch =>
      match loop s with
      | Passed id =>
          if bool_decide (size (workers s) < concurrentRequests)%nat
          then Some (setLoop (AtCheck (id + 1)) (setWorker id Fetching s))
          else None
      | _ => None
      end
  | Return id resp clueOrder now =>
      match workers s !! id with
      | Some Fetching =>
          r ← scrapeProfile (baseURL s) clueOrder id resp now;
          Some (setWorker id (received id r) s)
      | _ => None
      end
  | Count id =>
      match workers s !! id with
      | Some Failed => Some (setWorker id Exiting (addCounters 0 1 0 0 0 0 s))
      | Some Skipped => Some (setWorker id Exiting (addCounters 0 0 1 0 0 0 s))
      | Some (Valid profile) =>
          Some (setWorker id (Counted profile) (addCounters 1 0 0 0 0 0 s))
      | _ => None
      end
  | Merge id now =>
      match workers s !! id with
      | Some (Counted profile) =>
          let '(profiles, outcome) := mergeProfile now profile (profiles s) in
          Some (setWorker id (Merged outcome) (setProfiles profiles s))
      | _ => None
      end
  | Report id =>
      match workers s !! id with
      | Some (Merged New) =>
          Some (setWorker id Exiting (addCounters 0 0 0 1 0 0 s))
      | Some (Merged Updated) =>
          Some (setWorker id Exiting (addCounters 0 0 0 0 1 0 s))
      | Some (Merged Unchanged) =>
          Some (setWorker id Exiting (addCounters 0 0 0 0 0 1 s))
      | _ => None
      end
  | Exit id =>
      match workers s !! id with
      | Some Exiting => Some (release id s)
      | _ => None
      end
  end.

Fixpoint run (s : State) (events : list Event) : option State :=
  match events with
  | [] => Some s
  | e :: rest =>
      match step s e with
      | Some s' => run s' rest
      | None => None
      end
  end.

(** The state in which the loop of [ScrapeAll] is entered: the records
    the client holds (those of [LoadFromDisk] in incremental mode), the
    counters at zero, no worker. *)
Definition start (baseURL : string) (profiles : gmap string Profile) : State :=
  mkState baseURL profiles 0 0 0 0 0 0 (AtCheck 1) ∅.

(** The readings of the clock a sequence of events makes, in order. *)
Fixpoint readings (events : list Event) : list string :=
  match events with
  | [] => []
  | Return _ _ _ now :: rest => now :: readings rest
  | Merge _ now :: rest => now :: readings rest
  | _ :: rest => readings rest
  end.

Definition isDispatch (e : Event) : bool :=
  match e with
  | Dispatch => true
  | _ => false
  end.

(** The number of identifiers a sequence of events dispatches. *)
Definition dispatches (events : list Event) : nat :=
  length (List.filter isDispatch events).

(** ** [getProfileIDs] *)

(** What the HTTP request for the home page comes back with. *)
Inductive Homepage : Type :=
| HomeGetFailed
| HomeNotOK (statusCode : Z)
| HomeReadFailed
| HomeBody (body : string).

(** [/profile\.jsp\?ID=(\d+)] *)
Definition idRegex : GoRegexp.regex :=
  GoRegexp.Cat (GoRegexp.Bytes "/profile.jsp?ID=")
    (GoRegexp.Group (GoRegexp.plus GoRegexp.digit)).

(** The body of the loop over the matches; [idMap] holds the
    identifiers mapped to [true]. *)
Definition collectID (st : list Z * gset Z) (match_ : list string)
  : option (list Z * gset Z) :=
  let '(profileIDs, idMap) := st in
  if 2 <=? Z.of_nat (length match_) then
    idStr ← index match_ 1;
    match GoStrconv.Atoi idStr with
    | Some id =>
        if negb (bool_decide (id ∈ idMap))
        then Some ((profileIDs ++ [id])%list, {[id]} ∪ idMap)
        else Some st
    | None => Some st
    end
  else Some st.

Inductive idsResult : Type :=
| IDs (profileIDs : list Z)
| IDsErr (message : string).

Definition getProfileIDs (resp : Homepage) : option idsResult :=
  match resp with
  | HomeGetFailed => Some (IDsErr "failed to retrieve homepage")
  | HomeNotOK _ => Some (IDsErr "received non-200 response")
  | HomeReadFailed => Some (IDsErr "failed to read response body")
  | HomeBody body =>
      let matches := GoRegexp.FindAllSubmatch idRegex O body in
      st ← forEach collectID matches ([], ∅);
      Some (IDs (fst st))
  end.

(** ** The accessors of the record set *)

(** [GetProfile]: the comma-ok read of [c.profiles[name]]. *)
Definition GetProfile (profiles : gmap string Profile) (name : string) : result :=
  match profiles !! name with
  | Some profile => Ok profile
  | None => Err ("profile not found: " +:+ name)
  end.

(** [AddProfile]: [None] is the nil pointer. *)
Definition AddProfile (profile : option Profile) (profiles : gmap string Profile)
  : gmap string Profile :=
  match profile with
  | Some profile =>
      if nonEmpty (Name profile) then <[Name profile := profile]> profiles
      else profiles
  | None => profiles
  end.

(** [for _, profile := range c.profiles { if keep(profile) { results =
    append(results, profile) } }].  Go ranges over a map in an order of
    the run time's choosing; the model takes the order of [map_to_list],
    and nothing proved of these functions depends on it. *)
Definition ranged (keep : Profile -> bool) (profiles : gmap string Profile)
  : list Profile :=
  fold_left (fun results (entry : string * Profile) =>
               let profile := snd entry in
               if keep profile then (results ++ [profile])%list else results)
    (map_to_list profiles) [].

Definition ListProfiles (profiles : gmap string Profile) : list Profile :=
  ranged (fun _ => true) profiles.

Definition SearchProfiles (profiles : gmap string Profile) (query : string)
  : list Profile :=
  let queryLower := ToLower query in
  ranged (fun profile =>
            Contains (ToLower (Name profile)) queryLower
            || Contains (ToLower (Description profile)) queryLower) profiles.

Definition GetProfilesByVerdict (profiles : gmap string Profile) (verdict : string)
  : list Profile :=
  let verdictLower := ToLower verdict in
  ranged (fun profile => Contains (ToLower (Verdict profile)) verdictLower)
    profiles.

Definition GetProfilesByCategory (profiles : gmap string Profile)
    (category : string) : list Profile :=
  let categoryLower := ToLower category in
  ranged (fun profile => Contains (ToLower (Category profile)) categoryLower)
    profiles.

(** ** [LoadFromDisk]

    An entry of the data directory: whether it is a directory, its name,
    and what reading and decoding it give: [None] when [os.ReadFile]
    fails, [Some None] when [json.Unmarshal] fails, else the decoded
    record. *)
Record DirEntry : Type := mkDirEntry {
  IsDir : bool;
  FileName : string;
  decoded : option (option Profile)
}.

(** The loop over the entries: the record set so far, and the error that
    ended the loop, if any. *)
Fixpoint loadFiles (files : list DirEntry) (profiles : gmap string Profile)
  : gmap string Profile * option string :=
  match files with
  | [] => (profiles, None)
  | file :: rest =>
      if IsDir file || negb (HasSuffix (FileName file) ".json")
      then loadFiles rest profiles
      else
        match decoded file with
        | None => (profiles, Some ("failed to read file " +:+ FileName file))
        | Some None =>
            (profiles, Some ("failed to unmarshal profile from " +:+ FileName file))
        | Some (Some profile) =>
            loadFiles rest (<[Name profile := profile]> profiles)
        end
  end.

(** [dir] is what [os.ReadDir(c.dataDir)] returns, [None] for its
    error. *)
Definition LoadFromDisk (dir : option (list DirEntry))
    (profiles : gmap string Profile) : gmap string Profile * option string :=
  match dir with
  | None => (profiles, Some "failed to read data directory")
  | Some files => loadFiles files profiles
  end.

(** The record set [ScrapeAll(incrementalMode)] enters its loop with:
    in incremental mode [LoadFromDisk] runs first, and its error is only
    printed. *)
Definition entered (incrementalMode : bool) (dir : option (list DirEntry))
    (profiles : gmap string Profile) : gmap string Profile :=
  if incrementalMode then fst (LoadFromDisk dir profiles) else profiles.

(** ** [saveProfileToJSON], up to the name of the file it writes

    [queryID] is [urlObj.Query().Get("ID")] for the record's address (the
    empty string when the address is empty or has no such parameter),
    [stamp] the clock in the layout [20060102-150405]; [marshalled] and
    [written] tell whether [json.MarshalIndent] and [os.WriteFile]
    succeeded.  The file is written in the data directory under the name
    returned. *)
Inductive saved : Type :=
| Saved (fileName : string)
| SaveErr (message : string).

Definition saveProfileToJSON (profile : option Profile) (queryID stamp : string)
    (marshalled written : bool) : saved :=
  match profile with
  | None => SaveErr "cannot save nil or unnamed profile"
  | Some profile =>
      if String.eqb (Name profile) EmptyString
      then SaveErr "cannot save nil or unnamed profile"
      else
        let safeName := GoURL.PathEscape (Name profile) in
        let safeName :=
          if String.eqb safeName EmptyString then
            let safeName :=
              if nonEmpty (URL profile) && nonEmpty queryID
              then "profile-" +:+ queryID else safeName in
            if String.eqb safeName EmptyString then "profile-" +:+ stamp
            else safeName
          else safeName in
        if negb marshalled then SaveErr "failed to marshal profile"
        else if negb written then SaveErr "failed to write profile JSON"
        else Saved (safeName +:+ ".json")
  end.

(** ** The debug snippet of [scrapeProfile] *)

Definition min (a b : Z) : Z := if a <? b then a else b.

(** [bodyContent[:min(200, len(bodyContent))]] *)
Definition snippet (bodyContent : string) : option string :=
  sliceTo bodyContent (min 200 (len bodyContent)).

End Client.

(** ** Vocabulary of the specification *)

Module Spec.
Import GoStrings.

(** "removes exact-duplicate items, preserving first-seen order": an item
    stays where it first appears, its later copies go. *)
Fixpoint firstSeen (items : list string) : list string :=
  match items with
  | [] => []
  | x :: rest => x :: List.filter (fun y => negb (String.eqb y x)) (firstSeen rest)
  end.

(** "removes items below a minimum length (3 characters)", the length
    being Go's [len], in bytes. *)
Definition longEnough (item : string) : bool := 3 <=? len item.

(** The items of a list that are not in a set already seen. *)
Definition unseen (seen : gset string) (items : list string) : list string :=
  List.filter (fun y => negb (bool_decide (y ∈ seen))) items.

(** A field [f] of the record that is none of those the extractor assigns
    after the verdict: the setters of the name, the description, the pros,
    the cons, the category and the image reference leave it alone. *)
Record Frame {A} (f : Profile -> A) : Prop := mkFrame {
  frame_name : forall v p, f (setName v p) = f p;
  frame_description : forall v p, f (setDescription v p) = f p;
  frame_pros : forall v p, f (setPros v p) = f p;
  frame_cons : forall v p, f (setCons v p) = f p;
  frame_category : forall v p, f (setCategory v p) = f p;
  frame_image : forall v p, f (setImageURL v p) = f p
}.

(** The document [doc] with [content] as the content of its meta
    description. *)
Definition withMetaDescription (content : string) (doc : Client.Document)
  : Client.Document :=
  Client.mkDocument (Client.title doc) (Client.h1 doc) (Some content)
    (Client.verdictNodes doc) (Client.imgDirSrc doc) (Client.profileBody doc)
    (Client.descriptionNodes doc) (Client.tableCells doc) (Client.Html doc)
    (Client.sectionNodes doc) (Client.listItems doc) (Client.categoryNodes doc)
    (Client.metaKeywords doc) (Client.ogImage doc) (Client.imageSrc doc)
    (Client.imgSrcs doc).

(** The page whose only content is a meta description, as goquery reads
    it. *)
Definition metaPage (content : string) : Client.Document :=
  Client.mkDocument EmptyString [] (Some content) [] None None [] []
    (Some ("<html><head><meta name=" +:+ Client.QUOTE +:+ "description"
           +:+ Client.QUOTE +:+ " content=" +:+ Client.QUOTE +:+ content
           +:+ Client.QUOTE +:+ "/></head><body></body></html>"))
    [] [] [] None None None [].







(** ** Timestamps

    [before] is the order of the timestamps, earlier or equal. *)

(** Each reading of the clock is not before the one that precedes it,
    [c] being the last reading before the list. *)
Fixpoint ascending (before : string -> string -> Prop) (c : string)
    (ts : list string) : Prop :=
  match ts with
  | [] => True
  | t :: rest => before c t /\ ascending before t rest
  end.

(** A record created no later than it was updated, and no later than the
    clock last read [c]. *)
Definition timely (before : string -> string -> Prop) (c : string) (p : Profile)
  : Prop :=
  before (CreatedAt p) (UpdatedAt p) /\ before (CreatedAt p) c.

(** The record a worker holds between the return of [scrapeProfile] and
    its critical section. *)
Definition carried (w : Client.Worker) : option Profile :=
  match w with
  | Client.Valid p => Some p
  | Client.Counted p => Some p
  | _ => None
  end.

(** What holds of the records in the set and of those the workers carry,
    [c] being the clock as last read. *)
Definition allTimely (before : string -> string -> Prop) (c : string)
    (s : Client.State) : Prop :=
  (forall name p, Client.profiles s !! name = Some p -> timely before c p) /\
  (forall id w p, Client.workers s !! id = Some w -> carried w = Some p ->
                  timely before c p).

(** Byte-wise order of two timestamps: for RFC 3339 timestamps of one
    zone offset, the order in time. *)
Definition lexBefore (a b : string) : Prop := String.leb a b = true.

(** ** Counters *)

(** A worker whose record is counted as a success and under none of new,
    updated and unchanged yet. *)
Definition inDoubt (w : Client.Worker) : Z :=
  match w with
  | Client.Counted _ => 1
  | Client.Merged _ => 1
  | _ => 0
  end.

Definition pending (ws : gmap Z Client.Worker) : Z :=
  map_fold (fun _ w n => inDoubt w + n) 0 ws.

(** The counters of a run agree, the workers are those of identifiers
    the loop has passed, and no counter of unchanged records is
    negative. *)
Definition accounted (s : Client.State) : Prop :=
  Client.successCounter s
  = Client.newCounter s + Client.updatedCounter s + Client.skippedCounter s
    + pending (Client.workers s) /\
  0 <= Client.skippedCounter s /\
  match Client.loop s with
  | Client.AtCheck id => forall k, is_Some (Client.workers s !! k) -> k < id
  | Client.Passed id => forall k, is_Some (Client.workers s !! k) -> k < id
  | Client.Finished => True
  end.

(** The identifiers the main goroutine may still dispatch without a new
    test. *)
Definition budget (l : Client.Loop) : nat :=
  match l with
  | Client.Passed _ => 1
  | _ => 0
  end.

(** What a test of the outcome of a run looks at: the count of new or
    updated records, the count of successes, the place of the main
    goroutine, and whether it can dispatch. *)
Definition observe (o : option Client.State) : option (Z * Z * Client.Loop * bool) :=
  match o with
  | Some s =>
      Some (Client.newCounter s + Client.updatedCounter s,
            Client.successCounter s, Client.loop s,
            bool_decide (is_Some (Client.step s Client.Dispatch)))
  | None => None
  end.

(** ** Runs of the harvest used as examples *)

(** The page of a person: a title and nothing else. *)
Definition pageNamed (name : string) : Client.Document :=
  Client.mkDocument name [] None [] None None [] []
    (Some ("<html><head><title>" +:+ name
           +:+ "</title></head><body></body></html>"))
    [] [] [] None None None [].

Definition person (id : Z) : string := "Person " +:+ pretty id.

Definition noon : string := "2025-01-01T12:00:00Z".

(** What the worker of [id] does once dispatched, up to its second
    counter, on the page of [person id]. *)
Definition harvested (id : Z) : list Client.Event :=
  [Client.Return id (Client.Page (pageNamed (person id))) Client.categoryClues noon;
   Client.Count id; Client.Merge id noon; Client.Report id].

(** The identifiers [id], [id + 1], ... ([n] of them), one after the
    other: test, dispatch, the worker to its end. *)
Fixpoint sweep (n : nat) (id : Z) : list Client.Event :=
  match n with
  | O => []
  | S k =>
      ([Client.Check; Client.Dispatch] ++ harvested id ++ [Client.Exit id]
       ++ sweep k (id + 1))%list
  end.

(** 3620 identifiers one after the other; then 3621 and 3622 are
    dispatched and the test of 3623 passes while both are in flight; then
    both workers bring their record in. *)
Definition raceEvents : list Client.Event :=
  (sweep 3620 1
   ++ [Client.Check; Client.Dispatch; Client.Check; Client.Dispatch; Client.Check]
   ++ harvested 3621 ++ harvested 3622)%list.

(** A whole sweep of the 3622 pages, and the test that follows it. *)
Definition fullSweep : list Client.Event :=
  (sweep 3622 1 ++ [Client.Check])%list.

Definition site : string := "http://jewornotjew.com".

(** A record as an earlier run left it on disk: a name and a verdict,
    created and last updated at [stamp]. *)
Definition recorded (name verdict stamp : string) : Profile :=
  mkProfile name (site +:+ "/profile.jsp?ID=1") verdict EmptyString [] []
    1%float EmptyString EmptyString stamp stamp.

(** The record set loaded from disk before a run: the record of
    [person 1], with a verdict. *)
Definition loaded (stamp : string) : gmap string Profile :=
  {[ person 1 := recorded (person 1) "Jew" stamp ]}.

(** Identifier 1 from the test of the loop to the end of its worker: its
    page, now without a verdict, is fetched at [fetched] and merged at
    [merged]. *)
Definition revisit (fetched merged : string) : list Client.Event :=
  [Client.Check; Client.Dispatch;
   Client.Return 1 (Client.Page (pageNamed (person 1))) Client.categoryClues
     fetched;
   Client.Count 1; Client.Merge 1 merged; Client.Report 1; Client.Exit 1].

(** The creation and update times of the record held under [name] after
    a run. *)
Definition stamps (name : string) (o : option Client.State)
  : option (string * string) :=
  s ← o; p ← Client.profiles s !! name; Some (CreatedAt p, UpdatedAt p).

(** The records a first run leaves behind. *)
Definition firstRun : gmap string Profile :=
  match Client.run (Client.start site ∅) fullSweep with
  | Some s => Client.profiles s
  | None => ∅
  end.

(** ** The record set and the workers of a run *)

(** Every record is held under its own name. *)
Definition keyed (m : gmap string Profile) : Prop :=
  forall k p, m !! k = Some p -> Name p = k.

(** The workers of a run, each weighed by [weight]. *)
Definition tally (weight : Client.Worker -> Z) (ws : gmap Z Client.Worker) : Z :=
  map_fold (fun _ w n => weight w + n) 0 ws.

(** A worker that has not reached its first counter. *)
Definition uncounted (w : Client.Worker) : Z :=
  match w with
  | Client.Fetching => 1
  | Client.Failed => 1
  | Client.Skipped => 1
  | Client.Valid _ => 1
  | _ => 0
  end.

(** The files [LoadFromDisk] looks at. *)
Definition isProfileFile (file : Client.DirEntry) : bool :=
  negb (Client.IsDir file) && HasSuffix (Client.FileName file) ".json".

(** A data directory: a subdirectory, a log file and the file of one
    record. *)
Definition dataDir : option (list Client.DirEntry) :=
  Some [Client.mkDirEntry true "old.json" None;
        Client.mkDirEntry false "scraper.log" None;
        Client.mkDirEntry false "Ada.json"
          (Some (Some (mkProfile "Ada" "http://jewornotjew.com/profile.jsp?ID=7"
                         "Jew" EmptyString [] [] (float64_of_int 7) EmptyString
                         EmptyString noon noon)))].

(** The steps of a run, case by case. *)
Definition reported (outcome : Client.Classification) (s : Client.State)
  : Client.State :=
  match outcome with
  | Client.New => Client.addCounters 0 0 0 1 0 0 s
  | Client.Updated => Client.addCounters 0 0 0 0 1 0 s
  | Client.Unchanged => Client.addCounters 0 0 0 0 0 1 s
  end.

Inductive Stepped (s : Client.State) : Client.Event -> Client.State -> Prop :=
| CheckDone id :
    Client.loop s = Client.AtCheck id ->
    (Client.maxID < id \/ Client.totalProfiles <= Client.successCounter s) ->
    Stepped s Client.Check (Client.setLoop Client.Finished s)
| CheckPassed id :
    Client.loop s = Client.AtCheck id -> id <= Client.maxID ->
    Client.successCounter s < Client.totalProfiles ->
    Stepped s Client.Check (Client.setLoop (Client.Passed id) s)
| Dispatched id :
    Client.loop s = Client.Passed id ->
    (size (Client.workers s) < Client.concurrentRequests)%nat ->
    Stepped s Client.Dispatch
      (Client.setLoop (Client.AtCheck (id + 1))
         (Client.setWorker id Client.Fetching s))
| Returned id resp clueOrder now r :
    Client.workers s !! id = Some Client.Fetching ->
    Client.scrapeProfile (Client.baseURL s) clueOrder id resp now = Some r ->
    Stepped s (Client.Return id resp clueOrder now)
      (Client.setWorker id (Client.received id r) s)
| CountedFailed id :
    Client.workers s !! id = Some Client.Failed ->
    Stepped s (Client.Count id)
      (Client.setWorker id Client.Exiting (Client.addCounters 0 1 0 0 0 0 s))
| CountedSkipped id :
    Client.workers s !! id = Some Client.Skipped ->
    Stepped s (Client.Count id)
      (Client.setWorker id Client.Exiting (Client.addCounters 0 0 1 0 0 0 s))
| CountedValid id profile :
    Client.workers s !! id = Some (Client.Valid profile) ->
    Stepped s (Client.Count id)
      (Client.setWorker id (Client.Counted profile)
         (Client.addCounters 1 0 0 0 0 0 s))
| MergedIn id now profile :
    Client.workers s !! id = Some (Client.Counted profile) ->
    Stepped s (Client.Merge id now)
      (Client.setWorker id
         (Client.Merged (snd (Client.mergeProfile now profile (Client.profiles s))))
         (Client.setProfiles
            (fst (Client.mergeProfile now profile (Client.profiles s))) s))
| Reported id outcome :
    Client.workers s !! id = Some (Client.Merged outcome) ->
    Stepped s (Client.Report id)
      (Client.setWorker id Client.Exiting (reported outcome s))
| Exited id :
    Client.workers s !! id = Some Client.Exiting ->
    Stepped s (Client.Exit id) (Client.release id s).

(** ** The fields of an extracted record *)

(** The name the title gives: its first segment, trimmed, without the
    prefix of the site. *)
Definition titleName (title : string) : string :=
  TrimPrefix (TrimSpace (hd EmptyString (Split title " - "))) "Jew or Not Jew: ".

(** The last of the headings that is not blank, trimmed; the empty
    string when there is none. *)
Definition lastHeading (h1 : list string) : string :=
  List.last (List.filter Client.nonEmpty (List.map TrimSpace h1)) EmptyString.

(** The name of the page: that of the title unless it is empty, else
    that of the headings. *)
Definition nameOf (doc : Client.Document) : string :=
  let fromTitle :=
    if Client.nonEmpty (Client.title doc) then titleName (Client.title doc)
    else EmptyString in
  if Client.nonEmpty fromTitle then fromTitle else lastHeading (Client.h1 doc).

(** An item of the pros: trimmed and longer than three bytes; an item
    of the cons: moreover without a fragment of markup. *)
Definition goodPro (x : string) : Prop := TrimSpace x = x /\ 3 < len x.

Definition goodCon (x : string) : Prop :=
  TrimSpace x = x /\ 3 < len x /\ Client.hasMarkup x = false.

(** The two lists of a record are without repetition and hold good
    items only. *)
Definition neat (p : Profile) : Prop :=
  List.NoDup (Pros p) /\ List.NoDup (Cons p) /\
  List.Forall goodPro (Pros p) /\ List.Forall goodCon (Cons p).

(** The same of the variables of the pros and cons extraction, a list
    being empty as long as its flag is down. *)
Definition tidy (st : Client.Found) : Prop :=
  neat (Client.found st) /\
  (Client.prosFound st = false -> Pros (Client.found st) = []) /\
  (Client.consFound st = false -> Cons (Client.found st) = []).

(** A page with a body container of some length, a heading and an image
    reference. *)
Definition bodyPage : Client.Document :=
  Client.mkDocument EmptyString ["  "; "Ada Lovelace"; " "] None [] None
    (Some "Ada Lovelace was an English mathematician and writer, chiefly known for her work on the Analytical Engine. Verdict: Not a Jew")
    [] [] None [] [] [] None (Some "/img/ada.jpg") None [].

(** Every byte of [s] is in the class [p]. *)
Fixpoint allOf (p : ascii -> bool) (s : string) : bool :=
  match s with
  | EmptyString => true
  | String c t => p c && allOf p t
  end.

(** A worker that has brought a new record in and not counted it
    yet. *)
Definition brandNew (w : Client.Worker) : Z :=
  match w with
  | Client.Merged Client.New => 1
  | _ => 0
  end.

(** The steps a worker in flight has before it at most. *)
Definition stepsLeft (w : Client.Worker) : nat :=
  match w with
  | Client.Fetching => 5
  | Client.Valid _ => 4
  | Client.Counted _ => 3
  | Client.Failed => 2
  | Client.Skipped => 2
  | Client.Merged _ => 2
  | Client.Exiting => 1
  end.

End Spec.

(** Case analysis on the tests and the optional values of a goal. *)
Ltac cases :=
  repeat match goal with
         | |- context [if ?b then _ else _] => destruct b
         | |- context [match ?o with Some _ => _ | None => _ end] => destruct o
         end.

(** * The list splitter *)

Section Splitter.
Import GoStrings Client Spec.

Lemma forEach_total {A St} (body : St -> A -> option St) (l : list A) :
  (forall st x, is_Some (body st x)) -> forall st, is_Some (forEach body l st).
Proof.
  intros Hbody. induction l as [|x l IH]; intros st; cbn.
  - eauto.
  - destruct (Hbody st x) as [st' ->]. apply IH.
Qed.

Lemma byteAt_head (s : string) : 0 < len s -> is_Some (byteAt s 0).
Proof.
  destruct s as [|c t]; unfold len, byteAt; cbn; [lia | eauto].
Qed.

Lemma splitOnSentences_total text items : is_Some (splitOnSentences text items).
Proof.
  unfold splitOnSentences.
  destruct (1 <? _); [|eauto].
  apply forEach_total. intros st x.
  destruct (nonEmpty (TrimSpace x) && (10 <? len (TrimSpace x))); [|eauto].
  destruct (20 <? len (TrimSpace x)) eqn:E; [|eauto].
  apply Z.ltb_lt in E.
  destruct (byteAt_head (TrimSpace x)) as [c ->]; [lia | eauto].
Qed.

Lemma splitPieces_total text : is_Some (splitPieces text).
Proof.
  unfold splitPieces.
  match goal with
  | |- context [splitOnSentences text ?i] =>
      destruct (splitOnSentences_total text i) as [r ->]
  end.
  match goal with |- context [if ?b then Some r else _] => destruct b end; eauto.
Qed.

Lemma filter_twice {A} (f g : A -> bool) (l : list A) :
  List.filter f (List.filter g l) = List.filter (fun x => f x && g x) l.
Proof.
  induction l as [|x l IH]; cbn; [reflexivity|].
  destruct (g x), (f x) eqn:E; cbn; rewrite ?E, IH; reflexivity.
Qed.

Lemma unseen_known seen x l :
  x ∈ seen ->
  unseen seen (List.filter (fun y => negb (String.eqb y x)) l) = unseen seen l.
Proof.
  intros Hx. unfold unseen. rewrite filter_twice. apply List.filter_ext.
  intros y. destruct (String.eqb_spec y x) as [->|]; cbn.
  - rewrite bool_decide_eq_true_2 by assumption. reflexivity.
  - apply andb_true_r.
Qed.

Lemma unseen_added seen x l :
  unseen ({[x]} ∪ seen) l
  = unseen seen (List.filter (fun y => negb (String.eqb y x)) l).
Proof.
  unfold unseen. rewrite filter_twice. apply List.filter_ext.
  intros y. destruct (String.eqb_spec y x) as [->|Hne]; cbn.
  - rewrite bool_decide_eq_true_2 by set_solver. rewrite andb_false_r. reflexivity.
  - rewrite andb_true_r. f_equal. apply bool_decide_ext. set_solver.
Qed.

Lemma cleanLoop_spec items : forall acc seen,
  fst (fold_left cleanStep items (acc, seen))
  = (acc ++ unseen seen (firstSeen (List.filter longEnough (List.map TrimSpace items))))%list.
Proof.
  induction items as [|item items IH]; intros acc seen; cbn [fold_left List.map List.filter].
  - cbn. rewrite app_nil_r. reflexivity.
  - unfold cleanStep at 2. unfold longEnough at 1.
    destruct (String.eqb_spec (TrimSpace item) EmptyString) as [E|E]; cbn [orb].
    + rewrite E. cbn. apply IH.
    + destruct (Z.ltb_spec (len (TrimSpace item)) 3) as [Hlt|Hge].
      * rewrite (proj2 (Z.leb_gt _ _)) by lia. apply IH.
      * rewrite (proj2 (Z.leb_le _ _)) by lia. cbn [firstSeen].
        destruct (bool_decide (TrimSpace item ∈ seen)) eqn:Hseen.
        -- rewrite IH. f_equal. unfold unseen at 2. cbn [List.filter].
           rewrite Hseen. cbn [negb]. fold (unseen seen).
           apply bool_decide_eq_true_1 in Hseen.
           symmetry. apply unseen_known. assumption.
        -- rewrite IH. rewrite <- app_assoc. f_equal. cbn [app].
           unfold unseen at 2. cbn [List.filter]. rewrite Hseen. cbn [negb].
           fold (unseen seen). f_equal. apply unseen_added.
Qed.

Lemma unseen_empty l : unseen ∅ l = l.
Proof.
  unfold unseen. induction l as [|x l IH]; cbn; [reflexivity|].
  rewrite bool_decide_eq_false_2 by set_solver. cbn. f_equal. exact IH.
Qed.

Lemma cleanUp_spec items :
  cleanUp items = firstSeen (List.filter longEnough (List.map TrimSpace items)).
Proof.
  unfold cleanUp. rewrite cleanLoop_spec. cbn [app]. apply unseen_empty.
Qed.

Lemma firstSeen_In x l : In x (firstSeen l) -> In x l.
Proof.
  revert x. induction l as [|y l IH]; intros x; cbn; [tauto|].
  intros [->|H]; [tauto|]. apply filter_In in H. right. apply IH. tauto.
Qed.

Lemma firstSeen_NoDup l : List.NoDup (firstSeen l).
Proof.
  induction l as [|y l IH]; cbn; constructor.
  - intros H. apply filter_In in H. destruct H as [_ H].
    rewrite String.eqb_refl in H. discriminate.
  - apply List.NoDup_filter. exact IH.
Qed.

(** C8, as the code has it: for every input text the splitter returns a
    list; none of its items is shorter than 3 bytes (Go's [len] of a
    string counts bytes, not characters); no two of its items are
    identical; and the items are the trimmed pieces of the split that
    are long enough, each at the place of its first appearance. *)
Theorem splitByBullets_clean (text : string) :
  exists pieces out,
    splitPieces (TrimSpace text) = Some pieces /\
    splitByBullets text = Some out /\
    (forall item, In item out -> 3 <= len item) /\
    List.NoDup out /\
    out = firstSeen (List.filter longEnough (List.map TrimSpace pieces)).
Proof.
  destruct (splitPieces_total (TrimSpace text)) as [pieces Hp].
  exists pieces, (cleanUp pieces). unfold splitByBullets. rewrite Hp.
  rewrite cleanUp_spec. repeat split.
  - intros item H. apply firstSeen_In in H. apply filter_In in H.
    destruct H as [_ H]. unfold longEnough in H. lia.
  - apply firstSeen_NoDup.
Qed.

(** C8, counterexample: an item shorter than 3 characters is kept when
    its encoding has 3 bytes or more.  The splitter returns a text of
    one character, and one of two; between bullets it keeps the item of
    two characters and drops the two letters of "ok" and the single
    accented letter, which has two bytes. *)
Lemma splitByBullets_short_kept :
  splitByBullets "日" = Some ["日"] /\
  GoUTF8.RuneCountInString "日" = 1 /\ len "日" = 3 /\
  splitByBullets "日本" = Some ["日本"] /\
  GoUTF8.RuneCountInString "日本" = 2 /\ len "日本" = 6 /\
  splitByBullets "日本 • ok • Fine • é" = Some ["日本"; "Fine"] /\
  GoUTF8.RuneCountInString "é" = 1 /\ len "é" = 2.
Proof. vm_compute. repeat split. Qed.

(** C3, as the code has it: the single-letter items of the first and
    third example are below the minimum length and are dropped; the
    second example is returned whole; items of three bytes or more are
    split, and their duplicates collapsed, as the examples intend. *)
Theorem splitByBullets_examples :
  splitByBullets "A • B • C" = Some [] /\
  splitByBullets "single sentence without delimiters"
    = Some ["single sentence without delimiters"] /\
  splitByBullets "X • X • Y" = Some [] /\
  splitByBullets "Abc • Bcd • Cde" = Some ["Abc"; "Bcd"; "Cde"] /\
  splitByBullets "Xyz • Xyz • Yza" = Some ["Xyz"; "Yza"].
Proof. vm_compute. repeat split. Qed.

(** C3, counterexample: the first and the third example of the
    specification do not come out as it says. *)
Lemma splitByBullets_examples_fail :
  splitByBullets "A • B • C" <> Some ["A"; "B"; "C"] /\
  splitByBullets "X • X • Y" <> Some ["X"; "Y"].
Proof. split; vm_compute; discriminate. Qed.

End Splitter.

(** * The field extractor *)

Section Extractor.
Import GoStrings Client Spec.

(** ** The extractor does not panic *)

Lemma index_in_range {A} (l : list A) (i : Z) :
  0 <= i -> i < Z.of_nat (length l) -> is_Some (index l i).
Proof.
  intros H0 H1. unfold index. rewrite (proj2 (Z.leb_le 0 i)) by assumption.
  apply lookup_lt_is_Some. lia.
Qed.

Lemma nameFromTitle_total doc profile : is_Some (nameFromTitle doc profile).
Proof.
  unfold nameFromTitle. destruct (nonEmpty (title doc)); [|eauto].
  destruct (Z.ltb_spec 0 (Z.of_nat (length (Split (title doc) " - ")))) as [H|H]; [|eauto].
  destruct (index_in_range (Split (title doc) " - ") 0) as [x ->]; [lia|lia|].
  cbn. eauto.
Qed.

Lemma verdictFromMeta_total doc : is_Some (verdictFromMeta doc).
Proof.
  unfold verdictFromMeta. destruct (metaDescription doc) as [m|]; [|eauto].
  destruct (nonEmpty m); [|eauto].
  destruct (_ && _); [|eauto].
  match goal with |- context [index ?l ?i] => set (words := l) end.
  destruct (Z.ltb_spec 2 (Z.of_nat (length words))) as [H|H]; [|eauto].
  destruct (index_in_range words (Z.of_nat (length words) - 1)) as [x ->]; [lia|lia|].
  cbn. repeat match goal with |- context [if ?b then _ else _] => destruct b end; eauto.
Qed.

Lemma part1_total (parts : list string) :
  1 < Z.of_nat (length parts) -> is_Some (index parts 1).
Proof. intros H. apply index_in_range; lia. Qed.

Lemma verdictFromNode_total verdictText node :
  is_Some (verdictFromNode verdictText node).
Proof.
  unfold verdictFromNode.
  destruct (Contains _ "verdict:").
  - match goal with |- context [index ?l 1] => set (parts := l) end.
    destruct (Z.ltb_spec 1 (Z.of_nat (length parts))) as [H|H]; [|eauto].
    destruct (part1_total parts H) as [x ->]. cbn. eauto.
  - destruct (_ && _).
    + destruct (snd node); eauto.
    + destruct (_ && _); eauto.
Qed.

Lemma extractVerdict_total doc profile : is_Some (extractVerdict doc profile).
Proof.
  unfold extractVerdict.
  destruct (verdictFromMeta_total doc) as [v ->]. cbn.
  destruct (String.eqb v EmptyString); cbn; [|eauto].
  destruct (forEach_total verdictFromNode (verdictNodes doc) verdictFromNode_total v)
    as [v' ->].
  cbn. eauto.
Qed.

Lemma cutIndex_range fullText :
  0 <= cutIndex fullText <= len fullText.
Proof.
  unfold cutIndex. cbv zeta.
  assert (0 <= len fullText) as H by (unfold len; lia).
  generalize (LastIndex (ToLower fullText) "verdict:")
    (LastIndex (ToLower fullText) "pros:")
    (LastIndex (ToLower fullText) "cons:") (len fullText) H.
  clear. intros v p c n Hn.
  destruct (Z.ltb_spec 0 v), (Z.ltb_spec v n); cbn [andb];
    destruct (Z.ltb_spec 0 p); cbn [andb];
    repeat match goal with
           | |- context [?a <? ?b] => destruct (Z.ltb_spec a b)
           end; cbn [andb]; try lia.
Qed.

Lemma sliceTo_in_range s n : 0 <= n <= len s -> is_Some (sliceTo s n).
Proof.
  intros [H0 H1]. unfold sliceTo.
  rewrite (proj2 (Z.leb_le 0 n)), (proj2 (Z.leb_le n (len s))) by assumption.
  cbn. eauto.
Qed.

Lemma bodyDescription_total text : is_Some (bodyDescription text).
Proof.
  unfold bodyDescription. destruct (50 <? _); [|eauto].
  match goal with |- context [cutIndex ?t] => set (fullText := t) end.
  destruct (cutIndex fullText <? len fullText); cbn; [|eauto].
  destruct (sliceTo_in_range fullText (cutIndex fullText) (cutIndex_range fullText))
    as [x ->].
  cbn. eauto.
Qed.

Lemma descriptionFromBody_total doc profile :
  is_Some (descriptionFromBody doc profile).
Proof.
  unfold descriptionFromBody. destruct (profileBody doc) as [t|]; [|eauto].
  destruct (bodyDescription_total t) as [x ->]. cbn. eauto.
Qed.

Lemma splitByBullets_total text : is_Some (splitByBullets text).
Proof.
  unfold splitByBullets.
  destruct (splitPieces_total (TrimSpace text)) as [x ->]. eauto.
Qed.

Lemma prosFromRegex_total html st : is_Some (prosFromRegex html st).
Proof.
  unfold prosFromRegex.
  match goal with |- context [index ?l 1] => set (ms := l) end.
  destruct (Z.ltb_spec 1 (Z.of_nat (length ms))) as [H|H]; [|eauto].
  destruct (part1_total ms H) as [x ->]. cbn.
  destruct (splitByBullets_total x) as [y ->]. cbn. eauto.
Qed.

Lemma consFromRegex_total html st : is_Some (consFromRegex html st).
Proof.
  unfold consFromRegex.
  match goal with |- context [index ?l 1] => set (ms := l) end.
  destruct (Z.ltb_spec 1 (Z.of_nat (length ms))) as [H|H]; [|eauto].
  destruct (part1_total ms H) as [x ->]. cbn.
  destruct (_ && _); [|eauto].
  destruct (splitByBullets_total x) as [y ->]. cbn. eauto.
Qed.

Lemma prosConsFromHtml_total doc st : is_Some (prosConsFromHtml doc st).
Proof.
  unfold prosConsFromHtml. destruct (Html doc) as [h|]; [|eauto].
  destruct (prosFromRegex_total h st) as [x ->]. cbn. apply consFromRegex_total.
Qed.

Lemma sectionList_total (text label : string) :
  is_Some (if 1 <? Z.of_nat (length (SplitN2 text ":"))
           then index (SplitN2 text ":") 1
           else Some (TrimPrefix text label)).
Proof.
  destruct (Z.ltb_spec 1 (Z.of_nat (length (SplitN2 text ":")))) as [H|H]; [|eauto].
  apply part1_total. exact H.
Qed.

Lemma prosFromSection_total text lowerText st :
  is_Some (prosFromSection text lowerText st).
Proof.
  unfold prosFromSection. destruct (_ && _); [|eauto].
  destruct (sectionList_total text "Pros") as [x ->]. cbn.
  destruct (splitByBullets_total x) as [y ->]. cbn. eauto.
Qed.

Lemma consFromSection_total text lowerText st :
  is_Some (consFromSection text lowerText st).
Proof.
  unfold consFromSection. destruct (_ && _); [|eauto].
  destruct (sectionList_total text "Cons") as [x ->]. cbn.
  destruct (splitByBullets_total x) as [y ->]. cbn. eauto.
Qed.

Lemma prosConsFromSection_total st s : is_Some (prosConsFromSection st s).
Proof.
  unfold prosConsFromSection.
  destruct (prosFromSection_total (TrimSpace s) (ToLower (TrimSpace s)) st) as [x ->].
  cbn. apply consFromSection_total.
Qed.

Lemma extractProsCons_total doc profile : is_Some (extractProsCons doc profile).
Proof.
  unfold extractProsCons.
  destruct (prosConsFromHtml_total doc (mkFound profile false false)) as [st ->]. cbn.
  destruct (_ || _); cbn; [|eauto].
  destruct (forEach_total prosConsFromSection (sectionNodes doc)
              prosConsFromSection_total st) as [st' ->].
  cbn. eauto.
Qed.

Lemma categoryFromParts_total parts profile :
  is_Some (categoryFromParts parts profile).
Proof.
  unfold categoryFromParts.
  destruct (Z.ltb_spec 1 (Z.of_nat (length parts))) as [H|H]; [|eauto].
  destruct (part1_total parts H) as [x ->]. cbn. eauto.
Qed.

Lemma categoryFromNode_total profile s : is_Some (categoryFromNode profile s).
Proof.
  unfold categoryFromNode.
  destruct (Contains _ _); [apply categoryFromParts_total|].
  destruct (HasPrefix _ _); [apply categoryFromParts_total|eauto].
Qed.

Lemma parseProfile_total baseURL clueOrder doc profile :
  is_Some (parseProfile baseURL clueOrder doc profile).
Proof.
  unfold parseProfile.
  destruct (nameFromTitle_total doc profile) as [p1 ->]. cbn.
  destruct (extractVerdict_total doc (nameFromH1 doc p1)) as [p2 ->]. cbn.
  destruct (descriptionFromBody_total doc p2) as [p3 ->]. cbn.
  match goal with |- context [extractProsCons doc ?p] =>
    destruct (extractProsCons_total doc p) as [p4 ->] end. cbn.
  match goal with |- context [forEach categoryFromNode ?l ?p] =>
    destruct (forEach_total categoryFromNode l categoryFromNode_total p) as [p5 ->] end.
  cbn. eauto.
Qed.


(** ** Fields a stage does not assign *)

Lemma fold_left_keeps {A St B} (g : St -> B) (body : St -> A -> St) (l : list A) :
  (forall st x, g (body st x) = g st) -> forall st, g (fold_left body l st) = g st.
Proof.
  intros Hbody. induction l as [|x l IH]; intros st; cbn; [reflexivity|].
  rewrite IH. apply Hbody.
Qed.

Lemma forEach_keeps {A St B} (g : St -> B) (body : St -> A -> option St) (l : list A) :
  (forall st x st', body st x = Some st' -> g st' = g st) ->
  forall st st', forEach body l st = Some st' -> g st' = g st.
Proof.
  intros Hbody. induction l as [|x l IH]; intros st st'; cbn.
  - intros [= ->]. reflexivity.
  - destruct (body st x) as [st1|] eqn:E; [|discriminate].
    intros H. rewrite (IH _ _ H). eapply Hbody. exact E.
Qed.

Section Keeps.
Context {A : Type} (f : Profile -> A) (Hf : Frame f).

Lemma bind_keeps {X} (o : option X) (k : X -> Profile) (p p' : Profile) :
  (forall x, f (k x) = f p) -> (x ← o; Some (k x)) = Some p' -> f p' = f p.
Proof.
  intros Hk. destruct o as [x|]; cbn; [|discriminate].
  intros [= <-]. apply Hk.
Qed.

Lemma nameFromTitle_keeps doc p p' :
  nameFromTitle doc p = Some p' -> f p' = f p.
Proof.
  unfold nameFromTitle. destruct (nonEmpty _); [|congruence].
  destruct (0 <? _); [|congruence].
  apply bind_keeps. intros x. apply (frame_name f Hf).
Qed.

Lemma nameFromH1_keeps doc p : f (nameFromH1 doc p) = f p.
Proof.
  unfold nameFromH1. destruct (String.eqb _ _); [|reflexivity].
  apply fold_left_keeps. intros st x. cases; [apply (frame_name f Hf)|reflexivity].
Qed.

Lemma descriptionFromBody_keeps doc p p' :
  descriptionFromBody doc p = Some p' -> f p' = f p.
Proof.
  unfold descriptionFromBody. destruct (profileBody doc); [|congruence].
  apply bind_keeps. intros [d|]; [apply (frame_description f Hf)|reflexivity].
Qed.

Lemma descriptionFromNodes_keeps doc p : f (descriptionFromNodes doc p) = f p.
Proof.
  unfold descriptionFromNodes. destruct (_ || _); [|reflexivity].
  apply (fold_left_keeps (fun st : Profile * bool => f (fst st))).
  intros [q b] x. cbn. cases; cbn; [reflexivity|apply (frame_description f Hf)|reflexivity].
Qed.

Lemma descriptionFromMeta_keeps doc p : f (descriptionFromMeta doc p) = f p.
Proof.
  unfold descriptionFromMeta. cases; try reflexivity; apply (frame_description f Hf).
Qed.

Lemma descriptionFromTable_keeps doc p : f (descriptionFromTable doc p) = f p.
Proof.
  unfold descriptionFromTable. cases; try reflexivity; apply (frame_description f Hf).
Qed.

Lemma appendPro_keeps p x : f (appendPro p x) = f p.
Proof. apply (frame_pros f Hf). Qed.

Lemma appendCon_keeps p x : f (appendCon p x) = f p.
Proof. apply (frame_cons f Hf). Qed.

Lemma prosLoop_keeps (keep : string -> bool) pros st :
  f (found (fold_left
       (fun st pro =>
          if keep (TrimSpace pro)
          then mkFound (appendPro (found st) (TrimSpace pro)) true (consFound st)
          else st) pros st)) = f (found st).
Proof.
  apply (fold_left_keeps (fun st => f (found st))).
  intros s x. cases; cbn; [apply appendPro_keeps|reflexivity].
Qed.

Lemma consLoop_keeps (keep : string -> bool) cons st :
  f (found (fold_left
       (fun st con =>
          if keep (TrimSpace con)
          then mkFound (appendCon (found st) (TrimSpace con)) (prosFound st) true
          else st) cons st)) = f (found st).
Proof.
  apply (fold_left_keeps (fun st => f (found st))).
  intros s x. cases; cbn; [apply appendCon_keeps|reflexivity].
Qed.

Lemma prosFromRegex_keeps html st st' :
  prosFromRegex html st = Some st' -> f (found st') = f (found st).
Proof.
  unfold prosFromRegex. destruct (1 <? _); [|congruence].
  destruct (index _ 1) as [c|]; cbn; [|discriminate].
  destruct (splitByBullets c) as [pros|]; cbn; [|discriminate].
  intros [= <-].
  apply (prosLoop_keeps
           (fun pro => nonEmpty pro && (3 <? len pro)
                       && negb (Contains (ToLower pro) "cons:"))).
Qed.

Lemma consFromRegex_keeps html st st' :
  consFromRegex html st = Some st' -> f (found st') = f (found st).
Proof.
  unfold consFromRegex. destruct (1 <? _); [|congruence].
  destruct (index _ 1) as [c|]; cbn; [|discriminate].
  destruct (_ && _); [|congruence].
  destruct (splitByBullets c) as [cons|]; cbn; [|discriminate].
  intros [= <-].
  apply (fold_left_keeps (fun st => f (found st))).
  intros s x. cases; cbn; first [apply appendCon_keeps|reflexivity].
Qed.

Lemma prosConsFromHtml_keeps doc st st' :
  prosConsFromHtml doc st = Some st' -> f (found st') = f (found st).
Proof.
  unfold prosConsFromHtml. destruct (Html doc) as [h|]; [|congruence].
  destruct (prosFromRegex h st) as [st1|] eqn:E; cbn; [|discriminate].
  intros H. rewrite (consFromRegex_keeps _ _ _ H). eapply prosFromRegex_keeps, E.
Qed.

Lemma prosFromSection_keeps text lowerText st st' :
  prosFromSection text lowerText st = Some st' -> f (found st') = f (found st).
Proof.
  unfold prosFromSection. destruct (_ && _); [|congruence].
  match goal with |- context [mbind _ ?o] => destruct o as [l|] end; cbn; [|discriminate].
  destruct (splitByBullets l) as [pros|]; cbn; [|discriminate].
  intros [= <-].
  apply (prosLoop_keeps
           (fun pro => nonEmpty pro && (3 <? len pro)
                       && negb (Contains (ToLower pro) "cons"))).
Qed.

Lemma consFromSection_keeps text lowerText st st' :
  consFromSection text lowerText st = Some st' -> f (found st') = f (found st).
Proof.
  unfold consFromSection. destruct (_ && _); [|congruence].
  match goal with |- context [mbind _ ?o] => destruct o as [l|] end; cbn; [|discriminate].
  destruct (splitByBullets l) as [cons|]; cbn; [|discriminate].
  intros [= <-].
  apply (fold_left_keeps (fun st => f (found st))).
  intros s x. cases; cbn; first [apply appendCon_keeps|reflexivity].
Qed.

Lemma prosConsFromSection_keeps st s st' :
  prosConsFromSection st s = Some st' -> f (found st') = f (found st).
Proof.
  unfold prosConsFromSection.
  destruct (prosFromSection _ _ st) as [st1|] eqn:E; cbn; [|discriminate].
  intros H. rewrite (consFromSection_keeps _ _ _ _ H).
  eapply prosFromSection_keeps, E.
Qed.

Lemma extractProsCons_keeps doc p p' :
  extractProsCons doc p = Some p' -> f p' = f p.
Proof.
  unfold extractProsCons.
  destruct (prosConsFromHtml doc _) as [st|] eqn:E; cbn; [|discriminate].
  apply prosConsFromHtml_keeps in E. cbn in E.
  destruct (_ || _); cbn.
  - destruct (forEach _ _ st) as [st'|] eqn:E'; cbn; [|discriminate].
    intros [= <-].
    rewrite (forEach_keeps (fun st => f (found st)) _ _
               prosConsFromSection_keeps _ _ E').
    exact E.
  - intros [= <-]. exact E.
Qed.

Lemma prosConsFromList_keeps doc p : f (prosConsFromList doc p) = f p.
Proof.
  unfold prosConsFromList. apply fold_left_keeps.
  intros q x. cases; first [apply appendPro_keeps|apply appendCon_keeps|reflexivity].
Qed.

Lemma categoryFromParts_keeps parts p p' :
  categoryFromParts parts p = Some p' -> f p' = f p.
Proof.
  unfold categoryFromParts. destruct (1 <? _); [|congruence].
  apply bind_keeps. intros x. cases; [apply (frame_category f Hf)|reflexivity].
Qed.

Lemma categoryFromNode_keeps p s p' :
  categoryFromNode p s = Some p' -> f p' = f p.
Proof.
  unfold categoryFromNode.
  destruct (Contains _ _); [apply categoryFromParts_keeps|].
  destruct (HasPrefix _ _); [apply categoryFromParts_keeps|congruence].
Qed.

Lemma categoryFromKeywords_keeps ks : forall p, f (categoryFromKeywords ks p) = f p.
Proof.
  induction ks as [|k ks IH]; intros p; cbn [categoryFromKeywords]; [reflexivity|].
  match goal with |- context [List.find ?g categories] =>
    destruct (List.find g categories) as [cat|] end.
  - destruct (nonEmpty _); [|rewrite IH]; apply (frame_category f Hf).
  - destruct (nonEmpty _); [reflexivity|apply IH].
Qed.

Lemma categoryFromDescription_keeps clueOrder p :
  f (categoryFromDescription clueOrder p) = f p.
Proof.
  unfold categoryFromDescription. cases; try reflexivity; apply (frame_category f Hf).
Qed.

Lemma inferCategory_keeps clueOrder doc p : f (inferCategory clueOrder doc p) = f p.
Proof.
  unfold inferCategory. destruct (String.eqb _ _); [|reflexivity].
  rewrite categoryFromDescription_keeps.
  cases; try reflexivity; apply categoryFromKeywords_keeps.
Qed.

Lemma imageFromAttr_keeps baseURL attr p : f (imageFromAttr baseURL attr p) = f p.
Proof.
  unfold imageFromAttr. cases; try reflexivity; apply (frame_image f Hf).
Qed.

Lemma imageFromImgs_keeps baseURL doc p : f (imageFromImgs baseURL doc p) = f p.
Proof.
  unfold imageFromImgs. apply fold_left_keeps.
  intros q x. cases; try reflexivity; apply (frame_image f Hf).
Qed.

Lemma extractImage_keeps baseURL doc p : f (extractImage baseURL doc p) = f p.
Proof.
  unfold extractImage.
  cases; rewrite ?imageFromImgs_keeps, ?imageFromAttr_keeps; reflexivity.
Qed.

(** Everything [parseProfile] does after the verdict. *)
Lemma afterVerdict_keeps baseURL clueOrder doc p2 p' :
  (p3 ← descriptionFromBody doc p2;
   let p3 := descriptionFromTable doc
               (descriptionFromMeta doc (descriptionFromNodes doc p3)) in
   p4 ← extractProsCons doc p3;
   p5 ← forEach categoryFromNode (categoryNodes doc) (prosConsFromList doc p4);
   Some (extractImage baseURL doc (inferCategory clueOrder doc p5))) = Some p' ->
  f p' = f p2.
Proof.
  destruct (descriptionFromBody doc p2) as [p3|] eqn:E3; cbn; [|discriminate].
  destruct (extractProsCons doc _) as [p4|] eqn:E4; cbn; [|discriminate].
  destruct (forEach categoryFromNode _ _) as [p5|] eqn:E5; cbn; [|discriminate].
  intros [= <-].
  rewrite extractImage_keeps, inferCategory_keeps.
  rewrite (forEach_keeps f _ _ categoryFromNode_keeps _ _ E5).
  rewrite prosConsFromList_keeps.
  rewrite (extractProsCons_keeps _ _ _ E4).
  rewrite descriptionFromTable_keeps, descriptionFromMeta_keeps,
    descriptionFromNodes_keeps.
  apply (descriptionFromBody_keeps _ _ _ E3).
Qed.

End Keeps.


Lemma Score_frame : Frame Score.
Proof. constructor; reflexivity. Qed.

Lemma Verdict_frame : Frame Verdict.
Proof. constructor; reflexivity. Qed.

Lemma extractVerdict_keeps_score doc p p' :
  extractVerdict doc p = Some p' -> Score p' = Score p.
Proof.
  unfold extractVerdict.
  destruct (verdictFromMeta doc) as [v|]; cbn; [|discriminate].
  match goal with |- context [mbind _ ?o] => destruct o as [v'|] end; cbn; [|discriminate].
  intros [= <-]. cases; reflexivity.
Qed.

Lemma parseProfile_keeps_score baseURL clueOrder doc seed parsed :
  parseProfile baseURL clueOrder doc seed = Some parsed -> Score parsed = Score seed.
Proof.
  unfold parseProfile.
  destruct (nameFromTitle doc seed) as [p1|] eqn:E1; cbn; [|discriminate].
  destruct (extractVerdict doc _) as [p2|] eqn:E2; cbn; [|discriminate].
  intros H. rewrite (afterVerdict_keeps Score Score_frame _ _ _ _ _ H).
  rewrite (extractVerdict_keeps_score _ _ _ E2).
  rewrite (nameFromH1_keeps Score Score_frame).
  apply (nameFromTitle_keeps Score Score_frame _ _ _ E1).
Qed.

(** C9: every fetch that brings a page back returns a record, and the
    [Score] of that record is [float64(id)]: the field is set from the
    identifier before the extraction, and no step of the extraction
    assigns it, whatever record it starts from. *)
Theorem score_is_identifier baseURL clueOrder (id : Z) doc now :
  exists profile,
    scrapeProfile baseURL clueOrder id (Page doc) now = Some (Ok profile) /\
    Score profile = float64_of_int id /\
    (forall seed parsed,
        parseProfile baseURL clueOrder doc seed = Some parsed ->
        Score parsed = Score seed).
Proof.
  unfold scrapeProfile.
  match goal with |- context [parseProfile _ _ _ ?seed] =>
    destruct (parseProfile_total baseURL clueOrder doc seed) as [p Hp] end.
  rewrite Hp. cbn. eexists. split; [reflexivity|]. split.
  - apply parseProfile_keeps_score in Hp. cbn in Hp.
    destruct (String.eqb (Name p) EmptyString); cbn; exact Hp.
  - intros seed parsed. apply parseProfile_keeps_score.
Qed.

(** C7: extraction returns a record for every document and every record
    it starts from; and the fetch of an empty document returns the record
    named by the placeholder of its identifier, with no verdict, no
    description, no pros, no cons, no category and no image reference. *)
Theorem extraction_never_fails baseURL clueOrder :
  (forall doc seed, exists profile,
      parseProfile baseURL clueOrder doc seed = Some profile) /\
  (forall (id : Z) now,
      scrapeProfile baseURL clueOrder id (Page emptyDocument) now
      = Some (Ok (mkProfile (placeholder id)
                    (baseURL +:+ "/profile.jsp?ID=" +:+ pretty id)
                    EmptyString EmptyString [] [] (float64_of_int id)
                    EmptyString EmptyString now now))).
Proof.
  split.
  - intros doc seed. apply parseProfile_total.
  - intros id now. reflexivity.
Qed.

Lemma verdict_of_meta baseURL clueOrder doc seed v :
  verdictFromMeta doc = Some v -> v <> EmptyString ->
  exists p, parseProfile baseURL clueOrder doc seed = Some p /\ Verdict p = v.
Proof.
  intros Hv Hne.
  destruct (parseProfile_total baseURL clueOrder doc seed) as [p Hp].
  exists p. split; [exact Hp|].
  revert Hp. unfold parseProfile.
  destruct (nameFromTitle doc seed) as [p1|]; cbn; [|discriminate].
  apply String.eqb_neq in Hne.
  unfold extractVerdict at 1, nonEmpty. rewrite Hv. cbn.
  repeat (rewrite Hne; cbn). intros H.
  rewrite (afterVerdict_keeps Verdict Verdict_frame _ _ _ _ _ H). reflexivity.
Qed.

(** C4, as the code has it: the verdict is read off the final word of the
    meta description.  "John Doe is a Jew." gives "Jew"; "Jane Doe is Not
    a Jew." ends in the word "Jew" too and gives "Jew"; the verdict "Not
    a Jew" comes from a final word that contains "Not", as in "Jane Doe
    is Not.".  This holds whatever else the document holds. *)
Theorem verdict_from_final_word baseURL clueOrder doc seed :
  (exists p,
      parseProfile baseURL clueOrder
        (withMetaDescription "John Doe is a Jew." doc) seed = Some p /\
      Verdict p = "Jew") /\
  (exists p,
      parseProfile baseURL clueOrder
        (withMetaDescription "Jane Doe is Not a Jew." doc) seed = Some p /\
      Verdict p = "Jew") /\
  (exists p,
      parseProfile baseURL clueOrder
        (withMetaDescription "Jane Doe is Not." doc) seed = Some p /\
      Verdict p = "Not a Jew").
Proof.
  repeat split; apply verdict_of_meta; (reflexivity || discriminate).
Qed.

(** C4, counterexample: the page whose meta description is "Jane Doe is
    Not a Jew." is given the verdict "Jew", not "Not a Jew". *)
Lemma verdict_not_a_jew_fails :
  exists p,
    scrapeProfile "http://jewornotjew.com" categoryClues 7
      (Page (metaPage "Jane Doe is Not a Jew.")) "2025-01-01T00:00:00Z"
    = Some (Ok p) /\
    Verdict p = "Jew" /\ Verdict p <> "Not a Jew".
Proof.
  eexists. split; [vm_compute; reflexivity|]. split; [reflexivity|discriminate].
Qed.


(** ** The cut of the body text *)







Lemma take_all s : take (String.length s) s = s.
Proof. induction s as [|c t IH]; cbn; [reflexivity|]. rewrite IH. reflexivity. Qed.











End Extractor.

(** * The harvest coordinator *)

Section Coordinator.
Import GoStrings Client Spec.

(** ** The merge step *)

Lemma needsUpdate_differs existing profile :
  needsUpdate existing profile = true <->
  (Verdict existing <> Verdict profile \/
   Description existing <> Description profile \/
   length (Pros existing) <> length (Pros profile) \/
   length (Cons existing) <> length (Cons profile)).
Proof.
  unfold needsUpdate.
  rewrite !orb_true_iff, !negb_true_iff, !String.eqb_neq, !Nat.eqb_neq.
  tauto.
Qed.

(** C1: when the identity of the fetched record is already in the record
    set, the merge step classifies it as updated exactly when the
    verdict, the description, the number of pros or the number of cons
    differs from the stored record.  Then the record stored under that
    identity becomes the fetched one, with the creation time of the old
    one and the update time just read.  Otherwise the fetched record is
    classified unchanged and the record set is left as it was. *)
Theorem merge_classifies now profile (profiles : gmap string Profile) existing :
  profiles !! Name profile = Some existing ->
  let differs :=
    Verdict existing <> Verdict profile \/
    Description existing <> Description profile \/
    length (Pros existing) <> length (Pros profile) \/
    length (Cons existing) <> length (Cons profile) in
  (snd (mergeProfile now profile profiles) = Updated <-> differs) /\
  (differs ->
   mergeProfile now profile profiles
   = (<[Name profile :=
          setUpdatedAt now (setCreatedAt (CreatedAt existing) profile)]> profiles,
      Updated)) /\
  (~ differs -> mergeProfile now profile profiles = (profiles, Unchanged)).
Proof.
  intros Hex differs. unfold mergeProfile. rewrite Hex.
  pose proof (needsUpdate_differs existing profile) as Hd. fold differs in Hd.
  destruct (needsUpdate existing profile); cbn.
  - split; [tauto|]. split; [reflexivity|]. intros Hn. exfalso. apply Hn, Hd. reflexivity.
  - split; [|split].
    + split; [discriminate|]. intros H. apply Hd in H. discriminate.
    + intros H. apply Hd in H. discriminate.
    + reflexivity.
Qed.


(** An instance: a fetched record whose verdict differs from the stored
    one is classified as updated. *)
Lemma merge_classifies_witness :
  let stored :=
    mkProfile "Ada" "u" "Jew" "d" [] [] 1%float "" "" "2024-01-01T00:00:00Z"
      "2024-01-01T00:00:00Z" in
  let fetched :=
    mkProfile "Ada" "u" "Not a Jew" "d" [] [] 1%float "" ""
      "2025-01-01T00:00:00Z" "2025-01-01T00:00:00Z" in
  snd (mergeProfile "2025-01-01T00:00:01Z" fetched {["Ada" := stored]}) = Updated.
Proof.
  cbv zeta.
  apply (merge_classifies "2025-01-01T00:00:01Z"
           (mkProfile "Ada" "u" "Not a Jew" "d" [] [] 1%float "" ""
              "2025-01-01T00:00:00Z" "2025-01-01T00:00:00Z")
           {["Ada" :=
               mkProfile "Ada" "u" "Jew" "d" [] [] 1%float "" ""
                 "2024-01-01T00:00:00Z" "2024-01-01T00:00:00Z"]}
           (mkProfile "Ada" "u" "Jew" "d" [] [] 1%float "" ""
              "2024-01-01T00:00:00Z" "2024-01-01T00:00:00Z")).
  - reflexivity.
  - left. cbn. discriminate.
Defined.

(** ** Identities *)

Lemma mergeProfile_dom now profile (m : gmap string Profile) :
  dom (fst (mergeProfile now profile m)) = {[Name profile]} ∪ dom m.
Proof.
  unfold mergeProfile. destruct (m !! Name profile) as [existing|] eqn:E.
  - assert (Name profile ∈ dom m) by (apply elem_of_dom; eauto).
    destruct (needsUpdate existing profile); cbn.
    + rewrite dom_insert_L. reflexivity.
    + set_solver.
  - cbn. apply dom_insert_L.
Qed.

Lemma step_profiles s e s' :
  step s e = Some s' ->
  profiles s' = profiles s \/
  exists id now profile,
    e = Merge id now /\ workers s !! id = Some (Counted profile) /\
    profiles s' = fst (mergeProfile now profile (profiles s)).
Proof.
  destruct e as [| |id resp clueOrder now|id|id now|id|id]; cbn.
  - destruct (loop s); try discriminate. cases; intros [= <-]; left; reflexivity.
  - destruct (loop s); try discriminate. cases; [|discriminate].
    intros [= <-]; left; reflexivity.
  - destruct (workers s !! id) as [[]|]; try discriminate.
    destruct (scrapeProfile _ _ _ _ _); cbn; [|discriminate].
    intros [= <-]; left; reflexivity.
  - destruct (workers s !! id) as [[]|]; try discriminate;
      intros [= <-]; left; reflexivity.
  - destruct (workers s !! id) as [[]|] eqn:E; try discriminate.
    destruct (mergeProfile now profile (profiles s)) as [m outcome] eqn:Em.
    intros [= <-]. right. exists id, now, profile. rewrite Em.
    split; [reflexivity|]. split; [exact E|reflexivity].
  - destruct (workers s !! id) as [[| | | | |[]|]|]; try discriminate;
      intros [= <-]; left; reflexivity.
  - destruct (workers s !! id) as [[]|]; try discriminate.
    intros [= <-]; left; reflexivity.
Qed.

Lemma step_dom s e s' :
  step s e = Some s' -> dom (profiles s) ⊆ dom (profiles s').
Proof.
  intros H. destruct (step_profiles _ _ _ H) as [->|(id & now & p & _ & _ & ->)].
  - reflexivity.
  - rewrite mergeProfile_dom. set_solver.
Qed.

(** C10: along a run the set of identities of the record set only grows:
    every identity present before a sequence of steps is present after
    it; and a merge step leaves as identities those it found and the
    identity of the record it merges, which it inserts or replaces. *)
Theorem identities_only_grow s events s' :
  run s events = Some s' ->
  dom (profiles s) ⊆ dom (profiles s') /\
  (forall now profile (m : gmap string Profile),
      dom (fst (mergeProfile now profile m)) = {[Name profile]} ∪ dom m).
Proof.
  intros H. split; [|intros; apply mergeProfile_dom].
  revert s H. induction events as [|e events IH]; intros s; cbn.
  - intros [= ->]. reflexivity.
  - destruct (step s e) as [s1|] eqn:E; [|discriminate].
    intros H. transitivity (dom (profiles s1)); [eapply step_dom, E|apply IH, H].
Qed.

(** An instance: the first three pages of a run from an empty record
    set. *)
Lemma identities_only_grow_witness :
  match run (start site ∅) (sweep 3 1) with
  | Some s' => dom (profiles (start site ∅)) ⊆ dom (profiles s')
  | None => False
  end.
Proof.
  destruct (run (start site ∅) (sweep 3 1)) as [s'|] eqn:E.
  - exact (proj1 (identities_only_grow _ _ _ E)).
  - vm_compute in E. discriminate.
Defined.


(** ** Timestamps *)

Lemma scrapeProfile_stamps baseURL clueOrder id resp now p :
  scrapeProfile baseURL clueOrder id resp now = Some (Ok p) ->
  CreatedAt p = now /\ UpdatedAt p = now.
Proof.
  unfold scrapeProfile. destruct resp; try discriminate.
  destruct (parseProfile _ _ _ _); cbn; [|discriminate].
  intros [= <-]. split; reflexivity.
Qed.

Lemma mergeProfile_updated now profile (m m' : gmap string Profile) existing :
  m !! Name profile = Some existing ->
  mergeProfile now profile m = (m', Updated) ->
  m' !! Name profile
  = Some (setUpdatedAt now (setCreatedAt (CreatedAt existing) profile)).
Proof.
  intros Hex. unfold mergeProfile. rewrite Hex.
  destruct (needsUpdate existing profile); [|discriminate].
  intros [= <-]. cbn. apply lookup_insert_eq.
Qed.

Section Clock.
Context (before : string -> string -> Prop).
Context (before_refl : forall t, before t t).
Context (before_trans : forall a b c, before a b -> before b c -> before a c).

Lemma timely_later c c' p : before c c' -> timely before c p -> timely before c' p.
Proof. intros Hc [H1 H2]. split; [exact H1|]. eapply before_trans; eassumption. Qed.

Lemma allTimely_later c c' s : before c c' -> allTimely before c s -> allTimely before c' s.
Proof.
  intros Hc [Hp Hw]. split.
  - intros name p H. eapply timely_later; [exact Hc|]. eapply Hp, H.
  - intros id w p H1 H2. eapply timely_later; [exact Hc|]. eapply Hw; eassumption.
Qed.

Lemma allTimely_worker c s id w :
  allTimely before c s ->
  (forall p, carried w = Some p -> timely before c p) ->
  allTimely before c (setWorker id w s).
Proof.
  intros [Hp Hw] Hnew. split; [exact Hp|].
  intros id' w' p. cbn. rewrite lookup_insert.
  destruct (decide (id = id')) as [->|Hne].
  - intros [= <-]. apply Hnew.
  - apply Hw.
Qed.

Lemma allTimely_counters c s a1 a2 a3 a4 a5 a6 :
  allTimely before c s -> allTimely before c (addCounters a1 a2 a3 a4 a5 a6 s).
Proof. intros H. exact H. Qed.

Lemma mergeProfile_timely now profile (m : gmap string Profile) :
  (forall name p, m !! name = Some p -> timely before now p) ->
  timely before now profile ->
  forall name p, fst (mergeProfile now profile m) !! name = Some p ->
                 timely before now p.
Proof.
  intros Hm Hp name p. unfold mergeProfile.
  destruct (m !! Name profile) as [existing|] eqn:E.
  - destruct (needsUpdate existing profile); cbn; [|apply Hm].
    rewrite lookup_insert. destruct (decide (Name profile = name)) as [_|_]; [|apply Hm].
    intros [= <-]. destruct (Hm _ _ E) as [_ H2]. split; cbn; exact H2.
  - cbn. rewrite lookup_insert.
    destruct (decide (Name profile = name)) as [_|_]; [|apply Hm].
    intros [= <-]. exact Hp.
Qed.

(** A step keeps the records timely: for the clock as it was when the
    step reads none, for its reading when it reads one that is not
    before the last. *)
Lemma step_timely c s e s' :
  allTimely before c s -> step s e = Some s' ->
  match readings [e] with
  | now :: _ => before c now -> allTimely before now s'
  | [] => allTimely before c s'
  end.
Proof.
  intros Hinv. destruct e as [| |id resp clueOrder now|id|id now|id|id]; cbn.
  - destruct (loop s); try discriminate. cases; intros [= <-]; exact Hinv.
  - destruct (loop s); try discriminate. cases; [|discriminate].
    intros [= <-]. apply (allTimely_worker c (setLoop _ s)); [exact Hinv|].
    discriminate.
  - destruct (workers s !! id) as [[]|]; try discriminate.
    destruct (scrapeProfile _ _ _ _ _) as [r|] eqn:Er; cbn; [|discriminate].
    intros [= <-] Hc. apply allTimely_worker.
    + eapply allTimely_later; eassumption.
    + destruct r as [p|]; cbn; [|discriminate].
      destruct (scrapeProfile_stamps _ _ _ _ _ _ Er) as [H1 H2].
      cases; cbn; try discriminate. intros q [= <-].
      split; rewrite H1, ?H2; apply before_refl.
  - destruct (workers s !! id) as [[]|] eqn:E; try discriminate;
      intros [= <-]; apply allTimely_worker;
      try apply allTimely_counters; try exact Hinv; try discriminate.
    cbn. intros q [= <-]. eapply (proj2 Hinv); [exact E|reflexivity].
  - destruct (workers s !! id) as [[]|] eqn:E; try discriminate.
    destruct (mergeProfile now profile (profiles s)) as [m outcome] eqn:Em.
    intros [= <-] Hc.
    pose proof (allTimely_later _ _ _ Hc Hinv) as [Hp Hw].
    apply allTimely_worker; [|discriminate]. split; [|exact Hw].
    cbn. replace m with (fst (mergeProfile now profile (profiles s)))
      by (rewrite Em; reflexivity).
    apply mergeProfile_timely; [exact Hp|].
    eapply Hw; [exact E|reflexivity].
  - destruct (workers s !! id) as [[| | | | |[]|]|]; try discriminate;
      intros [= <-]; apply allTimely_worker;
      try apply allTimely_counters; try exact Hinv; discriminate.
  - destruct (workers s !! id) as [[]|]; try discriminate.
    intros [= <-]. destruct Hinv as [Hp Hw]. split; [exact Hp|].
    intros id' w p. cbn. rewrite lookup_delete.
    destruct (decide (id = id')); [discriminate|apply Hw].
Qed.

Lemma readings_cons e events :
  readings (e :: events) = (readings [e] ++ readings events)%list.
Proof. destruct e; reflexivity. Qed.

Lemma run_timely events : forall c s s',
  allTimely before c s -> ascending before c (readings events) ->
  run s events = Some s' -> exists c', allTimely before c' s'.
Proof.
  induction events as [|e events IH]; intros c s s' Hinv Hasc; cbn [run].
  - intros [= <-]. exists c. exact Hinv.
  - destruct (step s e) as [s1|] eqn:E; [|discriminate].
    intros Hrun. pose proof (step_timely c s e s1 Hinv E) as Hstep.
    rewrite readings_cons in Hasc.
    destruct (readings [e]) as [|now rest] eqn:Er.
    + eapply IH; [exact Hstep|exact Hasc|exact Hrun].
    + assert (rest = []) as -> by (destruct e; cbn in Er; congruence).
      cbn in Hasc. destruct Hasc as [Hc Hasc].
      eapply IH; [exact (Hstep Hc)|exact Hasc|exact Hrun].
Qed.

(** C2, as the code has it: take an order of the timestamps that is
    reflexive and transitive, a record set in which every record is
    created no later than it is updated and no later than the clock at
    the start of the run, and a run whose readings of the clock never go
    back.  Then at every point of the run every record of the set is
    created no later than it is updated.  And a merge step that replaces
    the record of an existing identity stores a record with the creation
    time of the record it replaces, and with the time just read as its
    update time, whatever the record set and the clock. *)
Theorem timestamps_ordered baseURL (profiles0 : gmap string Profile) c0 events s :
  (forall name p, profiles0 !! name = Some p -> timely before c0 p) ->
  ascending before c0 (readings events) ->
  run (start baseURL profiles0) events = Some s ->
  (forall name p, profiles s !! name = Some p ->
                  before (CreatedAt p) (UpdatedAt p)) /\
  (forall now profile (m m' : gmap string Profile) existing,
      m !! Name profile = Some existing ->
      mergeProfile now profile m = (m', Updated) ->
      exists stored,
        m' !! Name profile = Some stored /\
        CreatedAt stored = CreatedAt existing /\ UpdatedAt stored = now).
Proof.
  intros H0 Hasc Hrun. split.
  - destruct (run_timely events c0 (start baseURL profiles0) s) as [c' [Hp _]];
      [|exact Hasc|exact Hrun|].
    + split; [exact H0|]. intros id w p. cbn. rewrite lookup_empty. discriminate.
    + intros name p H. exact (proj1 (Hp name p H)).
  - intros now profile m m' existing Hex Hm. eexists. split.
    + eapply mergeProfile_updated; eassumption.
    + split; reflexivity.
Qed.

End Clock.


Lemma lexBefore_refl t : lexBefore t t.
Proof.
  unfold lexBefore, String.leb.
  replace (String.compare t t) with Eq; [reflexivity|].
  induction t as [|x t IH]; cbn; [reflexivity|].
  unfold Ascii.compare. rewrite N.compare_refl. exact IH.
Qed.

Lemma lexBefore_trans a : forall b c, lexBefore a b -> lexBefore b c -> lexBefore a c.
Proof.
  unfold lexBefore, String.leb.
  induction a as [|x a IH]; intros [|y b] [|z c]; cbn; try (intros; congruence).
  unfold Ascii.compare.
  destruct (N.compare_spec (N_of_ascii x) (N_of_ascii y)),
    (N.compare_spec (N_of_ascii y) (N_of_ascii z)),
    (N.compare_spec (N_of_ascii x) (N_of_ascii z));
    try lia; try (intros; congruence).
  apply IH.
Qed.

(** An instance: a run from a record set loaded from disk, holding a
    record of June 2024; the page of that record is fetched at noon of
    the first of January 2025 and merged one second later, through the
    update branch; the timestamps in byte-wise order. *)
Lemma timestamps_ordered_witness :
  match run (start site (loaded "2024-06-01T08:00:00Z"))
          (revisit noon "2025-01-01T12:00:01Z") with
  | Some s =>
      forall name p, profiles s !! name = Some p ->
                     lexBefore (CreatedAt p) (UpdatedAt p)
  | None => False
  end.
Proof.
  destruct (run (start site (loaded "2024-06-01T08:00:00Z"))
              (revisit noon "2025-01-01T12:00:01Z")) as [s|] eqn:E.
  - refine (proj1 (timestamps_ordered lexBefore lexBefore_refl lexBefore_trans
                     site (loaded "2024-06-01T08:00:00Z") "2025-01-01T00:00:00Z"
                     (revisit noon "2025-01-01T12:00:01Z") s _ _ E)).
    + intros name p H. unfold loaded in H.
      apply lookup_singleton_Some in H. destruct H as [_ <-].
      vm_compute. split; reflexivity.
    + vm_compute. repeat split.
  - vm_compute in E. discriminate.
Defined.

(** C2, counterexample: the run of the instance above stores the
    creation time of the record loaded and the time of the merge.  From
    a record set whose record carries a time of 2030, itself created no
    later than updated, the same run stores a record created in 2030 and
    updated in 2025: in the record set after the run, a record is created
    later than it is updated. *)
Lemma timestamps_disordered :
  stamps (person 1)
    (run (start site (loaded "2024-06-01T08:00:00Z"))
       (revisit noon "2025-01-01T12:00:01Z"))
  = Some ("2024-06-01T08:00:00Z", "2025-01-01T12:00:01Z") /\
  (forall name p, loaded "2030-01-01T00:00:00Z" !! name = Some p ->
                  lexBefore (CreatedAt p) (UpdatedAt p)) /\
  ascending lexBefore noon (readings (revisit noon "2025-01-01T12:00:01Z")) /\
  stamps (person 1)
    (run (start site (loaded "2030-01-01T00:00:00Z"))
       (revisit noon "2025-01-01T12:00:01Z"))
  = Some ("2030-01-01T00:00:00Z", "2025-01-01T12:00:01Z") /\
  ~ lexBefore "2030-01-01T00:00:00Z" "2025-01-01T12:00:01Z".
Proof.
  split; [vm_compute; reflexivity|]. split.
  - intros name p H. unfold loaded in H.
    apply lookup_singleton_Some in H. destruct H as [_ <-].
    vm_compute. reflexivity.
  - split; [vm_compute; repeat split|].
    split; [vm_compute; reflexivity|]. vm_compute. discriminate.
Qed.


(** ** Counters and the end of the dispatch loop *)

Lemma pending_comm (j1 j2 : Z) (z1 z2 : Worker) (y : Z) :
  inDoubt z1 + (inDoubt z2 + y) = inDoubt z2 + (inDoubt z1 + y).
Proof. lia. Qed.

Lemma pending_empty : pending ∅ = 0.
Proof. unfold pending. apply map_fold_empty. Qed.

Lemma pending_lookup (ws : gmap Z Worker) id w :
  ws !! id = Some w -> pending ws = inDoubt w + pending (delete id ws).
Proof.
  intros H. unfold pending.
  apply (map_fold_delete_L (fun _ w n => inDoubt w + n)); [|exact H].
  intros. apply pending_comm; assumption.
Qed.

Lemma pending_fresh (ws : gmap Z Worker) id w :
  ws !! id = None -> pending (<[id := w]> ws) = inDoubt w + pending ws.
Proof.
  intros H. unfold pending.
  apply (map_fold_insert_L (fun _ w n => inDoubt w + n)); [|exact H].
  intros. apply pending_comm; assumption.
Qed.

Lemma pending_insert (ws : gmap Z Worker) id w :
  pending (<[id := w]> ws) = inDoubt w + pending (delete id ws).
Proof.
  rewrite <- (insert_delete_eq ws). apply pending_fresh. apply lookup_delete_eq.
Qed.

Lemma pending_change (ws : gmap Z Worker) id w w' :
  ws !! id = Some w ->
  pending (<[id := w']> ws) = pending ws - inDoubt w + inDoubt w'.
Proof.
  intros H. rewrite pending_insert, (pending_lookup ws id w H). lia.
Qed.

Lemma pending_nonneg (ws : gmap Z Worker) : 0 <= pending ws.
Proof.
  unfold pending.
  apply (map_fold_weak_ind (fun n _ => 0 <= n)); [lia|].
  intros id w m r _ H. destruct w; cbn; lia.
Qed.

Lemma lookup_insert_is_Some' (ws : gmap Z Worker) id w k :
  is_Some (<[id := w]> ws !! k) -> k = id \/ is_Some (ws !! k).
Proof.
  rewrite lookup_insert. destruct (decide (id = k)); [left; congruence|right; assumption].
Qed.

Lemma step_accounted s e s' : accounted s -> step s e = Some s' -> accounted s'.
Proof.
  unfold accounted. intros (Hsum & Hskip & Hids).
  destruct e as [| |id resp clueOrder now|id|id now|id|id]; cbn.
  - destruct (loop s); try discriminate. cases; intros [= <-]; cbn; tauto.
  - destruct (loop s) as [|id|] eqn:El; try discriminate. cases; [|discriminate].
    intros [= <-]; cbn. split; [|split; [lia|]].
    + rewrite pending_fresh; [cbn; lia|].
      destruct (workers s !! id) eqn:E; [|reflexivity].
      assert (id < id) by (apply Hids; eauto). lia.
    + intros k Hk. apply lookup_insert_is_Some' in Hk.
      destruct Hk as [->|Hk]; [lia|]. specialize (Hids k Hk). lia.
  - destruct (workers s !! id) as [[]|] eqn:E; try discriminate.
    destruct (scrapeProfile _ _ _ _ _) as [r|]; cbn; [|discriminate].
    intros [= <-]; cbn. split; [|split; [lia|]].
    + rewrite (pending_change _ _ _ _ E). cbn.
      destruct r as [p|]; cbn; [|lia]. cases; cbn; lia.
    + destruct (loop s); try exact I; intros k Hk;
        apply lookup_insert_is_Some' in Hk;
        (destruct Hk as [->|Hk]; [apply Hids; eauto|apply Hids, Hk]).
  - destruct (workers s !! id) as [[]|] eqn:E; try discriminate;
      intros [= <-]; cbn; (split; [|split; [lia|]]);
      try (rewrite (pending_change _ _ _ _ E); cbn; lia);
      destruct (loop s); try exact I; intros k Hk;
        apply lookup_insert_is_Some' in Hk;
        (destruct Hk as [->|Hk]; [apply Hids; eauto|apply Hids, Hk]).
  - destruct (workers s !! id) as [[]|] eqn:E; try discriminate.
    destruct (mergeProfile now profile (profiles s)) as [m outcome].
    intros [= <-]; cbn. split; [|split; [lia|]].
    + rewrite (pending_change _ _ _ _ E). cbn. lia.
    + destruct (loop s); try exact I; intros k Hk;
        apply lookup_insert_is_Some' in Hk;
        (destruct Hk as [->|Hk]; [apply Hids; eauto|apply Hids, Hk]).
  - destruct (workers s !! id) as [[| | | | |[]|]|] eqn:E; try discriminate;
      intros [= <-]; cbn; (split; [|split; [lia|]]);
      try (rewrite (pending_change _ _ _ _ E); cbn; lia);
      destruct (loop s); try exact I; intros k Hk;
        apply lookup_insert_is_Some' in Hk;
        (destruct Hk as [->|Hk]; [apply Hids; eauto|apply Hids, Hk]).
  - destruct (workers s !! id) as [[]|] eqn:E; try discriminate.
    intros [= <-]; cbn. split; [|split; [lia|]].
    + rewrite (pending_lookup _ _ _ E) in Hsum. cbn in Hsum. lia.
    + destruct (loop s); try exact I; intros k Hk; apply Hids;
        (rewrite lookup_delete in Hk; destruct (decide (id = k));
         [destruct Hk; discriminate|exact Hk]).
Qed.

Lemma run_accounted events : forall s s',
  accounted s -> run s events = Some s' -> accounted s'.
Proof.
  induction events as [|e events IH]; intros s s' Hacc; cbn.
  - intros [= <-]. exact Hacc.
  - destruct (step s e) as [s1|] eqn:E; [|discriminate].
    apply IH. eapply step_accounted; eassumption.
Qed.

Lemma start_accounted baseURL (profiles0 : gmap string Profile) :
  accounted (start baseURL profiles0).
Proof.
  unfold accounted. cbn. rewrite pending_empty. split; [lia|]. split; [lia|].
  intros k [w Hw]. rewrite lookup_empty in Hw. discriminate.
Qed.

Lemma step_success s e s' :
  step s e = Some s' -> successCounter s <= successCounter s'.
Proof.
  destruct e as [| |id resp clueOrder now|id|id now|id|id]; cbn.
  - destruct (loop s); try discriminate. cases; intros [= <-]; cbn; lia.
  - destruct (loop s); try discriminate. cases; [|discriminate].
    intros [= <-]; cbn; lia.
  - destruct (workers s !! id) as [[]|]; try discriminate.
    destruct (scrapeProfile _ _ _ _ _); cbn; [|discriminate].
    intros [= <-]; cbn; lia.
  - destruct (workers s !! id) as [[]|]; try discriminate; intros [= <-]; cbn; lia.
  - destruct (workers s !! id) as [[]|]; try discriminate.
    destruct (mergeProfile _ _ _). intros [= <-]; cbn; lia.
  - destruct (workers s !! id) as [[| | | | |[]|]|]; try discriminate;
      intros [= <-]; cbn; lia.
  - destruct (workers s !! id) as [[]|]; try discriminate. intros [= <-]; cbn; lia.
Qed.

(** Once the count of successes has reached the target, what is still
    dispatched is what had passed the test already. *)
Lemma run_after_target events : forall s s',
  totalProfiles <= successCounter s -> run s events = Some s' ->
  (dispatches events <= budget (loop s))%nat.
Proof.
  induction events as [|e events IH]; intros s s' Hs; cbn [run].
  - intros _. cbn. lia.
  - destruct (step s e) as [s1|] eqn:E; [|discriminate].
    intros Hrun. pose proof (step_success _ _ _ E) as Hmono.
    specialize (IH s1 s' ltac:(lia) Hrun).
    unfold dispatches in *. cbn [List.filter].
    destruct e as [| |id resp clueOrder now|id|id now|id|id]; cbn in E;
      cbn [isDispatch length].
    + destruct (loop s) as [id| |]; try discriminate.
      destruct (id <=? maxID).
      * rewrite (proj2 (Z.leb_le _ _) Hs) in E. injection E as <-.
        cbn in IH. cbn. lia.
      * injection E as <-. cbn in IH. cbn. lia.
    + destruct (loop s) as [|id|]; try discriminate.
      destruct (bool_decide _); [|discriminate]. injection E as <-.
      cbn in IH. cbn. lia.
    + destruct (workers s !! id) as [[]|]; try discriminate.
      destruct (scrapeProfile _ _ _ _ _); cbn in E; [|discriminate].
      injection E as <-. exact IH.
    + destruct (workers s !! id) as [[]|]; try discriminate;
        injection E as <-; exact IH.
    + destruct (workers s !! id) as [[]|]; try discriminate.
      destruct (mergeProfile _ _ _). injection E as <-. exact IH.
    + destruct (workers s !! id) as [[| | | | |[]|]|]; try discriminate;
        injection E as <-; exact IH.
    + destruct (workers s !! id) as [[]|]; try discriminate.
      injection E as <-. exact IH.
Qed.

(** C6, as the code has it: the test at the top of the loop is on the
    count of successful fetches, in which the unchanged records count as
    the new and the updated ones do; an identifier is dispatched only
    after it has passed that test; the count of new or updated records
    never exceeds the count of successes; and once the count of successes
    has reached the target, hence once the count of new or updated
    records has, at most one more identifier is dispatched: the one whose
    test had passed before. *)
Theorem dispatch_stops_on_success baseURL (profiles0 : gmap string Profile)
    events s :
  run (start baseURL profiles0) events = Some s ->
  (forall id s', loop s = AtCheck id -> step s Check = Some s' ->
     loop s' = if (id <=? maxID) && negb (totalProfiles <=? successCounter s)
               then Passed id else Finished) /\
  (forall s', step s Dispatch = Some s' -> exists id, loop s = Passed id) /\
  newCounter s + updatedCounter s <= successCounter s /\
  (forall later s',
     totalProfiles <= successCounter s -> run s later = Some s' ->
     (dispatches later <= budget (loop s))%nat /\ (dispatches later <= 1)%nat).
Proof.
  intros Hrun. repeat split.
  - intros id s' Hl. cbn. rewrite Hl.
    destruct (id <=? maxID), (totalProfiles <=? successCounter s); cbn;
      intros [= <-]; reflexivity.
  - intros s'. cbn. destruct (loop s) as [|id|]; try discriminate. eauto.
  - pose proof (run_accounted _ _ _ (start_accounted baseURL profiles0) Hrun)
      as (Hsum & Hskip & _).
    pose proof (pending_nonneg (workers s)). lia.
  - eapply run_after_target; eassumption.
  - pose proof (run_after_target later s s' H H0) as Hb.
    destruct (loop s); cbn in Hb; lia.
Qed.

(** What the two example runs come to. *)
Lemma race_observed :
  observe (run (start site ∅) raceEvents)
  = Some (3622, 3622, Passed 3623, true).
Proof. vm_compute. reflexivity. Qed.

Lemma rerun_observed :
  observe (run (start site firstRun) fullSweep) = Some (0, 3622, Finished, false).
Proof. vm_compute. reflexivity. Qed.

(** An instance: after the run in which two workers bring their record
    in while the test of the next identifier has passed, the count of new
    or updated records is within the count of successes. *)
Lemma dispatch_stops_on_success_witness :
  match run (start site ∅) raceEvents with
  | Some s => newCounter s + updatedCounter s <= successCounter s
  | None => False
  end.
Proof.
  pose proof race_observed as Hobs.
  destruct (run (start site ∅) raceEvents) as [s|] eqn:E.
  - exact (proj1 (proj2 (proj2 (dispatch_stops_on_success site ∅ raceEvents s E)))).
  - discriminate.
Defined.

(** C6, counterexample: a run from an empty record set reaches a state in
    which the count of new or updated records equals the target and the
    next identifier is dispatched all the same; and a second run over an
    unchanged site leaves the loop with no record new or updated. *)
Lemma dispatch_after_target :
  (exists s s',
      run (start site ∅) raceEvents = Some s /\
      newCounter s + updatedCounter s = totalProfiles /\
      step s Dispatch = Some s') /\
  (exists s,
      run (start site firstRun) fullSweep = Some s /\
      loop s = Finished /\ newCounter s + updatedCounter s = 0).
Proof.
  split.
  - pose proof race_observed as Hobs.
    destruct (run (start site ∅) raceEvents) as [s|]; [|discriminate].
    cbn in Hobs. injection Hobs as Hn _ _ Hd.
    apply bool_decide_eq_true_1 in Hd. destruct Hd as [s' Hs'].
    exists s, s'. repeat split; assumption.
  - pose proof rerun_observed as Hobs.
    destruct (run (start site firstRun) fullSweep) as [s|]; [|discriminate].
    cbn in Hobs. injection Hobs as Hn _ Hl _.
    exists s. repeat split; assumption.
Qed.

End Coordinator.


(** * The record set and its accessors *)

Section Store.
Import GoStrings Client Spec.

Lemma ranged_filter keep (m : gmap string Profile) :
  ranged keep m = List.filter keep (snd <$> map_to_list m).
Proof.
  unfold ranged.
  assert (G : forall l acc,
    fold_left (fun results (entry : string * Profile) =>
                 let profile := snd entry in
                 if keep profile then (results ++ [profile])%list else results)
      l acc = (acc ++ List.filter keep (snd <$> l))%list).
  { induction l as [|[k p] l IH]; intros acc; cbn.
    - rewrite app_nil_r. reflexivity.
    - rewrite IH. destruct (keep p); [|reflexivity].
      rewrite <- app_assoc. reflexivity. }
  apply G.
Qed.

Lemma ranged_spec keep (m : gmap string Profile) p :
  In p (ranged keep m) <-> (exists k, m !! k = Some p) /\ keep p = true.
Proof.
  rewrite ranged_filter, filter_In, <- list_elem_of_In, list_elem_of_fmap.
  split.
  - intros [([k q] & -> & Hin) Hk]. split; [|exact Hk].
    exists k. apply elem_of_map_to_list. exact Hin.
  - intros [[k Hk] Hp]. split; [|exact Hp].
    exists (k, p). split; [reflexivity|]. apply elem_of_map_to_list. exact Hk.
Qed.

Lemma Contains_empty s : Contains s EmptyString = true.
Proof. destruct s; reflexivity. Qed.

Lemma HasPrefix_refl s : HasPrefix s s = true.
Proof.
  induction s as [|c s IH]; cbn; [reflexivity|].
  rewrite Ascii.eqb_refl. exact IH.
Qed.

Lemma Contains_refl s : Contains s s = true.
Proof.
  destruct s; cbn; [reflexivity|].
  rewrite Ascii.eqb_refl, HasPrefix_refl. reflexivity.
Qed.

Lemma HasPrefix_lowerASCII sub : forall s,
  HasPrefix s sub = true -> HasPrefix (lowerASCII s) (lowerASCII sub) = true.
Proof.
  induction sub as [|c sub IH]; intros [|d s]; cbn; try (reflexivity || discriminate).
  intros H. apply andb_prop in H. destruct H as [Hc Hs].
  apply Ascii.eqb_eq in Hc. subst d. rewrite Ascii.eqb_refl. cbn. apply IH, Hs.
Qed.

Lemma Contains_lowerASCII sub : forall s,
  Contains s sub = true -> Contains (lowerASCII s) (lowerASCII sub) = true.
Proof.
  induction s as [|d s IH].
  - destruct sub; cbn; [reflexivity|discriminate].
  - intros H. cbn [Contains] in H. apply orb_prop in H.
    cbn [lowerASCII Contains]. apply orb_true_intro. destruct H as [H|H].
    + left. apply (HasPrefix_lowerASCII sub (String d s)), H.
    + right. apply IH, H.
Qed.

(** X1: adding a record and then asking for a name gives the record
    itself when it has a non-empty name and that name is asked for; for
    every other name, and when the record has the empty name, the answer
    is what it was before the addition (for a missing name, the error
    "profile not found"). *)
Theorem AddProfile_then_GetProfile (m : gmap string Profile) profile name :
  GetProfile (AddProfile (Some profile) m) name =
  if nonEmpty (Name profile) && String.eqb name (Name profile)
  then Ok profile else GetProfile m name.
Proof.
  unfold GetProfile, AddProfile.
  destruct (nonEmpty (Name profile)); cbn; [|reflexivity].
  destruct (String.eqb_spec name (Name profile)) as [->|Hne].
  - rewrite lookup_insert_eq. reflexivity.
  - rewrite lookup_insert_ne by congruence. reflexivity.
Qed.

(** X2: [ListProfiles] returns as many records as the record set holds,
    and a record is in the result exactly when it is held under some
    name. *)
Theorem ListProfiles_all (m : gmap string Profile) :
  length (ListProfiles m) = size m /\
  forall p, In p (ListProfiles m) <-> exists k, m !! k = Some p.
Proof.
  split.
  - unfold ListProfiles. rewrite ranged_filter.
    assert (G : forall l : list Profile, List.filter (fun _ => true) l = l).
    { induction l as [|x l IH]; cbn; [reflexivity|]. rewrite IH. reflexivity. }
    rewrite G, length_fmap. apply length_map_to_list.
  - intros p. unfold ListProfiles. rewrite ranged_spec. tauto.
Qed.

(** X3: [SearchProfiles] returns exactly the records held whose name or
    description contains the query, all in the lower case of
    [strings.ToLower]; so every record held is found by its own name,
    and the empty query returns what [ListProfiles] returns.  Letters
    past ASCII are lower-cased too: the query "émile" finds the record
    of "Émile Zola". *)
Theorem SearchProfiles_finds (m : gmap string Profile) query :
  (forall p, In p (SearchProfiles m query) <->
             (exists k, m !! k = Some p) /\
             (Contains (ToLower (Name p)) (ToLower query) = true \/
              Contains (ToLower (Description p)) (ToLower query) = true)) /\
  (forall k p, m !! k = Some p -> In p (SearchProfiles m (Name p))) /\
  SearchProfiles m EmptyString = ListProfiles m /\
  SearchProfiles {[ "Émile Zola" := recorded "Émile Zola" "Jew" noon ]} "émile"
  = [recorded "Émile Zola" "Jew" noon].
Proof.
  split; [|split; [|split]].
  - intros p. unfold SearchProfiles. rewrite ranged_spec, orb_true_iff. tauto.
  - intros k p Hk. unfold SearchProfiles. apply ranged_spec. split; [eauto|].
    rewrite Contains_refl. reflexivity.
  - unfold SearchProfiles, ListProfiles. rewrite !ranged_filter.
    change (ToLower EmptyString) with EmptyString.
    apply filter_ext. intros p. rewrite Contains_empty. reflexivity.
  - vm_compute. reflexivity.
Qed.

(** X4: [GetProfilesByVerdict] and [GetProfilesByCategory] return exactly
    the records held whose verdict, or category, contains the query as a
    substring, both in the lower case of [strings.ToLower]; so a record
    whose verdict contains the query as written is returned when both
    are ASCII, and the query "Jew" also returns every record whose
    verdict is "Not a Jew".  Past ASCII a query that is no valid UTF-8 is
    lower-cased to replacement characters and can miss a verdict that
    contains it as written: the byte 0x89 is the second byte of the
    capital E with an acute accent. *)
Theorem GetProfilesBy_substring (m : gmap string Profile) query :
  (forall p, In p (GetProfilesByVerdict m query) <->
             (exists k, m !! k = Some p) /\
             Contains (ToLower (Verdict p)) (ToLower query) = true) /\
  (forall p, In p (GetProfilesByCategory m query) <->
             (exists k, m !! k = Some p) /\
             Contains (ToLower (Category p)) (ToLower query) = true) /\
  (forall k p, m !! k = Some p ->
               isASCII (Verdict p) = true -> isASCII query = true ->
               Contains (Verdict p) query = true ->
               In p (GetProfilesByVerdict m query)) /\
  (forall k p, m !! k = Some p -> Verdict p = "Not a Jew" ->
               In p (GetProfilesByVerdict m "Jew")) /\
  (Contains "É" (String (ascii_of_N 137) EmptyString) = true /\
   GetProfilesByVerdict {[ "Ada" := recorded "Ada" "É" noon ]}
     (String (ascii_of_N 137) EmptyString) = []).
Proof.
  split; [|split; [|split; [|split]]].
  - intros p. unfold GetProfilesByVerdict. apply ranged_spec.
  - intros p. unfold GetProfilesByCategory. apply ranged_spec.
  - intros k p Hk Hv Hq Hc. unfold GetProfilesByVerdict. apply ranged_spec.
    split; [eauto|]. unfold ToLower. rewrite Hv, Hq.
    apply Contains_lowerASCII, Hc.
  - intros k p Hk Hv. unfold GetProfilesByVerdict. apply ranged_spec.
    split; [eauto|]. rewrite Hv. reflexivity.
  - split; vm_compute; reflexivity.
Qed.

Lemma keyed_insert (m : gmap string Profile) p :
  keyed m -> keyed (<[Name p := p]> m).
Proof.
  intros Hm k q. rewrite lookup_insert.
  destruct (decide (Name p = k)) as [<-|Hne]; [intros [= <-]; reflexivity|apply Hm].
Qed.

Lemma keyed_empty : keyed (∅ : gmap string Profile).
Proof. intros k p H. rewrite lookup_empty in H. discriminate. Qed.

Lemma loadFiles_keyed files : forall m : gmap string Profile,
  keyed m -> keyed (fst (loadFiles files m)) /\ dom m ⊆ dom (fst (loadFiles files m)).
Proof.
  induction files as [|file files IH]; intros m Hm; cbn.
  - split; [exact Hm|reflexivity].
  - destruct (IsDir file || negb (HasSuffix (FileName file) ".json")); [apply IH, Hm|].
    destruct (decoded file) as [[p|]|]; cbn; try (split; [exact Hm|reflexivity]).
    destruct (IH (<[Name p := p]> m) (keyed_insert m p Hm)) as [Hk Hd].
    split; [exact Hk|]. etransitivity; [|exact Hd]. rewrite dom_insert_L.
    apply union_subseteq_r.
Qed.

Lemma loadFiles_filter files : forall m : gmap string Profile,
  loadFiles (List.filter isProfileFile files) m = loadFiles files m.
Proof.
  induction files as [|file files IH]; intros m; cbn; [reflexivity|].
  unfold isProfileFile at 1.
  destruct (IsDir file) eqn:Ed; cbn; [apply IH|].
  destruct (HasSuffix (FileName file) ".json") eqn:E; cbn; [|apply IH].
  rewrite Ed, E. cbn. destruct (decoded file) as [[p|]|]; [apply IH|reflexivity|reflexivity].
Qed.

(** X5: [LoadFromDisk] holds every record it loads under the record's own
    name and drops no name that was held before, whether it ends with an
    error or not; and the entries of the directory that are directories
    or whose name does not end in ".json" have no effect on its
    result. *)
Theorem LoadFromDisk_keyed dir (m : gmap string Profile) :
  keyed m ->
  keyed (fst (LoadFromDisk dir m)) /\
  dom m ⊆ dom (fst (LoadFromDisk dir m)) /\
  LoadFromDisk (List.filter isProfileFile <$> dir) m = LoadFromDisk dir m.
Proof.
  intros Hm. destruct dir as [files|]; cbn.
  - destruct (loadFiles_keyed files m Hm) as [Hk Hd].
    split; [exact Hk|]. split; [exact Hd|]. apply loadFiles_filter.
  - split; [exact Hm|]. split; reflexivity.
Qed.

(** An instance: a directory with a subdirectory, a log file and the
    file of one record, loaded into an empty record set. *)
Lemma LoadFromDisk_keyed_witness :
  keyed (fst (LoadFromDisk dataDir ∅)) /\
  dom (∅ : gmap string Profile) ⊆ dom (fst (LoadFromDisk dataDir ∅)) /\
  LoadFromDisk (List.filter isProfileFile <$> dataDir) ∅ = LoadFromDisk dataDir ∅.
Proof.
  apply (LoadFromDisk_keyed dataDir ∅).
  intros k p H. rewrite lookup_empty in H. discriminate.
Defined.

End Store.


(** * The run of the harvest *)

Section Harvest.
Import GoStrings Client Spec.

Lemma step_Stepped s e s' : step s e = Some s' -> Stepped s e s'.
Proof.
  destruct e as [| |id resp clueOrder now|id|id now|id|id]; cbn.
  - destruct (loop s) as [id|id|] eqn:El; try discriminate.
    destruct (Z.leb_spec id maxID).
    + destruct (Z.leb_spec totalProfiles (successCounter s)); intros [= <-].
      * apply (CheckDone s id); [exact El|right; assumption].
      * apply (CheckPassed s id); assumption.
    + intros [= <-]. apply (CheckDone s id); [exact El|left; assumption].
  - destruct (loop s) as [id|id|] eqn:El; try discriminate.
    destruct (bool_decide_reflect (size (workers s) < concurrentRequests)%nat);
      [|discriminate].
    intros [= <-]. apply Dispatched; assumption.
  - destruct (workers s !! id) as [[]|] eqn:E; try discriminate.
    destruct (scrapeProfile _ _ _ _ _) as [r|] eqn:Er; cbn; [|discriminate].
    intros [= <-]. eapply Returned; eassumption.
  - destruct (workers s !! id) as [[]|] eqn:E; try discriminate; intros [= <-].
    + apply CountedFailed, E.
    + apply CountedSkipped, E.
    + apply CountedValid, E.
  - destruct (workers s !! id) as [[]|] eqn:E; try discriminate.
    destruct (mergeProfile now profile (profiles s)) as [m outcome] eqn:Em.
    intros [= <-].
    change m with (fst (m, outcome)). change outcome with (snd (m, outcome)) at 1.
    rewrite <- Em. apply MergedIn, E.
  - destruct (workers s !! id) as [[| | | | |outcome|]|] eqn:E; try discriminate.
    destruct outcome; intros [= <-]; apply (Reported s id _ E).
  - destruct (workers s !! id) as [[]|] eqn:E; try discriminate.
    intros [= <-]. apply Exited, E.
Qed.

Lemma Stepped_step s e s' : Stepped s e s' -> step s e = Some s'.
Proof.
  intros []; cbn; rewrite ?H, ?H0; cbn; try reflexivity.
  - destruct H0 as [H0|H0].
    + destruct (Z.leb_spec id maxID); [lia|reflexivity].
    + destruct (id <=? maxID); [|reflexivity].
      destruct (Z.leb_spec totalProfiles (successCounter s)); [reflexivity|lia].
  - destruct (Z.leb_spec id maxID); [|lia].
    destruct (Z.leb_spec totalProfiles (successCounter s)); [lia|reflexivity].
  - rewrite bool_decide_eq_true_2 by assumption. reflexivity.
  - destruct (mergeProfile now profile (profiles s)); reflexivity.
  - destruct outcome; reflexivity.
Qed.

Lemma run_invariant (P : State -> Prop) :
  (forall s e s', P s -> Stepped s e s' -> P s') ->
  forall events s s', P s -> run s events = Some s' -> P s'.
Proof.
  intros Hstep. induction events as [|e events IH]; intros s s' Hs; cbn.
  - intros [= <-]. exact Hs.
  - destruct (step s e) as [s1|] eqn:E; [|discriminate].
    apply IH. eapply Hstep; [exact Hs|]. apply step_Stepped, E.
Qed.

Lemma dispatches_cons e events :
  dispatches (e :: events)
  = ((if isDispatch e then 1 else 0) + dispatches events)%nat.
Proof. unfold dispatches. cbn. destruct (isDispatch e); reflexivity. Qed.

Lemma run_counting (P : State -> nat -> Prop) :
  (forall s e s' n, P s n -> Stepped s e s' ->
                    P s' (n + (if isDispatch e then 1 else 0))%nat) ->
  forall events s s' n,
    P s n -> run s events = Some s' -> P s' (n + dispatches events)%nat.
Proof.
  intros Hstep. induction events as [|e events IH]; intros s s' n Hs Hrun;
    cbn [run] in Hrun.
  - injection Hrun as <-. unfold dispatches. cbn. rewrite Nat.add_0_r. exact Hs.
  - destruct (step s e) as [s1|] eqn:E; [|discriminate].
    rewrite dispatches_cons, Nat.add_assoc.
    eapply IH; [|exact Hrun]. eapply Hstep; [exact Hs|]. apply step_Stepped, E.
Qed.

(** ** The semaphore *)

(** X6: along every run of the harvest from its start, whatever the
    interleaving, at most [concurrentRequests] (ten) workers are in
    flight, and the dispatch step cannot happen while ten are. *)
Theorem semaphore_bound baseURL (profiles0 : gmap string Profile) events s :
  run (start baseURL profiles0) events = Some s ->
  (size (workers s) <= concurrentRequests)%nat /\
  ((size (workers s) = concurrentRequests)%nat -> step s Dispatch = None).
Proof.
  intros Hrun. split.
  - revert Hrun.
    apply (run_invariant (fun s => (size (workers s) <= concurrentRequests)%nat));
      [|cbn; rewrite map_size_empty; unfold concurrentRequests; lia].
    clear. intros s e s' Hs []; try destruct outcome;
      cbn; rewrite ?map_size_insert_Some by eauto; try assumption.
    + rewrite map_size_insert. destruct (workers s !! id); cbn; lia.
    + rewrite map_size_delete. destruct (workers s !! id); cbn; lia.
  - intros Hfull. cbn. destruct (loop s); try reflexivity.
    rewrite bool_decide_eq_false_2; [reflexivity|lia].
Qed.

(** An instance: two identifiers in flight at once. *)
Lemma semaphore_bound_witness :
  match run (start site ∅) [Check; Dispatch; Check; Dispatch] with
  | Some s => (size (workers s) <= concurrentRequests)%nat
  | None => False
  end.
Proof.
  destruct (run (start site ∅) [Check; Dispatch; Check; Dispatch]) as [s|] eqn:E.
  - exact (proj1 (semaphore_bound _ _ _ _ E)).
  - vm_compute in E. discriminate.
Defined.

(** ** The identifiers *)

(** X7: the identifiers are dispatched in increasing order from 1 without
    a gap: after [n] dispatches the loop stands at identifier [n + 1]
    (unless it has been left), the workers in flight are those of
    identifiers between 1 and [n], and [n] is at most [maxID]
    (10000). *)
Theorem dispatch_in_order baseURL (profiles0 : gmap string Profile) events s :
  run (start baseURL profiles0) events = Some s ->
  Z.of_nat (dispatches events) <= maxID /\
  (forall k, is_Some (workers s !! k) -> 1 <= k <= Z.of_nat (dispatches events)) /\
  match loop s with
  | AtCheck id => id = Z.of_nat (dispatches events) + 1
  | Passed id => id = Z.of_nat (dispatches events) + 1
  | Finished => True
  end.
Proof.
  intros Hrun.
  pose (P := fun (s : State) (n : nat) =>
    Z.of_nat n <= maxID /\
    (forall k, is_Some (workers s !! k) -> 1 <= k <= Z.of_nat n) /\
    match loop s with
    | AtCheck id => id = Z.of_nat n + 1
    | Passed id => id = Z.of_nat n + 1 /\ id <= maxID
    | Finished => True
    end).
  assert (HP : P s (0 + dispatches events)%nat).
  { revert Hrun. apply (run_counting P).
    - clear. intros s e s' n (Hn & Hw & Hl) [];
        cbn [isDispatch]; rewrite ?Nat.add_0_r; unfold P; cbn;
        try (split; [exact Hn|split; [|first [exact I | exact Hl]]]).
      + exact Hw.
      + split; [exact Hn|]. split; [exact Hw|]. rewrite H in Hl. lia.
      + rewrite H in Hl. split; [lia|]. split; [|lia].
        intros k Hk. apply lookup_insert_is_Some' in Hk.
        destruct Hk as [->|Hk]; [lia|]. specialize (Hw k Hk). lia.
      + intros k Hk. apply lookup_insert_is_Some' in Hk.
        destruct Hk as [->|Hk]; apply Hw; eauto.
      + intros k Hk. apply lookup_insert_is_Some' in Hk.
        destruct Hk as [->|Hk]; apply Hw; eauto.
      + intros k Hk. apply lookup_insert_is_Some' in Hk.
        destruct Hk as [->|Hk]; apply Hw; eauto.
      + intros k Hk. apply lookup_insert_is_Some' in Hk.
        destruct Hk as [->|Hk]; apply Hw; eauto.
      + intros k Hk. apply lookup_insert_is_Some' in Hk.
        destruct Hk as [->|Hk]; apply Hw; eauto.
      + split; [exact Hn|]. split; [|destruct outcome; exact Hl].
        intros k Hk. destruct outcome; cbn in Hk;
          apply lookup_insert_is_Some' in Hk;
          (destruct Hk as [->|Hk]; apply Hw; eauto).
      + intros k Hk. apply Hw. rewrite lookup_delete in Hk.
        destruct (decide (id = k)); [destruct Hk; discriminate|exact Hk].
    - unfold P. cbn. unfold maxID. split; [lia|]. split; [|lia].
      intros k [w Hw]. rewrite lookup_empty in Hw. discriminate. }
  destruct HP as (Hn & Hw & Hl). cbn in Hn, Hw, Hl.
  split; [exact Hn|]. split; [exact Hw|].
  destruct (loop s); [exact Hl|apply Hl|exact I].
Qed.

(** An instance: three pages harvested one after the other. *)
Lemma dispatch_in_order_witness :
  match run (start site ∅) (sweep 3 1) with
  | Some s => Z.of_nat (dispatches (sweep 3 1)) <= maxID
  | None => False
  end.
Proof.
  destruct (run (start site ∅) (sweep 3 1)) as [s|] eqn:E.
  - exact (proj1 (dispatch_in_order _ _ _ _ E)).
  - vm_compute in E. discriminate.
Defined.

(** ** The counters *)

Lemma tally_empty weight : tally weight ∅ = 0.
Proof. unfold tally. apply map_fold_empty. Qed.

Lemma tally_lookup weight (ws : gmap Z Worker) id w :
  ws !! id = Some w -> tally weight ws = weight w + tally weight (delete id ws).
Proof.
  intros H. unfold tally.
  apply (map_fold_delete_L (fun _ w n => weight w + n)); [|exact H].
  intros. lia.
Qed.

Lemma tally_fresh weight (ws : gmap Z Worker) id w :
  ws !! id = None -> tally weight (<[id := w]> ws) = weight w + tally weight ws.
Proof.
  intros H. unfold tally.
  apply (map_fold_insert_L (fun _ w n => weight w + n)); [|exact H].
  intros. lia.
Qed.

Lemma tally_change weight (ws : gmap Z Worker) id w w' :
  ws !! id = Some w ->
  tally weight (<[id := w']> ws) = tally weight ws - weight w + weight w'.
Proof.
  intros H. rewrite <- (insert_delete_eq ws), tally_fresh by apply lookup_delete_eq.
  rewrite (tally_lookup weight ws id w H). lia.
Qed.

Lemma fresh_worker s id :
  accounted s -> loop s = Passed id -> workers s !! id = None.
Proof.
  intros (_ & _ & Hids) Hl. rewrite Hl in Hids.
  destruct (workers s !! id) eqn:E; [|reflexivity].
  assert (id < id) by (apply Hids; eauto). lia.
Qed.

(** X8: when every worker of a run has exited, each identifier that was
    dispatched has been counted exactly once: the number of dispatches is
    the sum of the counters of new, updated, unchanged, failed and
    skipped fetches, and the counter of successes is the sum of the first
    three. *)
Theorem counters_add_up baseURL (profiles0 : gmap string Profile) events s :
  run (start baseURL profiles0) events = Some s ->
  workers s = ∅ ->
  Z.of_nat (dispatches events)
  = newCounter s + updatedCounter s + skippedCounter s
    + failCounter s + skipCounter s /\
  successCounter s = newCounter s + updatedCounter s + skippedCounter s.
Proof.
  intros Hrun Hdone.
  pose (P := fun (s : State) (n : nat) =>
    accounted s /\
    successCounter s + failCounter s + skipCounter s
    + tally uncounted (workers s) = Z.of_nat n).
  assert (HP : P s (0 + dispatches events)%nat).
  { revert Hrun. apply (run_counting P).
    - clear. intros s e s' n (Hacc & Hsum) Hstep.
      assert (Hacc' : accounted s').
      { eapply step_accounted; [exact Hacc|]. apply Stepped_step, Hstep. }
      split; [exact Hacc'|]. clear Hacc'.
      destruct Hstep; try destruct outcome; cbn [isDispatch]; cbn;
        rewrite ?(tally_change _ _ _ _ _ H); cbn; try lia.
      + rewrite tally_fresh by (apply fresh_worker; assumption). cbn. lia.
      + destruct r as [p|]; cbn; [|lia]. cases; cbn; lia.
      + rewrite (tally_lookup _ _ _ _ H) in Hsum. cbn in Hsum. lia.
    - split; [apply start_accounted|]. cbn. rewrite tally_empty. lia. }
  destruct HP as ((Hpend & _ & _) & Hsum).
  rewrite Hdone in Hsum, Hpend. rewrite tally_empty in Hsum.
  change (pending ∅) with (tally inDoubt ∅) in Hpend. rewrite tally_empty in Hpend.
  cbn in Hsum. lia.
Qed.

(** An instance: three pages harvested one after the other, every worker
    to its exit. *)
Lemma counters_add_up_witness :
  match run (start site ∅) (sweep 3 1) with
  | Some s =>
      Z.of_nat (dispatches (sweep 3 1))
      = newCounter s + updatedCounter s + skippedCounter s
        + failCounter s + skipCounter s /\
      successCounter s = newCounter s + updatedCounter s + skippedCounter s
  | None => False
  end.
Proof.
  destruct (run (start site ∅) (sweep 3 1)) as [s|] eqn:E.
  - apply (counters_add_up _ _ _ _ E).
    vm_compute in E. injection E as <-. reflexivity.
  - vm_compute in E. discriminate.
Defined.

(** ** The names of the records *)

Lemma mergeProfile_keyed now profile (m : gmap string Profile) :
  keyed m -> keyed (fst (mergeProfile now profile m)).
Proof.
  intros Hm. unfold mergeProfile.
  destruct (m !! Name profile) as [existing|]; cbn.
  - destruct (needsUpdate existing profile); cbn; [|exact Hm].
    apply (keyed_insert m (setUpdatedAt now
                             (setCreatedAt (CreatedAt existing) profile))), Hm.
  - apply keyed_insert, Hm.
Qed.

Lemma mergeProfile_other now profile (m : gmap string Profile) k :
  k <> Name profile -> fst (mergeProfile now profile m) !! k = m !! k.
Proof.
  intros Hk. unfold mergeProfile.
  destruct (m !! Name profile) as [existing|]; cbn.
  - destruct (needsUpdate existing profile); cbn; [|reflexivity].
    apply lookup_insert_ne. congruence.
  - apply lookup_insert_ne. congruence.
Qed.

Lemma received_named id r p :
  carried (received id r) = Some p ->
  Name p <> EmptyString /\ Name p <> placeholder id.
Proof.
  destruct r as [q|]; cbn; [|discriminate].
  destruct (String.eqb_spec (Name q) EmptyString); cbn; [discriminate|].
  destruct (String.eqb_spec (Name q) (placeholder id)); cbn; [discriminate|].
  intros [= <-]. split; assumption.
Qed.

(** X9: from a record set in which every record is held under its own
    name (as after [LoadFromDisk]), every run of the harvest, in
    incremental mode or not, keeps it so: each record held is returned by
    [GetProfile] for its own name; and when no record was held under the
    empty name at the start, none is afterwards. *)
Theorem harvest_keyed baseURL incrementalMode dir (profiles0 : gmap string Profile)
    events s :
  keyed profiles0 ->
  run (start baseURL (entered incrementalMode dir profiles0)) events = Some s ->
  keyed (profiles s) /\
  (forall k p, profiles s !! k = Some p -> GetProfile (profiles s) (Name p) = Ok p) /\
  (entered incrementalMode dir profiles0 !! EmptyString = None ->
   profiles s !! EmptyString = None).
Proof.
  intros H0 Hrun.
  assert (Hentered : keyed (entered incrementalMode dir profiles0)).
  { unfold entered. destruct incrementalMode; [|exact H0].
    destruct dir as [files|]; cbn; [|exact H0].
    apply (loadFiles_keyed files profiles0 H0). }
  pose (P := fun s : State =>
    keyed (profiles s) /\
    (forall id w p, workers s !! id = Some w -> carried w = Some p ->
                    Name p <> EmptyString) /\
    (entered incrementalMode dir profiles0 !! EmptyString = None ->
     profiles s !! EmptyString = None)).
  assert (HP : P s).
  { revert Hrun. apply (run_invariant P).
    - clear. intros s e s' (Hk & Hw & He) Hstep.
      assert (Hins : forall id w,
        (forall p, carried w = Some p -> Name p <> EmptyString) ->
        forall id' w' p, <[id := w]> (workers s) !! id' = Some w' ->
                         carried w' = Some p -> Name p <> EmptyString).
      { intros id w Hnew id' w' p. rewrite lookup_insert.
        destruct (decide (id = id')); [intros [= <-]; apply Hnew|apply Hw]. }
      destruct Hstep; try destruct outcome; unfold P; cbn;
        try (split; [exact Hk|split; [|exact He]]);
        try (apply Hins; cbn; intros; discriminate).
      + exact Hw.
      + exact Hw.
      + apply Hins. intros p Hp. apply (received_named id r p Hp).
      + apply Hins. cbn. intros p [= <-]. apply (Hw id _ profile H). reflexivity.
      + split; [apply mergeProfile_keyed, Hk|]. split.
        * apply Hins. cbn. intros; discriminate.
        * intros Hne. rewrite mergeProfile_other; [apply He, Hne|].
          intros Heq. apply (Hw id _ profile H); [reflexivity|congruence].
      + intros id' w' p. rewrite lookup_delete.
        destruct (decide (id = id')); [discriminate|apply Hw].
    - unfold P. cbn. split; [exact Hentered|]. split; [|tauto].
      intros id w p Hw. rewrite lookup_empty in Hw. discriminate. }
  destruct HP as (Hk & _ & He).
  split; [exact Hk|]. split; [|exact He].
  intros k p Hp. unfold GetProfile. rewrite (Hk k p Hp), Hp. reflexivity.
Qed.

(** An instance: three pages harvested in incremental mode over a data
    directory that holds one record. *)
Lemma harvest_keyed_witness :
  match run (start site (entered true dataDir ∅)) (sweep 3 1) with
  | Some s => keyed (profiles s)
  | None => False
  end.
Proof.
  destruct (run (start site (entered true dataDir ∅)) (sweep 3 1)) as [s|] eqn:E.
  - refine (proj1 (harvest_keyed site true dataDir ∅ (sweep 3 1) s _ E)).
    intros k p H. rewrite lookup_empty in H. discriminate.
  - vm_compute in E. discriminate.
Defined.

(** ** A second fetch *)

Lemma needsUpdate_same a b :
  needsUpdate a b = false <->
  Verdict a = Verdict b /\ Description a = Description b /\
  length (Pros a) = length (Pros b) /\ length (Cons a) = length (Cons b).
Proof.
  unfold needsUpdate.
  rewrite !orb_false_iff, !negb_false_iff, !String.eqb_eq, !Nat.eqb_eq. tauto.
Qed.

(** X10: merging is idempotent: once a record has been merged, merging a
    record of the same name with the same verdict, the same description
    and as many pros and cons (a second fetch of an unchanged page) is
    classified unchanged and leaves the record set as it is, whatever the
    times of the two fetches. *)
Theorem merge_idempotent now now' profile again (m : gmap string Profile) :
  Name again = Name profile ->
  needsUpdate profile again = false ->
  mergeProfile now' again (fst (mergeProfile now profile m))
  = (fst (mergeProfile now profile m), Unchanged).
Proof.
  intros Hname Hsame. apply needsUpdate_same in Hsame.
  destruct Hsame as (Hv & Hd & Hp & Hc).
  assert (Hstored : exists stored,
    fst (mergeProfile now profile m) !! Name again = Some stored /\
    needsUpdate stored again = false).
  { rewrite Hname. unfold mergeProfile.
    destruct (m !! Name profile) as [existing|] eqn:E; cbn.
    - destruct (needsUpdate existing profile) eqn:En; cbn.
      + eexists. split; [apply lookup_insert_eq|].
        apply needsUpdate_same. cbn. tauto.
      + exists existing. split; [exact E|].
        apply needsUpdate_same in En. apply needsUpdate_same.
        destruct En as (-> & -> & -> & ->). tauto.
    - eexists. split; [apply lookup_insert_eq|]. apply needsUpdate_same. tauto. }
  destruct Hstored as (stored & Hl & Hn).
  unfold mergeProfile at 1. rewrite Hl, Hn. reflexivity.
Qed.

(** An instance: the page of a person fetched at noon and again later,
    merged into an empty record set. *)
Lemma merge_idempotent_witness :
  mergeProfile "2025-01-02T12:00:00Z"
    (mkProfile "Ada" "u" "Jew" "d" ["pro"] [] (float64_of_int 7) "" ""
       "2025-01-02T12:00:00Z" "2025-01-02T12:00:00Z")
    (fst (mergeProfile noon
            (mkProfile "Ada" "u" "Jew" "d" ["one"] [] (float64_of_int 7) "" ""
               noon noon) ∅))
  = (fst (mergeProfile noon
            (mkProfile "Ada" "u" "Jew" "d" ["one"] [] (float64_of_int 7) "" ""
               noon noon) ∅), Unchanged).
Proof.
  apply merge_idempotent; reflexivity.
Defined.

(** ** The growth of the record set *)

Lemma mergeProfile_size now profile (m : gmap string Profile) :
  Z.of_nat (size (fst (mergeProfile now profile m)))
  = Z.of_nat (size m) + brandNew (Merged (snd (mergeProfile now profile m))).
Proof.
  unfold mergeProfile. destruct (m !! Name profile) as [existing|] eqn:E; cbn.
  - destruct (needsUpdate existing profile); cbn; [|lia].
    rewrite map_size_insert_Some by eauto. lia.
  - rewrite map_size_insert_None by exact E. lia.
Qed.

(** X11: when every worker of a run has exited, the counter of new
    records is exactly the number of records the record set has gained:
    updates and unchanged fetches leave its size as it is. *)
Theorem new_counts_growth baseURL (profiles0 : gmap string Profile) events s :
  run (start baseURL profiles0) events = Some s ->
  workers s = ∅ ->
  Z.of_nat (size (profiles s)) = Z.of_nat (size profiles0) + newCounter s.
Proof.
  intros Hrun Hdone.
  pose (P := fun s : State =>
    accounted s /\
    Z.of_nat (size (profiles s))
    = Z.of_nat (size profiles0) + newCounter s + tally brandNew (workers s)).
  assert (HP : P s).
  { revert Hrun. apply (run_invariant P).
    - clear. intros s e s' (Hacc & Hsum) Hstep.
      split; [eapply step_accounted; [exact Hacc|]; apply Stepped_step, Hstep|].
      destruct Hstep; try destruct outcome; cbn;
        rewrite ?(tally_change _ _ _ _ _ H); cbn; try lia.
      + rewrite tally_fresh by (apply fresh_worker; assumption). cbn. lia.
      + destruct r as [p|]; cbn; [|lia]. cases; cbn; lia.
      + rewrite mergeProfile_size. cbn. lia.
      + rewrite (tally_lookup _ _ _ _ H) in Hsum. cbn in Hsum. lia.
    - split; [apply start_accounted|]. cbn. rewrite tally_empty. lia. }
  destruct HP as (_ & Hsum). rewrite Hdone, tally_empty in Hsum. lia.
Qed.

(** An instance: three pages harvested one after the other into a record
    set that holds one record. *)
Lemma new_counts_growth_witness :
  match run (start site (entered true dataDir ∅)) (sweep 3 1) with
  | Some s =>
      Z.of_nat (size (profiles s))
      = Z.of_nat (size (entered true dataDir ∅)) + newCounter s
  | None => False
  end.
Proof.
  destruct (run (start site (entered true dataDir ∅)) (sweep 3 1)) as [s|] eqn:E.
  - apply (new_counts_growth _ _ _ _ E).
    vm_compute in E. injection E as <-. reflexivity.
  - vm_compute in E. discriminate.
Defined.

End Harvest.


(** * Trimmed strings *)

Section Trimmed.
Import GoStrings Client Spec.

Lemma append_cons c (s t : string) : String c s +:+ t = String c (s +:+ t).
Proof. reflexivity. Qed.

Lemma append_nil_l (s : string) : EmptyString +:+ s = s.
Proof. reflexivity. Qed.

Lemma append_nil_r (s : string) : s +:+ EmptyString = s.
Proof.
  induction s as [|c s IH]; [reflexivity|]. rewrite append_cons, IH. reflexivity.
Qed.

Lemma append_assoc (a b c : string) : (a +:+ b) +:+ c = a +:+ (b +:+ c).
Proof.
  induction a as [|x a IH]; [reflexivity|]. rewrite !append_cons, IH. reflexivity.
Qed.

Lemma rev_append (a b : string) : rev (a +:+ b) = rev b +:+ rev a.
Proof.
  induction a as [|x a IH].
  - rewrite append_nil_l. cbn. symmetry. apply append_nil_r.
  - rewrite append_cons. cbn [rev]. rewrite IH. apply append_assoc.
Qed.

Lemma rev_involutive (s : string) : rev (rev s) = s.
Proof.
  induction s as [|c s IH]; cbn; [reflexivity|].
  rewrite rev_append, IH. reflexivity.
Qed.

Lemma take_drop (n : nat) : forall s, take n s +:+ drop n s = s.
Proof.
  induction n as [|n IH]; intros [|c s]; cbn [take drop]; try reflexivity.
  rewrite append_cons, IH. reflexivity.
Qed.

Lemma trimWhile_suffix rune : forall s skip,
  exists n, trimWhile rune skip s = drop n s.
Proof.
  induction s as [|c s IH]; intros skip; cbn.
  - exists 0%nat. reflexivity.
  - destruct skip as [|k].
    + destruct (rune (String c s)) as [|k].
      * exists 0%nat. reflexivity.
      * destruct (IH k) as [n Hn]. exists (S n). exact Hn.
    + destruct (IH k) as [n Hn]. exists (S n). exact Hn.
Qed.

Lemma trimWhile_stops rune : forall s skip,
  trimWhile rune skip s = EmptyString \/ rune (trimWhile rune skip s) = 0%nat.
Proof.
  induction s as [|c s IH]; intros skip; cbn; [left; reflexivity|].
  destruct skip as [|k]; [|apply IH].
  destruct (rune (String c s)) as [|k] eqn:E; [right; exact E|apply IH].
Qed.

Lemma trimWhile_fixed rune s :
  s = EmptyString \/ rune s = 0%nat -> trimWhile rune 0 s = s.
Proof.
  destruct s as [|c s]; [reflexivity|]. intros [H|H]; [discriminate|].
  cbn. rewrite H. reflexivity.
Qed.

Lemma spaceAtHead_prefix y z :
  spaceAtHead (y +:+ z) = 0%nat -> spaceAtHead y = 0%nat.
Proof.
  destruct y as [|a [|b [|c y]]]; rewrite ?append_cons, ?append_nil_l;
    cbn; try reflexivity.
  - destruct (asciiSpace (byte a)); [discriminate|reflexivity].
  - destruct (asciiSpace (byte a)); [discriminate|].
    destruct (space2 (byte a) (byte b)); [discriminate|reflexivity].
  - destruct (asciiSpace (byte a)); [discriminate|].
    destruct (space2 (byte a) (byte b)); [discriminate|].
    destruct (space3 (byte a) (byte b) (byte c)); [discriminate|reflexivity].
Qed.

Lemma TrimSpace_idempotent s : TrimSpace (TrimSpace s) = TrimSpace s.
Proof.
  unfold TrimSpace.
  set (x := trimWhile spaceAtHead 0 s).
  set (e := trimWhile spaceAtEnd 0 (rev x)).
  assert (Hhead : trimWhile spaceAtHead 0 (rev e) = rev e).
  { apply trimWhile_fixed.
    destruct (trimWhile_stops spaceAtHead s 0) as [Hx|Hx]; fold x in Hx.
    - left. subst e. rewrite Hx. reflexivity.
    - right. destruct (trimWhile_suffix spaceAtEnd (rev x) 0) as [n Hn].
      fold e in Hn. apply (spaceAtHead_prefix (rev e) (rev (take n (rev x)))).
      rewrite <- rev_append, Hn, take_drop, rev_involutive. exact Hx. }
  rewrite Hhead, rev_involutive. f_equal.
  apply trimWhile_fixed, trimWhile_stops.
Qed.

Lemma splitByBullets_items text out :
  splitByBullets text = Some out ->
  List.NoDup out /\
  forall item, In item out -> TrimSpace item = item /\ 3 <= len item.
Proof.
  unfold splitByBullets. destruct (splitPieces (TrimSpace text)) as [pieces|];
    [|discriminate].
  intros [= <-]. rewrite cleanUp_spec. split; [apply firstSeen_NoDup|].
  intros item H. apply firstSeen_In in H. apply filter_In in H.
  destruct H as [H Hlen]. apply in_map_iff in H. destruct H as (y & <- & _).
  split; [apply TrimSpace_idempotent|]. unfold longEnough in Hlen. lia.
Qed.

(** X12: every item the list splitter returns is trimmed: it neither
    starts nor ends with white space, so trimming it again gives the item
    itself; and the splitter gives the same list for a text and for the
    text with the white space around it removed. *)
Theorem splitByBullets_trimmed (text : string) :
  splitByBullets (TrimSpace text) = splitByBullets text /\
  exists out,
    splitByBullets text = Some out /\
    forall item, In item out -> TrimSpace item = item.
Proof.
  split.
  - unfold splitByBullets. rewrite TrimSpace_idempotent. reflexivity.
  - destruct (splitByBullets_total text) as [out Hout]. exists out.
    split; [exact Hout|]. intros item H.
    apply (splitByBullets_items text out Hout), H.
Qed.

End Trimmed.


(** * What each stage of the extraction assigns *)

Section Assigns.
Import GoStrings Client Spec.

(** A field [f] that the setters named in the hypotheses leave alone;
    each lemma depends on the hypotheses it uses only. *)
Context {A : Type} (f : Profile -> A).
Hypothesis name_kept : forall v p, f (setName v p) = f p.
Hypothesis verdict_kept : forall v p, f (setVerdict v p) = f p.
Hypothesis description_kept : forall v p, f (setDescription v p) = f p.
Hypothesis pros_kept : forall v p, f (setPros v p) = f p.
Hypothesis cons_kept : forall v p, f (setCons v p) = f p.
Hypothesis category_kept : forall v p, f (setCategory v p) = f p.
Hypothesis image_kept : forall v p, f (setImageURL v p) = f p.

Lemma bound_keeps {X} (o : option X) (k : X -> Profile) (p p' : Profile) :
  (forall x, f (k x) = f p) -> (x ← o; Some (k x)) = Some p' -> f p' = f p.
Proof.
  intros Hk. destruct o as [x|]; cbn; [|discriminate].
  intros [= <-]. apply Hk.
Qed.

Lemma names_keep doc p p1 :
  nameFromTitle doc p = Some p1 -> f (nameFromH1 doc p1) = f p.
Proof.
  intros H.
  assert (H1 : f p1 = f p).
  { revert H. unfold nameFromTitle. destruct (nonEmpty _); [|congruence].
    destruct (0 <? _); [|congruence].
    apply bound_keeps. intros x. apply name_kept. }
  rewrite <- H1. unfold nameFromH1. destruct (String.eqb _ _); [|reflexivity].
  apply fold_left_keeps. intros st x. cases; [apply name_kept|reflexivity].
Qed.

Lemma verdict_keeps doc p p' :
  extractVerdict doc p = Some p' -> f p' = f p.
Proof.
  unfold extractVerdict.
  destruct (verdictFromMeta doc) as [v|]; cbn; [|discriminate].
  match goal with |- context [mbind _ ?o] => destruct o as [v'|] end; cbn;
    [|discriminate].
  intros [= <-]. cases; first [apply verdict_kept|reflexivity].
Qed.

Lemma nodes_keep doc p : f (descriptionFromNodes doc p) = f p.
Proof.
  unfold descriptionFromNodes. destruct (_ || _); [|reflexivity].
  apply (fold_left_keeps (fun st : Profile * bool => f (fst st))).
  intros [q b] x. cbn. cases; cbn; [reflexivity|apply description_kept|reflexivity].
Qed.

Lemma descriptions_keep doc p p3 :
  descriptionFromBody doc p = Some p3 ->
  f (descriptionFromTable doc
       (descriptionFromMeta doc (descriptionFromNodes doc p3))) = f p.
Proof.
  intros H.
  assert (H3 : f p3 = f p).
  { revert H. unfold descriptionFromBody. destruct (profileBody doc); [|congruence].
    apply bound_keeps. intros [d|]; [apply description_kept|reflexivity]. }
  rewrite <- H3, <- (nodes_keep doc p3).
  generalize (descriptionFromNodes doc p3). intros q.
  transitivity (f (descriptionFromMeta doc q)).
  - unfold descriptionFromTable. cases; try reflexivity; apply description_kept.
  - unfold descriptionFromMeta. cases; try reflexivity; apply description_kept.
Qed.

Lemma prosLoop_keep (keep : string -> bool) pros st :
  f (found (fold_left
       (fun st pro =>
          if keep (TrimSpace pro)
          then mkFound (appendPro (found st) (TrimSpace pro)) true (consFound st)
          else st) pros st)) = f (found st).
Proof.
  apply (fold_left_keeps (fun st => f (found st))).
  intros s x. cases; cbn; [apply pros_kept|reflexivity].
Qed.

Lemma consLoop_keep (keep : string -> bool) cons st :
  f (found (fold_left
       (fun st con =>
          if keep (TrimSpace con)
          then mkFound (appendCon (found st) (TrimSpace con)) (prosFound st) true
          else st) cons st)) = f (found st).
Proof.
  apply (fold_left_keeps (fun st => f (found st))).
  intros s x. cases; cbn; [apply cons_kept|reflexivity].
Qed.

Lemma html_keeps doc st st' :
  prosConsFromHtml doc st = Some st' -> f (found st') = f (found st).
Proof.
  unfold prosConsFromHtml. destruct (Html doc) as [h|]; [|congruence].
  destruct (prosFromRegex h st) as [st1|] eqn:E; cbn; [|discriminate].
  intros H. transitivity (f (found st1)).
  - revert H. unfold consFromRegex. destruct (1 <? _); [|congruence].
    destruct (index _ 1) as [c|]; cbn; [|discriminate].
    destruct (_ && _); [|congruence].
    destruct (splitByBullets c) as [cons|]; cbn; [|discriminate].
    intros [= <-].
    apply (fold_left_keeps (fun st => f (found st))).
    intros s x. cases; cbn; first [apply cons_kept|reflexivity].
  - revert E. unfold prosFromRegex. destruct (1 <? _); [|congruence].
    destruct (index _ 1) as [c|]; cbn; [|discriminate].
    destruct (splitByBullets c) as [pros|]; cbn; [|discriminate].
    intros [= <-].
    apply (prosLoop_keep
             (fun pro => nonEmpty pro && (3 <? len pro)
                         && negb (Contains (ToLower pro) "cons:"))).
Qed.

Lemma section_keeps st s st' :
  prosConsFromSection st s = Some st' -> f (found st') = f (found st).
Proof.
  unfold prosConsFromSection.
  destruct (prosFromSection _ _ st) as [st1|] eqn:E; cbn; [|discriminate].
  intros H. transitivity (f (found st1)).
  - revert H. unfold consFromSection. destruct (_ && _); [|congruence].
    match goal with |- context [mbind _ ?o] => destruct o as [l|] end; cbn;
      [|discriminate].
    destruct (splitByBullets l) as [cons|]; cbn; [|discriminate].
    intros [= <-].
    apply (fold_left_keeps (fun st => f (found st))).
    intros s0 x. cases; cbn; first [apply cons_kept|reflexivity].
  - revert E. unfold prosFromSection. destruct (_ && _); [|congruence].
    match goal with |- context [mbind _ ?o] => destruct o as [l|] end; cbn;
      [|discriminate].
    destruct (splitByBullets l) as [pros|]; cbn; [|discriminate].
    intros [= <-].
    apply (prosLoop_keep
             (fun pro => nonEmpty pro && (3 <? len pro)
                         && negb (Contains (ToLower pro) "cons"))).
Qed.

Lemma lists_keep doc p p4 :
  extractProsCons doc p = Some p4 -> f (prosConsFromList doc p4) = f p.
Proof.
  intros H.
  assert (H4 : f p4 = f p).
  { revert H. unfold extractProsCons.
    destruct (prosConsFromHtml doc _) as [st|] eqn:E; cbn; [|discriminate].
    apply html_keeps in E. cbn in E.
    destruct (_ || _); cbn.
    - destruct (forEach _ _ st) as [st'|] eqn:E'; cbn; [|discriminate].
      intros [= <-].
      rewrite (forEach_keeps (fun st => f (found st)) _ _ section_keeps _ _ E').
      exact E.
    - intros [= <-]. exact E. }
  rewrite <- H4. unfold prosConsFromList. apply fold_left_keeps.
  intros q x. cases; first [apply pros_kept|apply cons_kept|reflexivity].
Qed.

Lemma keywords_keep ks : forall p, f (categoryFromKeywords ks p) = f p.
Proof.
  induction ks as [|k ks IH]; intros p; cbn [categoryFromKeywords]; [reflexivity|].
  match goal with |- context [List.find ?g categories] =>
    destruct (List.find g categories) as [cat|] end.
  - destruct (nonEmpty _); [|rewrite IH]; apply category_kept.
  - destruct (nonEmpty _); [reflexivity|apply IH].
Qed.

Lemma categoryFromNode_keep p s p' :
  categoryFromNode p s = Some p' -> f p' = f p.
Proof.
  assert (G : forall parts, categoryFromParts parts p = Some p' -> f p' = f p).
  { intros parts. unfold categoryFromParts. destruct (1 <? _); [|congruence].
    apply bound_keeps. intros x. cases; [apply category_kept|reflexivity]. }
  unfold categoryFromNode.
  destruct (Contains _ _); [apply G|].
  destruct (HasPrefix _ _); [apply G|congruence].
Qed.

Lemma inferCategory_keep clueOrder doc p : f (inferCategory clueOrder doc p) = f p.
Proof.
  unfold inferCategory. destruct (String.eqb _ _); [|reflexivity].
  transitivity (f (match metaKeywords doc with
                   | Some keywords =>
                       if nonEmpty keywords
                       then categoryFromKeywords (Split keywords ",") p else p
                   | None => p
                   end)).
  - unfold categoryFromDescription. cases; try reflexivity; apply category_kept.
  - cases; try reflexivity; apply keywords_keep.
Qed.

Lemma categories_keep clueOrder doc p p5 :
  forEach categoryFromNode (categoryNodes doc) p = Some p5 ->
  f (inferCategory clueOrder doc p5) = f p.
Proof.
  intros H. rewrite inferCategory_keep.
  apply (forEach_keeps f _ _ categoryFromNode_keep _ _ H).
Qed.

Lemma imageFromAttr_keep baseURL attr p : f (imageFromAttr baseURL attr p) = f p.
Proof. unfold imageFromAttr. cases; try reflexivity; apply image_kept. Qed.

Lemma image_keeps baseURL doc p : f (extractImage baseURL doc p) = f p.
Proof.
  assert (G : forall q, f (imageFromImgs baseURL doc q) = f q).
  { intros q. unfold imageFromImgs. apply fold_left_keeps.
    intros q' x. cases; try reflexivity; apply image_kept. }
  unfold extractImage. cases; rewrite ?G, ?imageFromAttr_keep; reflexivity.
Qed.

End Assigns.

Section Stages.
Import GoStrings Client Spec.

(** The stages of [parseProfile], one after the other. *)
Lemma parseProfile_stages baseURL clueOrder doc p p' :
  parseProfile baseURL clueOrder doc p = Some p' ->
  exists p1 p2 p3 p4 p5,
    nameFromTitle doc p = Some p1 /\
    extractVerdict doc (nameFromH1 doc p1) = Some p2 /\
    descriptionFromBody doc p2 = Some p3 /\
    extractProsCons doc
      (descriptionFromTable doc
         (descriptionFromMeta doc (descriptionFromNodes doc p3))) = Some p4 /\
    forEach categoryFromNode (categoryNodes doc) (prosConsFromList doc p4)
      = Some p5 /\
    p' = extractImage baseURL doc (inferCategory clueOrder doc p5).
Proof.
  unfold parseProfile.
  destruct (nameFromTitle doc p) as [p1|]; cbn; [|discriminate].
  destruct (extractVerdict doc _) as [p2|] eqn:E2; cbn; [|discriminate].
  destruct (descriptionFromBody doc p2) as [p3|] eqn:E3; cbn; [|discriminate].
  destruct (extractProsCons doc _) as [p4|] eqn:E4; cbn; [|discriminate].
  destruct (forEach categoryFromNode _ _) as [p5|] eqn:E5; cbn; [|discriminate].
  intros [= <-]. exists p1, p2, p3, p4, p5. repeat split; assumption.
Qed.

End Stages.


(** * The fields of an extracted record *)

Section Fields.
Import GoStrings Client Spec.

(** The record [scrapeProfile] starts the extraction from. *)
Lemma scrapeProfile_page baseURL clueOrder id doc now :
  exists parsed,
    parseProfile baseURL clueOrder doc
      (mkProfile EmptyString (baseURL +:+ "/profile.jsp?ID=" +:+ pretty id)
         EmptyString EmptyString [] [] (float64_of_int id) EmptyString
         EmptyString EmptyString EmptyString) = Some parsed /\
    scrapeProfile baseURL clueOrder id (Page doc) now
    = Some (Ok (setUpdatedAt now
                  (setCreatedAt now
                     (if String.eqb (Name parsed) EmptyString
                      then setName (placeholder id) parsed else parsed)))).
Proof.
  destruct (parseProfile_total baseURL clueOrder doc
              (mkProfile EmptyString (baseURL +:+ "/profile.jsp?ID=" +:+ pretty id)
                 EmptyString EmptyString [] [] (float64_of_int id) EmptyString
                 EmptyString EmptyString EmptyString)) as [parsed Hp].
  exists parsed. split; [exact Hp|]. unfold scrapeProfile. rewrite Hp. reflexivity.
Qed.

(** A field that no setter of the extraction touches. *)
Lemma parseProfile_field {A} (f : Profile -> A) baseURL clueOrder doc p p' :
  (forall v p, f (setName v p) = f p) ->
  (forall v p, f (setVerdict v p) = f p) ->
  (forall v p, f (setDescription v p) = f p) ->
  (forall v p, f (setPros v p) = f p) ->
  (forall v p, f (setCons v p) = f p) ->
  (forall v p, f (setCategory v p) = f p) ->
  (forall v p, f (setImageURL v p) = f p) ->
  parseProfile baseURL clueOrder doc p = Some p' -> f p' = f p.
Proof.
  intros Hn Hv Hd Hp Hc Hg Hi H.
  destruct (parseProfile_stages _ _ _ _ _ H)
    as (p1 & p2 & p3 & p4 & p5 & E1 & E2 & E3 & E4 & E5 & ->).
  rewrite (image_keeps f Hi), (categories_keep f Hg _ _ _ _ E5),
    (lists_keep f Hp Hc _ _ _ E4), (descriptions_keep f Hd _ _ _ E3),
    (verdict_keeps f Hv _ _ _ E2).
  apply (names_keep f Hn _ _ _ E1).
Qed.

Lemma placeholder_named id : placeholder id <> EmptyString.
Proof. unfold placeholder. discriminate. Qed.

(** X13: a fetch fails exactly when no page comes back; the record of a
    page carries the address it was fetched from, the time of the fetch
    as its creation and update time, and a name that is never empty: a
    page without a name gets the placeholder of its identifier, which is
    what makes the harvest skip it. *)
Theorem scrapeProfile_record baseURL clueOrder id now :
  (forall doc, exists p,
      scrapeProfile baseURL clueOrder id (Page doc) now = Some (Ok p) /\
      URL p = baseURL +:+ "/profile.jsp?ID=" +:+ pretty id /\
      CreatedAt p = now /\ UpdatedAt p = now /\
      Name p <> EmptyString /\
      received id (Ok p)
      = if String.eqb (Name p) (placeholder id) then Skipped else Valid p) /\
  (forall resp, (forall doc, resp <> Page doc) ->
      exists message,
        scrapeProfile baseURL clueOrder id resp now = Some (Err message) /\
        received id (Err message) = Failed).
Proof.
  split.
  - intros doc.
    destruct (scrapeProfile_page baseURL clueOrder id doc now)
      as (parsed & Hp & Hs).
    eexists. split; [exact Hs|].
    assert (Hurl : URL parsed = baseURL +:+ "/profile.jsp?ID=" +:+ pretty id).
    { apply (parseProfile_field URL _ _ _ _ _) in Hp; try reflexivity. exact Hp. }
    assert (Hname : Name (if String.eqb (Name parsed) EmptyString
                          then setName (placeholder id) parsed else parsed)
                    <> EmptyString).
    { destruct (String.eqb_spec (Name parsed) EmptyString); cbn;
        [apply placeholder_named|assumption]. }
    repeat split.
    + cbn. destruct (String.eqb (Name parsed) EmptyString); exact Hurl.
    + exact Hname.
    + unfold received. cbn [Name setUpdatedAt setCreatedAt].
      apply String.eqb_neq in Hname. rewrite Hname. reflexivity.
  - intros resp Hresp. destruct resp; cbn; eauto.
    exfalso. apply (Hresp doc). reflexivity.
Qed.

(** ** The name *)

Lemma splitWith_nonempty sep : forall s skip, splitWith sep skip s <> [].
Proof.
  induction s as [|c s IH]; intros skip; cbn; [discriminate|].
  destruct skip as [|k]; [|apply IH].
  destruct (sep (String c s)) as [[|k]|];
    first [discriminate | destruct (splitWith sep 0 s); discriminate].
Qed.

Lemma nameFromTitle_spec doc p :
  nameFromTitle doc p
  = Some (if nonEmpty (title doc) then setName (titleName (title doc)) p else p).
Proof.
  unfold nameFromTitle, titleName, Split.
  destruct (nonEmpty (title doc)); [|reflexivity].
  pose proof (splitWith_nonempty (literal " - ") (title doc) 0) as Hne.
  destruct (splitWith (literal " - ") 0 (title doc)) as [|part0 parts];
    [contradiction|].
  cbn [length hd]. rewrite (proj2 (Z.ltb_lt _ _)) by lia. reflexivity.
Qed.

Lemma last_cons {X} (a d : X) l : List.last (a :: l) d = List.last l a.
Proof.
  revert a d. induction l as [|b l IH]; intros a d; [reflexivity|].
  change (List.last (a :: b :: l) d) with (List.last (b :: l) d).
  rewrite !IH. reflexivity.
Qed.

Lemma headings_spec l : forall q,
  Name (fold_left (fun profile text =>
                     let name := TrimSpace text in
                     if nonEmpty name then setName name profile else profile)
          l q)
  = List.last (List.filter nonEmpty (List.map TrimSpace l)) (Name q).
Proof.
  induction l as [|x l IH]; intros q; cbn [fold_left List.map List.filter];
    [reflexivity|].
  rewrite IH. destruct (nonEmpty (TrimSpace x)); [|reflexivity].
  rewrite last_cons. reflexivity.
Qed.

Lemma nonEmpty_false s : nonEmpty s = false <-> s = EmptyString.
Proof.
  unfold nonEmpty. rewrite negb_false_iff. apply String.eqb_eq.
Qed.

(** X14: the name of the record of a page is the first segment of the
    title (cut at " - ", trimmed, without the prefix "Jew or Not Jew: ")
    when that is not empty; otherwise the last heading that is not blank,
    trimmed: each such heading overwrites the one before; and when both
    are empty, the placeholder of the identifier. *)
Theorem scraped_name baseURL clueOrder id doc now :
  exists p,
    scrapeProfile baseURL clueOrder id (Page doc) now = Some (Ok p) /\
    Name p = if nonEmpty (nameOf doc) then nameOf doc else placeholder id.
Proof.
  destruct (scrapeProfile_page baseURL clueOrder id doc now)
    as (parsed & Hp & Hs).
  eexists. split; [exact Hs|].
  assert (Hname : Name parsed = nameOf doc).
  { destruct (parseProfile_stages _ _ _ _ _ Hp)
      as (p1 & p2 & p3 & p4 & p5 & E1 & E2 & E3 & E4 & E5 & ->).
    rewrite (image_keeps Name) by reflexivity.
    rewrite (categories_keep Name (fun _ _ => eq_refl) _ _ _ _ E5).
    rewrite (lists_keep Name (fun _ _ => eq_refl) (fun _ _ => eq_refl) _ _ _ E4).
    rewrite (descriptions_keep Name (fun _ _ => eq_refl) _ _ _ E3).
    rewrite (verdict_keeps Name (fun _ _ => eq_refl) _ _ _ E2).
    rewrite nameFromTitle_spec in E1. injection E1 as <-.
    unfold nameFromH1, nameOf, lastHeading.
    destruct (nonEmpty (title doc)); cbn [Name setName].
    - destruct (String.eqb_spec (titleName (title doc)) EmptyString) as [E|E].
      + rewrite headings_spec. cbn [Name setName]. rewrite E. reflexivity.
      + unfold nonEmpty at 1. rewrite (proj2 (String.eqb_neq _ _) E). reflexivity.
    - cbn. apply headings_spec. }
  cbn [Name setUpdatedAt setCreatedAt].
  unfold nonEmpty at 1. rewrite <- Hname.
  destruct (String.eqb (Name parsed) EmptyString); reflexivity.
Qed.

(** ** The description *)

(** X15: a description of 100 bytes or more found in the body container
    is the description of the record: none of the three fallbacks (the
    description nodes, the meta description, the table cells) replaces
    it, and no later stage assigns the field. *)
Theorem description_from_body baseURL clueOrder doc seed text description :
  profileBody doc = Some text ->
  bodyDescription text = Some (Some description) ->
  100 <= len description ->
  exists p,
    parseProfile baseURL clueOrder doc seed = Some p /\
    Description p = description.
Proof.
  intros Hbody Hdesc Hlen.
  destruct (parseProfile_total baseURL clueOrder doc seed) as [p Hp].
  exists p. split; [exact Hp|].
  destruct (parseProfile_stages _ _ _ _ _ Hp)
    as (p1 & p2 & p3 & p4 & p5 & E1 & E2 & E3 & E4 & E5 & ->).
  rewrite (image_keeps Description) by reflexivity.
  rewrite (categories_keep Description (fun _ _ => eq_refl) _ _ _ _ E5).
  rewrite (lists_keep Description (fun _ _ => eq_refl) (fun _ _ => eq_refl)
             _ _ _ E4).
  unfold descriptionFromBody in E3. rewrite Hbody, Hdesc in E3.
  cbn in E3. injection E3 as <-.
  assert (Hne : String.eqb description EmptyString = false).
  { apply String.eqb_neq. intros ->. unfold len in Hlen. cbn in Hlen. lia. }
  unfold descriptionFromNodes. cbn [Description setDescription].
  rewrite Hne, (proj2 (Z.ltb_ge _ _)) by lia. cbn [orb].
  unfold descriptionFromMeta. cbn [Description setDescription].
  rewrite Hne, (proj2 (Z.ltb_ge _ _)) by lia. cbn [orb].
  unfold descriptionFromTable. cbn [Description setDescription].
  rewrite Hne, (proj2 (Z.ltb_ge _ _)) by lia. reflexivity.
Qed.

(** An instance: a body container whose text ends with the verdict
    label. *)
Lemma description_from_body_witness :
  exists p,
    parseProfile site categoryClues bodyPage
      (mkProfile EmptyString EmptyString EmptyString EmptyString [] []
         (float64_of_int 7) EmptyString EmptyString EmptyString EmptyString)
    = Some p /\
    Description p
    = "Ada Lovelace was an English mathematician and writer, chiefly known for her work on the Analytical Engine.".
Proof.
  apply (description_from_body site categoryClues bodyPage _
           "Ada Lovelace was an English mathematician and writer, chiefly known for her work on the Analytical Engine. Verdict: Not a Jew").
  - reflexivity.
  - vm_compute. reflexivity.
  - vm_compute. discriminate.
Defined.

(** ** The image reference *)

Lemma HasPrefix_append prefix : forall s t,
  HasPrefix s prefix = true -> HasPrefix (s +:+ t) prefix = true.
Proof.
  induction prefix as [|c prefix IH]; intros [|d s] t H;
    try (destruct t; reflexivity); try discriminate.
  cbn in H. apply andb_prop in H. destruct H as [Hc Hs].
  rewrite append_cons. cbn. rewrite Hc. cbn. apply IH, Hs.
Qed.

Lemma absolute_http baseURL ref :
  HasPrefix baseURL "http" = true -> HasPrefix (absolute baseURL ref) "http" = true.
Proof.
  intros Hb. unfold absolute.
  destruct (HasPrefix ref "http") eqn:E; cbn [negb]; [exact E|].
  destruct (negb (HasPrefix ref "/")); apply HasPrefix_append, Hb.
Qed.

Lemma append_empty (a b : string) : a +:+ b = EmptyString -> b = EmptyString.
Proof. destruct a; [intros H; exact H|discriminate]. Qed.

Lemma absolute_nonEmpty baseURL ref :
  ref <> EmptyString -> nonEmpty (absolute baseURL ref) = true.
Proof.
  intros Hr. unfold nonEmpty. apply negb_true_iff, String.eqb_neq.
  unfold absolute. cases; try assumption; intros H; apply append_empty in H.
  - apply append_empty in H. contradiction.
  - contradiction.
Qed.

Lemma imageFromAttr_cases baseURL attr q :
  imageFromAttr baseURL attr q = q \/
  exists ref, ref <> EmptyString /\
    imageFromAttr baseURL attr q = setImageURL (absolute baseURL ref) q.
Proof.
  unfold imageFromAttr. destruct attr as [ref|]; [|left; reflexivity].
  destruct (String.eqb_spec ref EmptyString) as [->|Hne]; [left; reflexivity|].
  right. exists ref. split; [exact Hne|].
  unfold nonEmpty. rewrite (proj2 (String.eqb_neq _ _) Hne). reflexivity.
Qed.

Lemma extractImage_cases baseURL doc q :
  ImageURL (extractImage baseURL doc q) = ImageURL q \/
  exists ref, ImageURL (extractImage baseURL doc q) = absolute baseURL ref.
Proof.
  assert (G : forall l r,
    (ImageURL r = ImageURL q \/ exists ref, ImageURL r = absolute baseURL ref) ->
    let r' := fold_left
      (fun profile (attr : option string) =>
         if nonEmpty (ImageURL profile) then profile
         else
           match attr with
           | Some src =>
               if nonEmpty src && isProfileImage src
               then setImageURL (absolute baseURL src) profile
               else profile
           | None => profile
           end) l r in
    ImageURL r' = ImageURL q \/ exists ref, ImageURL r' = absolute baseURL ref).
  { induction l as [|x l IH]; intros r Hr; cbn [fold_left]; [exact Hr|].
    apply IH. cases; try exact Hr. right. eexists. reflexivity. }
  assert (H1 : forall attr r,
    (ImageURL r = ImageURL q \/ exists ref, ImageURL r = absolute baseURL ref) ->
    ImageURL (imageFromAttr baseURL attr r) = ImageURL q \/
    exists ref, ImageURL (imageFromAttr baseURL attr r) = absolute baseURL ref).
  { intros attr r Hr.
    destruct (imageFromAttr_cases baseURL attr r) as [->|(ref & _ & ->)];
      [exact Hr|]. right. eexists. reflexivity. }
  unfold extractImage, imageFromImgs.
  cases; repeat first [apply G | apply H1]; left; reflexivity.
Qed.

Lemma extractImage_og baseURL doc q ref :
  ogImage doc = Some ref -> ref <> EmptyString ->
  ImageURL (extractImage baseURL doc q) = absolute baseURL ref.
Proof.
  intros Hog Hne.
  assert (H1 : imageFromAttr baseURL (ogImage doc) q
               = setImageURL (absolute baseURL ref) q).
  { unfold imageFromAttr. rewrite Hog. unfold nonEmpty.
    rewrite (proj2 (String.eqb_neq _ _) Hne). reflexivity. }
  pose proof (absolute_nonEmpty baseURL ref Hne) as Ha.
  unfold nonEmpty in Ha. apply negb_true_iff in Ha.
  unfold extractImage. rewrite H1. cbn [ImageURL setImageURL].
  rewrite Ha. cbn [ImageURL setImageURL]. rewrite Ha. reflexivity.
Qed.

(** X16: the image reference of the record of a page is empty or made
    absolute against the base address: with a base address that starts
    with "http" it starts with "http"; and a non-empty [og:image]
    reference, made absolute, is the one taken, before the [image_src]
    link and the [img] elements. *)
Theorem image_reference baseURL clueOrder id doc now :
  exists p,
    scrapeProfile baseURL clueOrder id (Page doc) now = Some (Ok p) /\
    (HasPrefix baseURL "http" = true ->
     ImageURL p = EmptyString \/ HasPrefix (ImageURL p) "http" = true) /\
    (forall ref, ogImage doc = Some ref -> ref <> EmptyString ->
                 ImageURL p = absolute baseURL ref).
Proof.
  destruct (scrapeProfile_page baseURL clueOrder id doc now)
    as (parsed & Hp & Hs).
  eexists. split; [exact Hs|].
  assert (Himg : forall q, ImageURL (setUpdatedAt now (setCreatedAt now
                   (if String.eqb (Name q) EmptyString
                    then setName (placeholder id) q else q))) = ImageURL q).
  { intros q. destruct (String.eqb (Name q) EmptyString); reflexivity. }
  rewrite Himg.
  destruct (parseProfile_stages _ _ _ _ _ Hp)
    as (p1 & p2 & p3 & p4 & p5 & E1 & E2 & E3 & E4 & E5 & ->).
  assert (H5 : ImageURL (inferCategory clueOrder doc p5) = EmptyString).
  { rewrite (categories_keep ImageURL (fun _ _ => eq_refl) _ _ _ _ E5).
    rewrite (lists_keep ImageURL (fun _ _ => eq_refl) (fun _ _ => eq_refl)
               _ _ _ E4).
    rewrite (descriptions_keep ImageURL (fun _ _ => eq_refl) _ _ _ E3).
    rewrite (verdict_keeps ImageURL (fun _ _ => eq_refl) _ _ _ E2).
    rewrite (names_keep ImageURL (fun _ _ => eq_refl) _ _ _ E1). reflexivity. }
  split.
  - intros Hb.
    destruct (extractImage_cases baseURL doc (inferCategory clueOrder doc p5))
      as [H|[ref H]]; rewrite H.
    + left. exact H5.
    + right. apply absolute_http, Hb.
  - intros ref Hog Hne. apply extractImage_og; assumption.
Qed.

End Fields.


(** * The pros and the cons of an extracted record *)

Section Lists.
Import GoStrings Client Spec.

Lemma contains_In slice str : contains slice str = true <-> In str slice.
Proof.
  induction slice as [|item rest IH]; cbn; [split; [discriminate|tauto]|].
  rewrite orb_true_iff, String.eqb_eq, IH. tauto.
Qed.

Lemma NoDup_snoc {X} (l : list X) x :
  List.NoDup l -> ~ In x l -> List.NoDup (l ++ [x]).
Proof.
  intros Hl Hx. induction Hl as [|y l Hy Hl IH]; cbn.
  - constructor; [tauto|constructor].
  - constructor.
    + rewrite in_app_iff. cbn. intros [H|[H|[]]]; [tauto|].
      apply Hx. left. symmetry. exact H.
    + apply IH. intros H. apply Hx. right. exact H.
Qed.

Lemma fold_left_invariant {X St} (P : St -> Prop) (body : St -> X -> St) l :
  (forall st x, P st -> P (body st x)) -> forall st, P st -> P (fold_left body l st).
Proof.
  intros Hbody. induction l as [|x l IH]; intros st Hst; cbn; [exact Hst|].
  apply IH, Hbody, Hst.
Qed.

Lemma forEach_invariant {X St} (P : St -> Prop) (body : St -> X -> option St) l :
  (forall st x st', P st -> body st x = Some st' -> P st') ->
  forall st st', P st -> forEach body l st = Some st' -> P st'.
Proof.
  intros Hbody. induction l as [|x l IH]; intros st st' Hst; cbn.
  - intros [= <-]. exact Hst.
  - destruct (body st x) as [st1|] eqn:E; [|discriminate].
    apply IH. eapply Hbody; eassumption.
Qed.

(** What a loop that appends to the pros comes to. *)
Lemma prosLoop_spec (keep : string -> bool) pros : forall st,
  let st' := fold_left
    (fun st pro =>
       if keep (TrimSpace pro)
       then mkFound (appendPro (found st) (TrimSpace pro)) true (consFound st)
       else st) pros st in
  Pros (found st')
  = (Pros (found st) ++ List.filter keep (List.map TrimSpace pros))%list /\
  Cons (found st') = Cons (found st) /\
  consFound st' = consFound st /\
  (prosFound st' = false ->
   prosFound st = false /\ List.filter keep (List.map TrimSpace pros) = []).
Proof.
  induction pros as [|x pros IH]; intros st; cbn [fold_left List.map List.filter].
  - cbn. rewrite app_nil_r. tauto.
  - destruct (keep (TrimSpace x)) eqn:E.
    + destruct (IH (mkFound (appendPro (found st) (TrimSpace x)) true (consFound st)))
        as (H1 & H2 & H3 & H4).
      cbn in H1, H2, H3, H4. rewrite <- app_assoc in H1.
      split; [exact H1|]. split; [exact H2|]. split; [exact H3|].
      intros H. destruct (H4 H) as [? _]. discriminate.
    + apply IH.
Qed.

Lemma consLoop_spec (keep clean : string -> bool) cons : forall st,
  let st' := fold_left
    (fun st con =>
       if keep (TrimSpace con)
       then if clean (TrimSpace con)
            then mkFound (appendCon (found st) (TrimSpace con)) (prosFound st) true
            else st
       else st) cons st in
  Cons (found st')
  = (Cons (found st)
     ++ List.filter (fun x => keep x && clean x) (List.map TrimSpace cons))%list /\
  Pros (found st') = Pros (found st) /\
  prosFound st' = prosFound st /\
  (consFound st' = false ->
   consFound st = false /\
   List.filter (fun x => keep x && clean x) (List.map TrimSpace cons) = []).
Proof.
  induction cons as [|x cons IH]; intros st; cbn [fold_left List.map List.filter].
  - cbn. rewrite app_nil_r. tauto.
  - destruct (keep (TrimSpace x)) eqn:E; cbn [andb]; [|apply IH].
    destruct (clean (TrimSpace x)) eqn:E'; [|apply IH].
    destruct (IH (mkFound (appendCon (found st) (TrimSpace x)) (prosFound st) true))
      as (H1 & H2 & H3 & H4).
    cbn in H1, H2, H3, H4. rewrite <- app_assoc in H1.
    split; [exact H1|]. split; [exact H2|]. split; [exact H3|].
    intros H. destruct (H4 H) as [? _]. discriminate.
Qed.

Lemma trimmed_map items :
  (forall item, In item items -> TrimSpace item = item) ->
  List.map TrimSpace items = items.
Proof.
  induction items as [|x items IH]; intros H; cbn; [reflexivity|].
  rewrite (H x), IH; [reflexivity| |left; reflexivity].
  intros item Hi. apply H. right. exact Hi.
Qed.

(** The items of the list splitter, filtered. *)
Lemma kept_items (keep : string -> bool) (good : string -> Prop) text items :
  splitByBullets text = Some items ->
  (forall x, TrimSpace x = x -> keep x = true -> good x) ->
  List.NoDup (List.filter keep (List.map TrimSpace items)) /\
  List.Forall good (List.filter keep (List.map TrimSpace items)).
Proof.
  intros Hs Hgood. destruct (splitByBullets_items text items Hs) as [Hnd Htr].
  rewrite trimmed_map by (intros item Hi; apply (Htr item Hi)).
  split; [apply List.NoDup_filter, Hnd|].
  apply List.Forall_forall. intros x Hx. apply filter_In in Hx.
  destruct Hx as [Hx Hk]. apply Hgood; [apply (Htr x Hx)|exact Hk].
Qed.

Lemma prosLoop_tidy (keep : string -> bool) text pros st :
  splitByBullets text = Some pros ->
  (forall x, keep x = true -> 3 < len x) ->
  tidy st -> prosFound st = false ->
  tidy (fold_left
          (fun st pro =>
             if keep (TrimSpace pro)
             then mkFound (appendPro (found st) (TrimSpace pro)) true (consFound st)
             else st) pros st).
Proof.
  intros Hs Hkeep ((Hp & Hc & Hgp & Hgc) & Hfp & Hfc) Hflag.
  destruct (prosLoop_spec keep pros st) as (H1 & H2 & H3 & H4).
  destruct (kept_items keep goodPro text pros Hs) as [Hnd Hgood].
  { intros x Hx Hk. split; [exact Hx|apply Hkeep, Hk]. }
  rewrite (Hfp Hflag) in H1. cbn [app] in H1.
  unfold tidy, neat. rewrite H1, H2, H3.
  repeat split; try assumption.
  intros H. apply H4 in H. apply H.
Qed.

Lemma consLoop_tidy (keep : string -> bool) text cons st :
  splitByBullets text = Some cons ->
  (forall x, keep x = true -> 3 < len x) ->
  tidy st -> consFound st = false ->
  tidy (fold_left
          (fun st con =>
             if keep (TrimSpace con)
             then if negb (hasMarkup (TrimSpace con))
                  then mkFound (appendCon (found st) (TrimSpace con))
                         (prosFound st) true
                  else st
             else st) cons st).
Proof.
  intros Hs Hkeep ((Hp & Hc & Hgp & Hgc) & Hfp & Hfc) Hflag.
  destruct (consLoop_spec keep (fun x => negb (hasMarkup x)) cons st)
    as (H1 & H2 & H3 & H4).
  destruct (kept_items (fun x => keep x && negb (hasMarkup x)) goodCon text cons Hs)
    as [Hnd Hgood].
  { intros x Hx Hk. apply andb_prop in Hk. destruct Hk as [Hk Hm].
    split; [exact Hx|]. split; [apply Hkeep, Hk|]. apply negb_true_iff, Hm. }
  rewrite (Hfc Hflag) in H1. cbn [app] in H1.
  unfold tidy, neat. rewrite H1, H2, H3.
  repeat split; try assumption.
  intros H. apply H4 in H. apply H.
Qed.

Lemma gt3 (a b c : bool) x :
  a && (3 <? len x) && b = true -> 3 < len x.
Proof.
  intros H. apply andb_prop in H. destruct H as [H _].
  apply andb_prop in H. destruct H as [_ H]. lia.
Qed.

Lemma prosFromRegex_tidy html st st' :
  tidy st -> prosFound st = false ->
  prosFromRegex html st = Some st' -> tidy st' /\ consFound st' = consFound st.
Proof.
  intros Hst Hflag. unfold prosFromRegex.
  destruct (1 <? _); [|intros [= <-]; tauto].
  destruct (index _ 1) as [c|]; cbn; [|discriminate].
  destruct (splitByBullets c) as [pros|] eqn:Hs; cbn; [|discriminate].
  intros [= <-]. split.
  - apply (prosLoop_tidy
             (fun pro => nonEmpty pro && (3 <? len pro)
                         && negb (Contains (ToLower pro) "cons:")) c);
      try assumption.
    intros x. apply (gt3 _ _ true).
  - apply (prosLoop_spec
             (fun pro => nonEmpty pro && (3 <? len pro)
                         && negb (Contains (ToLower pro) "cons:"))).
Qed.

Lemma consFromRegex_tidy html st st' :
  tidy st -> consFound st = false ->
  consFromRegex html st = Some st' -> tidy st'.
Proof.
  intros Hst Hflag. unfold consFromRegex.
  destruct (1 <? _); [|intros [= <-]; tauto].
  destruct (index _ 1) as [c|]; cbn; [|discriminate].
  destruct (_ && _); [|intros [= <-]; tauto].
  destruct (splitByBullets c) as [cons|] eqn:Hs; cbn; [|discriminate].
  intros [= <-].
  apply (consLoop_tidy
           (fun con => nonEmpty con && (10 <? len con)
                       && negb (Contains con "idered")) c);
    try assumption.
  intros x H. apply andb_prop in H. destruct H as [H _].
  apply andb_prop in H. destruct H as [_ H]. lia.
Qed.

Lemma prosFromSection_tidy text lowerText st st' :
  tidy st -> prosFromSection text lowerText st = Some st' -> tidy st'.
Proof.
  intros Hst. unfold prosFromSection.
  destruct (negb (prosFound st)) eqn:Hflag; cbn [andb]; [|intros [= <-]; exact Hst].
  apply negb_true_iff in Hflag.
  destruct (_ || _); [|intros [= <-]; exact Hst].
  match goal with |- context [mbind _ ?o] => destruct o as [l|] end; cbn;
    [|discriminate].
  destruct (splitByBullets l) as [pros|] eqn:Hs; cbn; [|discriminate].
  intros [= <-].
  apply (prosLoop_tidy
           (fun pro => nonEmpty pro && (3 <? len pro)
                       && negb (Contains (ToLower pro) "cons")) l);
    try assumption.
  intros x. apply (gt3 _ _ true).
Qed.

Lemma consFromSection_tidy text lowerText st st' :
  tidy st -> consFromSection text lowerText st = Some st' -> tidy st'.
Proof.
  intros Hst. unfold consFromSection.
  destruct (negb (consFound st)) eqn:Hflag; cbn [andb]; [|intros [= <-]; exact Hst].
  apply negb_true_iff in Hflag.
  destruct (_ || _); [|intros [= <-]; exact Hst].
  match goal with |- context [mbind _ ?o] => destruct o as [l|] end; cbn;
    [|discriminate].
  destruct (splitByBullets l) as [cons|] eqn:Hs; cbn; [|discriminate].
  intros [= <-].
  apply (consLoop_tidy (fun con => nonEmpty con && (3 <? len con)) l);
    try assumption.
  intros x H. apply andb_prop in H. destruct H as [_ H]. lia.
Qed.

Lemma extractProsCons_neat doc p p' :
  Pros p = [] -> Cons p = [] -> extractProsCons doc p = Some p' -> neat p'.
Proof.
  intros Hp Hc. unfold extractProsCons.
  assert (H0 : tidy (mkFound p false false)).
  { unfold tidy, neat. cbn. rewrite Hp, Hc.
    repeat split; try constructor. }
  destruct (prosConsFromHtml doc _) as [st|] eqn:E; cbn; [|discriminate].
  assert (Hst : tidy st).
  { revert E. unfold prosConsFromHtml. destruct (Html doc) as [h|];
      [|intros [= <-]; exact H0].
    destruct (prosFromRegex h _) as [st1|] eqn:E1; cbn; [|discriminate].
    destruct (prosFromRegex_tidy _ _ _ H0 eq_refl E1) as [H1 Hf].
    apply consFromRegex_tidy; assumption. }
  destruct (_ || _); cbn.
  - destruct (forEach _ _ st) as [st'|] eqn:E'; cbn; [|discriminate].
    intros [= <-].
    apply (forEach_invariant tidy prosConsFromSection (sectionNodes doc))
      with (st := st) (st' := st'); [|exact Hst|exact E'].
    clear. intros st s st' Hst. unfold prosConsFromSection.
    destruct (prosFromSection _ _ st) as [st1|] eqn:E; cbn; [|discriminate].
    apply consFromSection_tidy. eapply prosFromSection_tidy; eassumption.
  - intros [= <-]. apply Hst.
Qed.

Lemma prosConsFromList_neat doc p : neat p -> neat (prosConsFromList doc p).
Proof.
  unfold prosConsFromList. apply fold_left_invariant.
  clear p. intros p [text parent] (Hp & Hc & Hgp & Hgc). cbn [fst snd].
  destruct (nonEmpty (TrimSpace text) && (3 <? len (TrimSpace text))) eqn:E;
    [|repeat split; assumption].
  apply andb_prop in E. destruct E as [_ Hlen]. apply Z.ltb_lt in Hlen.
  destruct (_ && _).
  - destruct (contains (Pros p) (TrimSpace text)) eqn:Ec; cbn [negb];
      [repeat split; assumption|].
    unfold neat, appendPro. cbn. repeat split; try assumption.
    + apply NoDup_snoc; [exact Hp|]. intros H. apply contains_In in H. congruence.
    + apply Forall_app. split; [exact Hgp|]. constructor; [|constructor].
      split; [apply TrimSpace_idempotent|exact Hlen].
  - destruct (Contains (ToLower parent) "cons"); [|repeat split; assumption].
    destruct (contains (Cons p) (TrimSpace text)) eqn:Ec; cbn [negb andb];
      [repeat split; assumption|].
    destruct (hasMarkup (TrimSpace text)) eqn:Em; cbn [negb];
      [repeat split; assumption|].
    unfold neat, appendCon. cbn. repeat split; try assumption.
    + apply NoDup_snoc; [exact Hc|]. intros H. apply contains_In in H. congruence.
    + apply Forall_app. split; [exact Hgc|]. constructor; [|constructor].
      split; [apply TrimSpace_idempotent|]. split; assumption.
Qed.

Lemma parseProfile_neat baseURL clueOrder doc seed p :
  Pros seed = [] -> Cons seed = [] ->
  parseProfile baseURL clueOrder doc seed = Some p -> neat p.
Proof.
  intros Hp Hc H.
  destruct (parseProfile_stages _ _ _ _ _ H)
    as (p1 & p2 & p3 & p4 & p5 & E1 & E2 & E3 & E4 & E5 & ->).
  assert (Hpre : forall f : Profile -> list string,
    (forall v p, f (setName v p) = f p) ->
    (forall v p, f (setVerdict v p) = f p) ->
    (forall v p, f (setDescription v p) = f p) ->
    f (descriptionFromTable doc
         (descriptionFromMeta doc (descriptionFromNodes doc p3))) = f seed).
  { intros f Hn Hv Hd.
    rewrite (descriptions_keep f Hd _ _ _ E3), (verdict_keeps f Hv _ _ _ E2).
    apply (names_keep f Hn _ _ _ E1). }
  assert (H4 : neat (prosConsFromList doc p4)).
  { apply prosConsFromList_neat.
    refine (extractProsCons_neat doc _ p4 _ _ E4).
    - rewrite (Hpre Pros); [exact Hp|reflexivity..].
    - rewrite (Hpre Cons); [exact Hc|reflexivity..]. }
  assert (HP : Pros (extractImage baseURL doc (inferCategory clueOrder doc p5))
               = Pros (prosConsFromList doc p4)).
  { rewrite (image_keeps Pros (fun _ _ => eq_refl)).
    apply (categories_keep Pros (fun _ _ => eq_refl) clueOrder doc _ _ E5). }
  assert (HC : Cons (extractImage baseURL doc (inferCategory clueOrder doc p5))
               = Cons (prosConsFromList doc p4)).
  { rewrite (image_keeps Cons (fun _ _ => eq_refl)).
    apply (categories_keep Cons (fun _ _ => eq_refl) clueOrder doc _ _ E5). }
  unfold neat. rewrite HP, HC. exact H4.
Qed.

Lemma scraped_neat baseURL clueOrder id doc now :
  exists p,
    scrapeProfile baseURL clueOrder id (Page doc) now = Some (Ok p) /\ neat p.
Proof.
  destruct (scrapeProfile_page baseURL clueOrder id doc now)
    as (parsed & Hp & Hs).
  eexists. split; [exact Hs|].
  apply parseProfile_neat in Hp; [|reflexivity..].
  destruct (String.eqb (Name parsed) EmptyString); exact Hp.
Qed.

(** X17: in the record of a page no item occurs twice among the pros,
    and none twice among the cons. *)
Theorem scraped_lists_distinct baseURL clueOrder id doc now :
  exists p,
    scrapeProfile baseURL clueOrder id (Page doc) now = Some (Ok p) /\
    List.NoDup (Pros p) /\ List.NoDup (Cons p).
Proof.
  destruct (scraped_neat baseURL clueOrder id doc now) as (p & Hs & Hp & Hc & _).
  exists p. split; [exact Hs|]. split; assumption.
Qed.

(** X18: in the record of a page every item of the pros and of the cons
    is trimmed and longer than three bytes, and no item of the cons
    holds one of the fragments of markup "&#", "&lt;", "&gt;" and
    "<span". *)
Theorem scraped_lists_clean baseURL clueOrder id doc now :
  exists p,
    scrapeProfile baseURL clueOrder id (Page doc) now = Some (Ok p) /\
    (forall pro, In pro (Pros p) -> TrimSpace pro = pro /\ 3 < len pro) /\
    (forall con, In con (Cons p) ->
                 TrimSpace con = con /\ 3 < len con /\ hasMarkup con = false).
Proof.
  destruct (scraped_neat baseURL clueOrder id doc now)
    as (p & Hs & _ & _ & Hp & Hc).
  exists p. split; [exact Hs|].
  split; intros x Hx.
  - apply (proj1 (List.Forall_forall _ _) Hp x Hx).
  - apply (proj1 (List.Forall_forall _ _) Hc x Hx).
Qed.

End Lists.


(** * The identifiers linked from the home page *)

Section Links.
Import GoStrings Client Spec.

Lemma starGreedy_run p (k : GoRegexp.cont) :
  (forall s, is_Some (k s)) ->
  forall t, exists n,
    (n <= String.length t)%nat /\
    GoRegexp.starGreedy p t k = k (drop n t) /\
    allOf p (take n t) = true.
Proof.
  intros Hk. induction t as [|c t IH]; cbn [GoRegexp.starGreedy].
  - exists 0%nat. repeat split. cbn. lia.
  - destruct (p c) eqn:E.
    + destruct IH as (n & Hn & Hrun & Hall). exists (S n).
      split; [cbn; lia|]. cbn [drop take allOf]. rewrite E, Hall.
      split; [|reflexivity]. rewrite Hrun.
      destruct (Hk (drop n t)) as [m Hm]. rewrite Hm. reflexivity.
    + exists 0%nat. repeat split. cbn. lia.
Qed.

Lemma length_drop n : forall t,
  (n <= String.length t)%nat ->
  String.length (drop n t) = (String.length t - n)%nat.
Proof.
  induction n as [|n IH]; intros [|c t] H; cbn in *; try lia.
  apply IH. lia.
Qed.

(** The capture group of a match of [idRegex] is a run of digits. *)
Lemma idRegex_group s g rest :
  GoRegexp.matchHead idRegex s = Some (g, rest) ->
  exists c g', g = String c g' /\ GoRegexp.digit c = true
               /\ allOf GoRegexp.digit g' = true.
Proof.
  unfold GoRegexp.matchHead, idRegex, GoRegexp.plus. cbn [GoRegexp.matchAt].
  destruct (HasPrefix s "/profile.jsp?ID="); [|discriminate].
  destruct (drop (String.length "/profile.jsp?ID=") s) as [|c t]; [discriminate|].
  destruct (GoRegexp.digit c) eqn:Ec; [|discriminate].
  destruct (starGreedy_run GoRegexp.digit
              (fun s' => Some (take (String.length (String c t) - String.length s')
                                 (String c t), s')) (fun _ => ltac:(eauto)) t)
    as (n & Hn & Hrun & Hall).
  rewrite Hrun. intros [= <- <-].
  exists c, (take n t). split; [|split; assumption].
  rewrite length_drop by exact Hn. cbn [String.length].
  replace (S (String.length t) - (String.length t - n))%nat with (S n) by lia.
  reflexivity.
Qed.

Lemma FindAllSubmatch_from r : forall s skip m,
  In m (GoRegexp.FindAllSubmatch r skip s) ->
  exists s' g rest,
    GoRegexp.matchHead r s' = Some (g, rest) /\
    m = [take (String.length s' - String.length rest) s'; g].
Proof.
  induction s as [|c s IH]; intros skip m; cbn [GoRegexp.FindAllSubmatch];
    [intros []|].
  destruct skip as [|k]; [|apply IH].
  destruct (GoRegexp.matchHead r (String c s)) as [[g rest]|] eqn:E; [|apply IH].
  intros [<-|H]; [|eapply IH, H]. eauto.
Qed.

Lemma FindAllSubmatch_none r : forall s skip,
  (forall n, GoRegexp.matchHead r (drop n s) = None) ->
  GoRegexp.FindAllSubmatch r skip s = [].
Proof.
  induction s as [|c s IH]; intros skip Hnone; cbn [GoRegexp.FindAllSubmatch];
    [reflexivity|].
  assert (Hs : forall n, GoRegexp.matchHead r (drop n s) = None).
  { intros n. apply (Hnone (S n)). }
  destruct skip as [|k]; [|apply IH, Hs].
  pose proof (Hnone 0%nat) as H0. cbn [drop] in H0. rewrite H0. apply IH, Hs.
Qed.

Lemma digits_grow g : forall acc v,
  0 <= acc -> GoStrconv.digits g acc = Some v -> acc <= v.
Proof.
  induction g as [|c g IH]; intros acc v Hacc; cbn [GoStrconv.digits].
  - intros [= <-]. lia.
  - destruct (GoRegexp.digit c) eqn:E; [|discriminate]. intros H.
    unfold GoRegexp.digit in E. apply andb_prop in E. destruct E as [E _].
    apply N.leb_le in E.
    apply IH in H; lia.
Qed.

Lemma Atoi_unsigned c g :
  GoRegexp.digit c = true ->
  GoStrconv.Atoi (String c g)
  = (n ← GoStrconv.digits (String c g) 0;
     if (- 2 ^ 63 <=? n) && (n <=? 2 ^ 63 - 1) then Some n else None).
Proof.
  intros Hd.
  destruct c as [[] [] [] [] [] [] [] []];
    try (exfalso; vm_compute in Hd; discriminate Hd); reflexivity.
Qed.

Lemma Atoi_of_group c g id :
  GoRegexp.digit c = true ->
  GoStrconv.Atoi (String c g) = Some id -> 0 <= id <= 2 ^ 63 - 1.
Proof.
  intros Hd. rewrite (Atoi_unsigned c g Hd).
  destruct (GoStrconv.digits (String c g) 0) as [n|] eqn:E; cbn; [|discriminate].
  apply digits_grow in E; [|lia].
  destruct (Z.leb_spec (- 2 ^ 63) n); cbn; [|discriminate].
  destruct (Z.leb_spec n (2 ^ 63 - 1)); [|discriminate].
  intros [= <-]. lia.
Qed.

Lemma collectID_sound matches : forall st st',
  (forall m, In m matches ->
     exists whole c g, m = [whole; String c g] /\ GoRegexp.digit c = true) ->
  (List.NoDup (fst st) /\
   (forall id, In id (fst st) <-> id ∈ snd st) /\
   (forall id, In id (fst st) -> 0 <= id <= 2 ^ 63 - 1)) ->
  forEach collectID matches st = Some st' ->
  List.NoDup (fst st') /\
  (forall id, In id (fst st') <-> id ∈ snd st') /\
  (forall id, In id (fst st') -> 0 <= id <= 2 ^ 63 - 1).
Proof.
  induction matches as [|m matches IH]; intros st st' Hm Hst; cbn [forEach].
  - intros [= <-]. exact Hst.
  - destruct (collectID st m) as [st1|] eqn:E; [|discriminate].
    apply IH; [intros m' Hm'; apply Hm; right; exact Hm'|].
    destruct (Hm m (or_introl eq_refl)) as (whole & c & g & -> & Hd).
    destruct st as [ids seen]. destruct Hst as (Hnd & Hseen & Hrange).
    cbn [fst snd] in Hnd, Hseen, Hrange.
    unfold collectID in E. cbn [length] in E.
    change (2 <=? Z.of_nat 2) with true in E.
    change (index [whole; String c g] 1) with (Some (String c g)) in E.
    cbn [mbind option_bind] in E.
    destruct (GoStrconv.Atoi (String c g)) as [id|] eqn:Ea;
      [|injection E as <-; exact (conj Hnd (conj Hseen Hrange))].
    destruct (bool_decide_reflect (id ∈ seen)) as [Hin|Hin]; cbn [negb] in E;
      injection E as <-; [exact (conj Hnd (conj Hseen Hrange))|].
    cbn [fst snd]. split; [|split].
    + apply NoDup_snoc; [exact Hnd|]. rewrite Hseen. exact Hin.
    + intros id'. rewrite in_app_iff, Hseen, elem_of_union, elem_of_singleton.
      cbn. intuition congruence.
    + intros id'. rewrite in_app_iff. cbn. intros [H|[<-|[]]];
        [apply Hrange, H|apply (Atoi_of_group c g id Hd Ea)].
Qed.

Lemma collectID_total st match_ : is_Some (collectID st match_).
Proof.
  destruct st as [ids seen]. unfold collectID.
  destruct (Z.leb_spec 2 (Z.of_nat (length match_))); [|eauto].
  destruct match_ as [|whole [|idStr rest]]; cbn [length] in *; try lia.
  change (index (whole :: idStr :: rest) 1) with (Some idStr).
  cbn [mbind option_bind]. cases; eauto.
Qed.

Lemma HasPrefix_Contains sub : forall s n,
  Contains s sub = false -> HasPrefix (drop n s) sub = false.
Proof.
  induction s as [|c s IH]; intros n H.
  - destruct n; cbn [drop]; destruct sub; cbn in *; congruence.
  - cbn [Contains] in H. apply orb_false_elim in H. destruct H as [H1 H2].
    destruct n as [|n]; cbn [drop]; [exact H1|apply IH, H2].
Qed.

(** X19: [getProfileIDs] gives an error exactly when the home page does
    not come back; else it never fails, and the identifiers it returns
    are numbers from 0 to 2^63 - 1, none of them twice; a page without
    the text "/profile.jsp?ID=" gives no identifier. *)
Theorem getProfileIDs_unique (resp : Homepage) :
  exists r,
    getProfileIDs resp = Some r /\
    match r with
    | IDs profileIDs =>
        (exists body, resp = HomeBody body) /\
        List.NoDup profileIDs /\
        (forall id, In id profileIDs -> 0 <= id <= 2 ^ 63 - 1) /\
        (forall body, resp = HomeBody body ->
                      Contains body "/profile.jsp?ID=" = false -> profileIDs = [])
    | IDsErr _ => forall body, resp <> HomeBody body
    end.
Proof.
  destruct resp as [| | |body]; cbn [getProfileIDs];
    try (eexists; split; [reflexivity|]; cbn; intros; discriminate).
  assert (Hm : forall m,
    In m (GoRegexp.FindAllSubmatch idRegex 0 body) ->
    exists whole c g, m = [whole; String c g] /\ GoRegexp.digit c = true).
  { intros m H. apply FindAllSubmatch_from in H.
    destruct H as (s' & g & rest & Hh & ->).
    apply idRegex_group in Hh. destruct Hh as (c & g' & -> & Hd & _). eauto. }
  destruct (forEach collectID (GoRegexp.FindAllSubmatch idRegex 0 body) ([], ∅))
    as [st|] eqn:E.
  - exists (IDs (fst st)). split; [reflexivity|].
    assert (H0 : List.NoDup (fst ([] : list Z, ∅ : gset Z)) /\
                 (forall id, In id (fst ([] : list Z, ∅ : gset Z))
                             <-> id ∈ snd ([] : list Z, ∅ : gset Z)) /\
                 (forall id, In id (fst ([] : list Z, ∅ : gset Z)) ->
                             0 <= id <= 2 ^ 63 - 1)).
    { cbn. split; [constructor|]. split; [|tauto].
      intros id. split; [tauto|]. intros H. apply not_elem_of_empty in H. exact H. }
    destruct (collectID_sound _ _ _ Hm H0 E) as (Hnd & _ & Hrange).
    split; [eauto|]. split; [exact Hnd|]. split; [exact Hrange|].
    intros body' [= <-] Hc.
    rewrite FindAllSubmatch_none in E; [cbn in E; injection E as <-; reflexivity|].
    intros n. unfold GoRegexp.matchHead, idRegex. cbn [GoRegexp.matchAt].
    rewrite (HasPrefix_Contains _ _ n Hc). reflexivity.
  - exfalso.
    destruct (forEach_total collectID (GoRegexp.FindAllSubmatch idRegex 0 body)
                collectID_total ([], ∅)) as [st Hst].
    congruence.
Qed.

End Links.


(** * The files of the records *)

Section Files.
Import GoStrings Client Spec.

Lemma hexDigit_byte n :
  (n < 16)%N ->
  byte (GoURL.hexDigit n) = (if n <? 10 then 48 + n else 55 + n)%N.
Proof.
  intros H. rewrite <- (N2Nat.id n).
  assert (Hk : (N.to_nat n < 16)%nat) by lia.
  revert Hk. generalize (N.to_nat n). intros k Hk.
  do 16 (destruct k as [|k]; [reflexivity|]). lia.
Qed.

Lemma hexDigit_inj a b :
  (a < 16)%N -> (b < 16)%N -> GoURL.hexDigit a = GoURL.hexDigit b -> a = b.
Proof.
  intros Ha Hb H. apply (f_equal byte) in H.
  rewrite (hexDigit_byte a Ha), (hexDigit_byte b Hb) in H.
  destruct (N.ltb_spec a 10), (N.ltb_spec b 10); lia.
Qed.

Lemma byte_inj c d : byte c = byte d -> c = d.
Proof.
  unfold byte. intros H.
  rewrite <- (ascii_N_embedding c), <- (ascii_N_embedding d), H. reflexivity.
Qed.

Lemma byte_split c d :
  (byte c / 16 = byte d / 16)%N -> (byte c mod 16 = byte d mod 16)%N -> c = d.
Proof.
  intros Hq Hr. apply byte_inj.
  rewrite (N.div_mod (byte c) 16), (N.div_mod (byte d) 16) by lia.
  rewrite Hq, Hr. reflexivity.
Qed.

Lemma byte_nibbles c : (byte c / 16 < 16)%N /\ (byte c mod 16 < 16)%N.
Proof.
  pose proof (N_ascii_bounded c) as H. unfold byte. split.
  - apply N.Div0.div_lt_upper_bound. exact H.
  - apply N.mod_lt. lia.
Qed.

Lemma PathEscape_inj a : forall b,
  GoURL.PathEscape a = GoURL.PathEscape b -> a = b.
Proof.
  induction a as [|c a IH]; intros [|d b]; cbn [GoURL.PathEscape].
  - reflexivity.
  - destruct (GoURL.shouldEscape d); discriminate.
  - destruct (GoURL.shouldEscape c); discriminate.
  - destruct (byte_nibbles c) as [Hc1 Hc2], (byte_nibbles d) as [Hd1 Hd2].
    destruct (GoURL.shouldEscape c) eqn:Ec, (GoURL.shouldEscape d) eqn:Ed;
      intros H; injection H as H.
    + apply hexDigit_inj in H, H0; try assumption.
      rewrite (byte_split c d H H0). f_equal. apply IH. assumption.
    + subst d. vm_compute in Ed. discriminate.
    + subst c. vm_compute in Ec. discriminate.
    + subst d. f_equal. apply IH. assumption.
Qed.

Lemma Contains_byte x c t :
  Contains (String c t) (String x EmptyString)
  = Ascii.eqb c x || Contains t (String x EmptyString).
Proof. destruct t; cbn; rewrite andb_true_r; reflexivity. Qed.

Lemma hexDigit_plain n : (n < 16)%N -> Ascii.eqb (GoURL.hexDigit n) "/" = false.
Proof.
  intros H. apply Ascii.eqb_neq. intros E. apply (f_equal byte) in E.
  rewrite (hexDigit_byte n H) in E. change (byte "/") with 47%N in E.
  destruct (N.ltb_spec n 10); lia.
Qed.

Lemma PathEscape_plain s suffix :
  Contains suffix "/" = false ->
  Contains (GoURL.PathEscape s +:+ suffix) "/" = false.
Proof.
  intros Hs. induction s as [|c s IH]; cbn [GoURL.PathEscape]; [exact Hs|].
  destruct (byte_nibbles c) as [H1 H2].
  destruct (GoURL.shouldEscape c) eqn:E; rewrite ?append_cons, ?Contains_byte, IH.
  - rewrite !hexDigit_plain by assumption. reflexivity.
  - destruct (Ascii.eqb_spec c "/") as [->|]; [|reflexivity].
    vm_compute in E. discriminate.
Qed.

Lemma HasSuffix_append a b : HasSuffix (a +:+ b) b = true.
Proof.
  unfold HasSuffix. rewrite rev_append. apply HasPrefix_append, HasPrefix_refl.
Qed.

Lemma append_inj_r (a b c : string) : a +:+ c = b +:+ c -> a = b.
Proof.
  intros H. apply (f_equal rev) in H. rewrite !rev_append in H.
  apply String.app_inj in H. apply (f_equal rev) in H.
  rewrite !rev_involutive in H. exact H.
Qed.

(** X20: [saveProfileToJSON] refuses a nil record and a record without a
    name; for a named record that is marshalled and written, the file is
    named by the percent-escaped name followed by ".json", whatever the
    address and the clock (the fallback names are never used); that name
    holds no "/", so the file lies in the data directory itself, it is
    one of the files [LoadFromDisk] reads, and two records have the same
    file exactly when they have the same name. *)
Theorem saveProfileToJSON_file profile queryID stamp marshalled written :
  saveProfileToJSON None queryID stamp marshalled written
  = SaveErr "cannot save nil or unnamed profile" /\
  match saveProfileToJSON (Some profile) queryID stamp marshalled written with
  | Saved fileName =>
      Name profile <> EmptyString /\
      fileName = GoURL.PathEscape (Name profile) +:+ ".json" /\
      Contains fileName "/" = false /\
      isProfileFile (mkDirEntry false fileName (Some (Some profile))) = true
  | SaveErr _ =>
      Name profile = EmptyString \/ marshalled = false \/ written = false
  end /\
  (forall other,
      String.eqb (GoURL.PathEscape (Name profile) +:+ ".json")
        (GoURL.PathEscape (Name other) +:+ ".json")
      = String.eqb (Name profile) (Name other)).
Proof.
  split; [reflexivity|]. split.
  - unfold saveProfileToJSON.
    destruct (String.eqb_spec (Name profile) EmptyString) as [E|E]; [tauto|].
    destruct marshalled; cbn [negb]; [|tauto].
    destruct written; cbn [negb]; [|tauto].
    destruct (String.eqb_spec (GoURL.PathEscape (Name profile)) EmptyString)
      as [E'|E'].
    { exfalso. apply E. apply PathEscape_inj. exact E'. }
    split; [exact E|]. split; [reflexivity|]. split.
    + apply PathEscape_plain. reflexivity.
    + unfold isProfileFile. cbn. apply HasSuffix_append.
  - intros other.
    destruct (String.eqb_spec (Name profile) (Name other)) as [E|E].
    + rewrite E. apply String.eqb_refl.
    + apply String.eqb_neq. intros H. apply E, PathEscape_inj.
      apply append_inj_r in H. exact H.
Qed.

(** X21: the snippet of the page that [scrapeProfile] prints for debugging
    never reads outside the page: the slice up to [min(200, len)] is in
    range, it is the page itself when the page has at most 200 bytes and
    its first 200 bytes otherwise. *)
Theorem snippet_in_range (bodyContent : string) :
  exists s,
    snippet bodyContent = Some s /\
    len s = min 200 (len bodyContent) /\
    HasPrefix bodyContent s = true /\
    (len bodyContent <= 200 -> s = bodyContent).
Proof.
  unfold snippet, sliceTo, min, len.
  destruct (Z.ltb_spec 200 (Z.of_nat (String.length bodyContent))) as [H|H].
  - rewrite (proj2 (Z.leb_le 0 200)), (proj2 (Z.leb_le 200 _)) by lia. cbn [andb].
    eexists. split; [reflexivity|].
    assert (G : forall n s, (n <= String.length s)%nat ->
                String.length (take n s) = n /\ HasPrefix s (take n s) = true).
    { induction n as [|n IH]; intros [|c s] Hn; cbn in *; try lia; try tauto.
      destruct (IH s ltac:(lia)) as [H1 H2].
      rewrite H1, H2, Ascii.eqb_refl. tauto. }
    destruct (G (Z.to_nat 200) bodyContent ltac:(lia)) as [H1 H2].
    rewrite H1. split; [lia|]. split; [exact H2|]. lia.
  - rewrite (proj2 (Z.leb_le 0 _)), Z.leb_refl by lia. cbn [andb].
    eexists. split; [reflexivity|].
    rewrite Nat2Z.id, take_all. split; [reflexivity|].
    split; [apply HasPrefix_refl|reflexivity].
Qed.

End Files.


(** * The inferred category *)

Section Category.
Import GoStrings Client Spec.

Lemma categoryFromKeywords_vocabulary ks : forall p,
  Category (categoryFromKeywords ks p) = Category p \/
  In (Category (categoryFromKeywords ks p)) categories.
Proof.
  induction ks as [|k ks IH]; intros p; cbn [categoryFromKeywords];
    [left; reflexivity|].
  match goal with |- context [List.find ?g categories] =>
    destruct (List.find g categories) as [cat|] eqn:E end.
  - apply find_some in E. destruct E as [E _].
    destruct (nonEmpty (Category (setCategory cat p))); [right; exact E|].
    destruct (IH (setCategory cat p)) as [H|H]; [|right; exact H].
    right. rewrite H. exact E.
  - destruct (nonEmpty (Category p)); [left; reflexivity|apply IH].
Qed.

(** X22: a category that is already set (read from a "Category" label of
    the page) is left alone by the inference; and whatever the inference
    assigns is one of the 21 names of the category list (from the meta
    keywords) or a category of the clue table (from the description),
    in whatever order the table is ranged over. *)
Theorem inferred_category clueOrder doc p :
  (inferCategory clueOrder doc p
   = if nonEmpty (Category p) then p else inferCategory clueOrder doc p) /\
  (Category (inferCategory clueOrder doc p) = Category p \/
   In (Category (inferCategory clueOrder doc p)) categories \/
   In (Category (inferCategory clueOrder doc p)) (List.map snd clueOrder)).
Proof.
  split.
  - unfold inferCategory, nonEmpty.
    destruct (String.eqb (Category p) EmptyString); reflexivity.
  - unfold inferCategory. destruct (String.eqb (Category p) EmptyString);
      [|left; reflexivity].
    set (q := match metaKeywords doc with
              | Some keywords =>
                  if nonEmpty keywords
                  then categoryFromKeywords (Split keywords ",") p else p
              | None => p
              end).
    assert (Hq : Category q = Category p \/ In (Category q) categories).
    { subst q. destruct (metaKeywords doc) as [keywords|]; [|left; reflexivity].
      destruct (nonEmpty keywords); [|left; reflexivity].
      apply categoryFromKeywords_vocabulary. }
    unfold categoryFromDescription.
    destruct (String.eqb (Category q) EmptyString && nonEmpty (Description q));
      [|destruct Hq; tauto].
    match goal with |- context [List.find ?g clueOrder] =>
      destruct (List.find g clueOrder) as [clue|] eqn:E end;
      [|destruct Hq; tauto].
    apply find_some in E. destruct E as [E _].
    right. right. cbn. apply in_map. exact E.
Qed.

End Category.


(** * Progress of the harvest *)

Section Progress.
Import GoStrings Client Spec.

Lemma worker_moves s id w :
  workers s !! id = Some w ->
  exists e s', step s e = Some s' /\ workers s' !! id <> Some w.
Proof.
  intros Hw. destruct w as [| | |p|p|outcome|].
  - exists (Return id GetFailed [] EmptyString). eexists.
    cbn. rewrite Hw. cbn. split; [reflexivity|].
    cbn. rewrite lookup_insert_eq. discriminate.
  - exists (Count id). eexists. cbn. rewrite Hw. split; [reflexivity|].
    cbn. rewrite lookup_insert_eq. discriminate.
  - exists (Count id). eexists. cbn. rewrite Hw. split; [reflexivity|].
    cbn. rewrite lookup_insert_eq. discriminate.
  - exists (Count id). eexists. cbn. rewrite Hw. split; [reflexivity|].
    cbn. rewrite lookup_insert_eq. discriminate.
  - exists (Merge id EmptyString). cbn. rewrite Hw.
    destruct (mergeProfile EmptyString p (profiles s)) as [m outcome].
    eexists. split; [reflexivity|].
    cbn. rewrite lookup_insert_eq. discriminate.
  - exists (Report id). cbn. rewrite Hw.
    destruct outcome; eexists; (split; [reflexivity|]);
      cbn; rewrite lookup_insert_eq; discriminate.
  - exists (Exit id). eexists. cbn. rewrite Hw. split; [reflexivity|].
    cbn. rewrite lookup_delete_eq. discriminate.
Qed.

(** X23: the harvest never blocks: in every state either the loop has
    been left and every worker has exited, or some step can happen; and
    every worker in flight has a step that takes it further, whatever
    the other workers and the main goroutine do. *)
Theorem no_deadlock (s : State) :
  ((loop s = Finished /\ workers s = ∅) \/ exists e s', step s e = Some s') /\
  (forall id w, workers s !! id = Some w ->
     exists e s', step s e = Some s' /\ workers s' !! id <> Some w).
Proof.
  split; [|intros id w; apply worker_moves].
  destruct (decide (workers s = ∅)) as [Hnone|Hsome].
  - destruct (loop s) as [id|id|] eqn:El.
    + right. exists Check. cbn. rewrite El. cases; eauto.
    + right. exists Dispatch. cbn. rewrite El, Hnone, map_size_empty.
      rewrite bool_decide_eq_true_2 by (unfold concurrentRequests; lia). eauto.
    + left. split; [reflexivity|exact Hnone].
  - right. apply map_choose in Hsome. destruct Hsome as (id & w & Hw).
    destruct (worker_moves s id w Hw) as (e & s' & H & _). eauto.
Qed.

Lemma run_app events : forall s s1 more s2,
  run s events = Some s1 -> run s1 more = Some s2 ->
  run s (events ++ more) = Some s2.
Proof.
  induction events as [|e events IH]; intros s s1 more s2; cbn.
  - intros [= <-] H. exact H.
  - destruct (step s e) as [s'|]; [|discriminate]. apply IH.
Qed.

Lemma dispatches_app events more :
  dispatches (events ++ more) = (dispatches events + dispatches more)%nat.
Proof. unfold dispatches. rewrite List.filter_app, length_app. reflexivity. Qed.

Lemma worker_advances s id w :
  workers s !! id = Some w ->
  exists e s',
    step s e = Some s' /\ isDispatch e = false /\ loop s' = loop s /\
    (workers s' = delete id (workers s) \/
     exists w', workers s' = <[id := w']> (workers s) /\
                (stepsLeft w' < stepsLeft w)%nat).
Proof.
  intros Hw. destruct w as [| | |p|p|outcome|].
  - exists (Return id GetFailed [] EmptyString). eexists.
    cbn. rewrite Hw. cbn. repeat split. right. eexists. split; [reflexivity|].
    cbn. lia.
  - exists (Count id). eexists. cbn. rewrite Hw. repeat split.
    right. eexists. split; [reflexivity|]. cbn. lia.
  - exists (Count id). eexists. cbn. rewrite Hw. repeat split.
    right. eexists. split; [reflexivity|]. cbn. lia.
  - exists (Count id). eexists. cbn. rewrite Hw. repeat split.
    right. eexists. split; [reflexivity|]. cbn. lia.
  - exists (Merge id EmptyString). cbn. rewrite Hw.
    destruct (mergeProfile EmptyString p (profiles s)) as [m outcome].
    eexists. repeat split. right. eexists. split; [reflexivity|]. cbn. lia.
  - exists (Report id). cbn. rewrite Hw.
    destruct outcome; eexists; repeat split;
      right; eexists; (split; [reflexivity|]); cbn; lia.
  - exists (Exit id). eexists. cbn. rewrite Hw. repeat split. left. reflexivity.
Qed.

Lemma worker_finishes k : forall s id w,
  workers s !! id = Some w -> (stepsLeft w <= k)%nat ->
  exists events s',
    run s events = Some s' /\ dispatches events = 0%nat /\
    loop s' = loop s /\ workers s' = delete id (workers s).
Proof.
  induction k as [|k IH]; intros s id w Hw Hk; [destruct w; cbn in Hk; lia|].
  destruct (worker_advances s id w Hw) as (e & s1 & He & Hd & Hl & [Hdel|Hins]).
  - exists [e], s1. cbn. rewrite He. unfold dispatches. cbn. rewrite Hd.
    repeat split; assumption.
  - destruct Hins as (w' & Hw' & Hlt).
    destruct (IH s1 id w') as (events & s2 & Hrun & Hn & Hl2 & Hw2);
      [rewrite Hw'; apply lookup_insert_eq|lia|].
    exists (e :: events), s2. cbn [run]. rewrite He.
    split; [exact Hrun|]. rewrite dispatches_cons, Hd, Hn.
    split; [reflexivity|]. split; [congruence|].
    rewrite Hw2, Hw'. apply delete_insert_eq.
Qed.

Lemma workers_drain n : forall s,
  size (workers s) = n ->
  exists events s',
    run s events = Some s' /\ dispatches events = 0%nat /\
    loop s' = loop s /\ workers s' = ∅.
Proof.
  induction n as [|n IH]; intros s Hn.
  - exists [], s. repeat split. apply map_size_empty_inv, Hn.
  - assert (Hne : workers s <> ∅).
    { intros E. rewrite E, map_size_empty in Hn. discriminate. }
    apply map_choose in Hne. destruct Hne as (id & w & Hw).
    destruct (worker_finishes (stepsLeft w) s id w Hw (le_n _))
      as (events & s1 & Hrun & Hd & Hl & Hws).
    destruct (IH s1) as (more & s2 & Hrun2 & Hd2 & Hl2 & Hws2).
    { rewrite Hws, map_size_delete_Some by eauto. rewrite Hn. reflexivity. }
    exists (events ++ more)%list, s2.
    split; [eapply run_app; eassumption|].
    rewrite dispatches_app, Hd, Hd2. repeat split; congruence.
Qed.

Lemma loop_left s id :
  loop s = AtCheck id -> maxID < id ->
  exists events s', run s events = Some s' /\ loop s' = Finished /\ workers s' = ∅.
Proof.
  intros Hl Hid.
  destruct (workers_drain _ s eq_refl) as (events & s1 & Hrun & _ & Hl1 & Hw1).
  exists (events ++ [Check])%list, (setLoop Finished s1).
  split; [|split; [reflexivity|exact Hw1]].
  eapply run_app; [exact Hrun|]. cbn. rewrite Hl1, Hl.
  rewrite (proj2 (Z.leb_gt _ _)) by lia. reflexivity.
Qed.

Lemma harvest_ends k : forall s,
  match loop s with
  | AtCheck id => maxID + 1 - id <= Z.of_nat k
  | Passed id => maxID + 1 - id <= Z.of_nat k
  | Finished => True
  end ->
  exists events s', run s events = Some s' /\ loop s' = Finished /\ workers s' = ∅.
Proof.
  induction k as [|k IH]; intros s Hk;
    destruct (workers_drain _ s eq_refl) as (events & s1 & Hrun & _ & Hl1 & Hw1);
    destruct (loop s) as [id|id|] eqn:El;
    try (exists events, s1; repeat split; congruence).
  - apply loop_left with (id := id); [exact El|lia].
  - assert (Hd : step s1 Dispatch
                 = Some (setLoop (AtCheck (id + 1)) (setWorker id Fetching s1))).
    { cbn. rewrite Hl1, Hw1, map_size_empty. reflexivity. }
    destruct (loop_left (setLoop (AtCheck (id + 1)) (setWorker id Fetching s1))
                (id + 1) eq_refl ltac:(lia)) as (more & s2 & Hrun2 & Hend).
    exists (events ++ Dispatch :: more)%list, s2. split; [|exact Hend].
    eapply run_app; [exact Hrun|]. cbn [run]. rewrite Hd. exact Hrun2.
  - destruct (Z.leb_spec id maxID) as [Hin|Hout];
      [|apply loop_left with (id := id); [exact El|lia]].
    destruct (Z.leb_spec totalProfiles (successCounter s1)) as [Hfull|Hmore].
    + exists (events ++ [Check])%list, (setLoop Finished s1).
      split; [|split; [reflexivity|exact Hw1]].
      eapply run_app; [exact Hrun|]. cbn. rewrite Hl1.
      rewrite (proj2 (Z.leb_le _ _) Hin), (proj2 (Z.leb_le _ _) Hfull). reflexivity.
    + destruct (IH (setLoop (AtCheck (id + 1))
                      (setWorker id Fetching (setLoop (Passed id) s1))))
        as (more & s2 & Hrun2 & Hend); [cbn; lia|].
      exists (events ++ Check :: Dispatch :: more)%list, s2. split; [|exact Hend].
      eapply run_app; [exact Hrun|]. cbn [run]. cbn [step]. rewrite Hl1.
      rewrite (proj2 (Z.leb_le _ _) Hin), (proj2 (Z.leb_gt _ _) Hmore).
      cbn [step loop setLoop workers]. rewrite Hw1, map_size_empty.
      cbn. exact Hrun2.
  - destruct (Z.leb_spec id maxID) as [Hin|Hout].
    + destruct (IH (setLoop (AtCheck (id + 1)) (setWorker id Fetching s1)))
        as (more & s2 & Hrun2 & Hend); [cbn; lia|].
      exists (events ++ Dispatch :: more)%list, s2. split; [|exact Hend].
      eapply run_app; [exact Hrun|]. cbn [run]. cbn. rewrite Hl1, Hw1, map_size_empty.
      cbn. exact Hrun2.
    + destruct (loop_left (setLoop (AtCheck (id + 1)) (setWorker id Fetching s1))
                  (id + 1) eq_refl ltac:(lia)) as (more & s2 & Hrun2 & Hend).
      exists (events ++ Dispatch :: more)%list, s2. split; [|exact Hend].
      eapply run_app; [exact Hrun|]. cbn [run]. cbn. rewrite Hl1, Hw1, map_size_empty.
      cbn. exact Hrun2.
Qed.

(** X24: from every state the harvest can be brought to its end: there is
    a continuation of the run after which the loop has been left and
    every worker has exited, so that the wait for the workers returns;
    the bound [maxID] of the loop is what ends it when the target of
    successes is never reached. *)
Theorem harvest_can_end (s : State) :
  exists events s',
    run s events = Some s' /\ loop s' = Finished /\ workers s' = ∅.
Proof.
  apply (harvest_ends
           (Z.to_nat (match loop s with
                      | AtCheck id => maxID + 1 - id
                      | Passed id => maxID + 1 - id
                      | Finished => 0
                      end))).
  destruct (loop s); try exact I; lia.
Qed.

End Progress.
